(** * Swap, order and transfer core of the wallet front end

    A shallow embedding of the TypeScript module that submits transfers,
    CoW-protocol orders and Uniswap V2 swaps, together with the properties
    of its path selection, slippage bounds, allowance handling and order
    status polling.

    Every asynchronous call of the source (wallet, signer, JSON-RPC
    provider, order book API, timers) is a call to an oracle of the
    environment; the program threads the environment's state and appends
    one event per call to a trace, so that "nothing was submitted" and
    "this happened before that" are statements about the trace.
    Building an API object or a signer ([new OrderBookApi],
    [provider.getSigner]) makes no call and leaves no event, and neither
    does building a contract ([new ethers.Contract]) on an address
    literal, which is what the router, the factory and the tokens of the
    decimal table are; [console.log] and [console.error] are not
    modelled. *)

From Stdlib Require Import ZArith String Ascii List Lia Bool.
From Stdlib Require Import Floats.SpecFloat.
From stdpp Require Import base gmap strings list.

Local Open Scope Z_scope.

(* ===================================================================== *)
(** * JavaScript numbers *)
(* ===================================================================== *)

(** A JavaScript [number] is an IEEE 754 binary64 value.  The operations
    below are the ones from the specification of floating-point numbers of
    the standard library, instantiated at 53 bits of precision. *)
Module JsNumber.

Definition prec : Z := 53.
Definition emax : Z := 1024.

Definition number : Type := spec_float.

#[global] Instance number_eq_dec : EqDecision number.
Proof. solve_decision. Defined.

(** [Number(s)] for a string [s] of decimal digits denoting [n], and the
    value of an integer literal: the double nearest to [n]. *)
Definition of_Z (n : Z) : number := binary_normalize prec emax n 0 false.

Definition mul (x y : number) : number := SFmul prec emax x y.
Definition sub (x y : number) : number := SFsub prec emax x y.
Definition div (x y : number) : number := SFdiv prec emax x y.

(** The literal [0.05]: the double [0x1.999999999999ap-5]. *)
Definition lit_0_05 : number := S754_finite false 7205759403792794 (-57).

(** The signed mantissa of a finite number. *)
Definition signed (s : bool) (m : positive) : Z :=
  if s then Z.neg m else Z.pos m.

(** [Math.floor(x)], as an integer, for a finite [x]. *)
Definition floor (x : number) : Z :=
  match x with
  | S754_finite s m e =>
      if 0 <=? e then signed s m * 2 ^ e else signed s m / 2 ^ (- e)
  | _ => 0
  end.

(** [Math.round(x)], as an integer, for a finite [x]: the integer nearest
    to [x], a tie going up.  With [x = m * 2^e] and [e < 0] this is the
    floor of [(2 m + 2^-e) / 2^(1-e)]. *)
Definition round (x : number) : Z :=
  match x with
  | S754_finite s m e =>
      if 0 <=? e then signed s m * 2 ^ e
      else (2 * signed s m + 2 ^ (- e)) / 2 ^ (1 - e)
  | _ => 0
  end.

End JsNumber.

(* ===================================================================== *)
(** * JavaScript objects used as tables *)
(* ===================================================================== *)

(** The result of reading a property [o[k]] of an object literal: one of
    its own properties, a property it inherits from [Object.prototype], or
    [undefined]. *)
Inductive JsProp (A : Type) : Type :=
| Own (a : A)
| Inherited (name : string)
| Undefined.
Arguments Own {A} a.
Arguments Inherited {A} name.
Arguments Undefined {A}.

(** The property names every object literal inherits. *)
Definition objectPrototypeKeys : list string :=
  [ "constructor"; "__defineGetter__"; "__defineSetter__"; "hasOwnProperty";
    "__lookupGetter__"; "__lookupSetter__"; "isPrototypeOf";
    "propertyIsEnumerable"; "toString"; "valueOf"; "__proto__";
    "toLocaleString" ].

Definition js_get {A : Type} (own : gmap string A) (k : string) : JsProp A :=
  match own !! k with
  | Some a => Own a
  | None =>
      if bool_decide (k ∈ objectPrototypeKeys) then Inherited k else Undefined
  end.

(** What [supportedChains[chain]] evaluates to when it is not [undefined]:
    a chain number, or a value inherited from [Object.prototype]. *)
Inductive ChainId : Type :=
| ChainNum (n : Z)
| ChainInherited (name : string).

#[global] Instance ChainId_eq_dec : EqDecision ChainId.
Proof. solve_decision. Defined.

(** A table indexed by chain number.  An inherited value, turned into a
    property name, is the source text of a function or ["[object Object]"],
    which is no property of any table here. *)
Definition js_get_num {A : Type} (own : gmap Z A) (c : ChainId) : option A :=
  match c with
  | ChainNum n => own !! n
  | ChainInherited _ => None
  end.

(* ===================================================================== *)
(** * Constant tables of the module *)
(* ===================================================================== *)

Definition Address : Type := string.

Definition UNISWAP_V2_ROUTER : gmap Z Address :=
  {[ 1 := "0x7a250d5630B4cF539739dF2C5dAcb4c659F2488D";
     11155111 := "0xC532a74256D3Db42D0Bf7a0400fEFDbad7694008" ]}.

Definition UNISWAP_V2_FACTORY : gmap Z Address :=
  {[ 1 := "0x5C69bEe701ef814a2B6a3EDD4B1652CB9cc5aA6f";
     11155111 := "0x7E0987E5b3a30e3f2828572Bb659A548460a3003" ]}.

Definition sepoliaDecimals : gmap string nat :=
  {[ "0x7b79995e5f793A07Bc00c21412e50Ecae098E7f9" := 18%nat;
     "0x94a9d9ac8a22534e3faca9f4e7f2e2cf85d5e4c8" := 6%nat;
     "0x1c7D4B196Cb0C7B01d743Fbc6116a902379C7238" := 6%nat;
     "0x08210F9170F89Ab7658F0B5E3fF39b0E03C594D4" := 6%nat;
     "0xB4F1737Af37711e9A5890D9510c9bB60e170CB0D" := 18%nat;
     "0xbe72E441BF55620febc26715db68d3494213D8Cb" := 18%nat ]}.

Definition mainnetDecimals : gmap string nat :=
  {[ "0xC02aaA39b223FE8D0A0e5C4F27eAD9083C756Cc2" := 18%nat;
     "0xA0b86991c6218b36c1d19D4a2e9Eb0cE3606eB48" := 6%nat;
     "0x6B175474E89094C44Da98b954EedeAC495271d0F" := 18%nat;
     "0x1aBaEA1f7C830bD89Acc67eC4af516284b1bC33c" := 6%nat ]}.

Definition decimalConverter : gmap Z (gmap string nat) :=
  {[ 11155111 := sepoliaDecimals; 1 := mainnetDecimals ]}.

Definition supportedChains : gmap string Z :=
  {[ "sepolia" := 11155111; "mainnet" := 1; "base" := 8453 ]}.

(** [ethers.constants.AddressZero] and [ethers.constants.MaxUint256]. *)
Definition AddressZero : Address :=
  "0x0000000000000000000000000000000000000000".
Definition MaxUint256 : Z := 2 ^ 256 - 1.

(* ===================================================================== *)
(** * Amount conversion *)
(* ===================================================================== *)

(** Decimal numerals.  Strings are handled as lists of characters. *)
Module Decimal.

Definition chars : Type := list ascii.

Definition zero_char : ascii := "0"%char.
Definition dot_char : ascii := "."%char.
Definition minus_char : ascii := "-"%char.

Definition is_digit (c : ascii) : bool :=
  ((48 <=? nat_of_ascii c) && (nat_of_ascii c <=? 57))%nat.

Definition digit_val (c : ascii) : Z := Z.of_nat (nat_of_ascii c) - 48.

Definition digit_char (n : Z) : ascii := ascii_of_nat (Z.to_nat (48 + n)).

(** The number a string of digits denotes. *)
Definition dec_val (l : chars) : Z :=
  fold_left (fun acc c => 10 * acc + digit_val c) l 0.

(** The last [k] decimal digits of [n]. *)
Fixpoint digits_of (k : nat) (n : Z) : chars :=
  match k with
  | O => []
  | S k' => digits_of k' (n / 10) ++ [digit_char (n mod 10)]
  end.

(** The number of decimal digits of [n >= 0]; [fuel] bounds the number of
    divisions by ten. *)
Fixpoint num_digits (fuel : nat) (n : Z) : nat :=
  match fuel with
  | O => 1
  | S fuel' => if n <? 10 then 1 else S (num_digits fuel' (n / 10))
  end.

(** [n.toString()] for an integer [n]: no leading zero, a minus sign
    when negative. *)
Definition nat_toString (n : Z) : chars :=
  digits_of (num_digits (S (Z.to_nat (Z.log2 n))) n) n.

Definition toString (n : Z) : chars :=
  if n <? 0 then minus_char :: nat_toString (- n) else nat_toString n.

Definition is_zero_char (c : ascii) : bool := bool_decide (c = zero_char).

(** Drops the zeros at the end of a string:
    [while (s[s.length - 1] === "0") s = s.substring(0, s.length - 1)]. *)
Fixpoint trim_trailing_zeros (l : chars) : chars :=
  match l with
  | [] => []
  | c :: l' =>
      match trim_trailing_zeros l' with
      | [] => if is_zero_char c then [] else [c]
      | t => c :: t
      end
  end.

(** [while (s.length < k) s += "0"] *)
Definition pad_right (k : nat) (l : chars) : chars :=
  l ++ replicate (k - length l) zero_char.

(** [while (s.length < k) s = "0" + s] *)
Definition pad_left (k : nat) (l : chars) : chars :=
  replicate (k - length l) zero_char ++ l.

(** [s.split(".")] *)
Fixpoint split_dot (l : chars) : list chars :=
  match l with
  | [] => [[]]
  | c :: l' =>
      if bool_decide (c = dot_char) then [] :: split_dot l'
      else match split_dot l' with
           | h :: t => (c :: h) :: t
           | [] => [[c]]
           end
  end.

End Decimal.

(** [Number.prototype.toString] for the result of [Math.round] (ECMAScript,
    Number::toString with radix 10): the digits are the fewest that read
    back as the same number, the nearest to it when there is a choice;
    they are written out in full below 10^21 and in exponent notation from
    there on. *)
Module NumberToString.
Import Decimal.

(** The integer [c], read as a number, is the number of value [v]. *)
Definition reads_as (c v : Z) : bool :=
  bool_decide (JsNumber.of_Z c = JsNumber.of_Z v).

(** The integer with the fewest significant digits that reads as [v], a
    positive integer of [n] digits that is the value of a number: with [k]
    significant digits the candidates are the multiples of [10^(n-k)] next
    to [v]; of two that both read as [v] the nearer is taken, and the one
    with an even last digit when they are as near.  Seventeen digits are
    always enough. *)
Fixpoint shortest_from (fuel k n : nat) (v : Z) : Z :=
  match fuel with
  | O => v
  | S fuel' =>
      let p := 10 ^ Z.of_nat (n - k) in
      let lo := v / p * p in
      let hi := lo + p in
      if reads_as lo v && reads_as hi v then
        if v - lo <? hi - v then lo
        else if hi - v <? v - lo then hi
        else if Z.even (v / p) then lo else hi
      else if reads_as lo v then lo
      else if reads_as hi v then hi
      else shortest_from fuel' (S k) n v
  end.

Definition shortest (v : Z) : Z :=
  shortest_from 17 1 (length (nat_toString v)) v.

(** The text of a positive integer [c]: its digits when [c < 10^21];
    otherwise the first digit, the other significant digits after a dot,
    and the exponent. *)
Definition render (c : Z) : chars :=
  let digits := nat_toString c in
  if c <? 10 ^ 21 then digits
  else
    let exponent :=
      "e"%char :: "+"%char :: nat_toString (Z.of_nat (length digits) - 1) in
    match trim_trailing_zeros digits with
    | [] => digits
    | [d] => d :: exponent
    | d :: rest => d :: dot_char :: rest ++ exponent
    end.

(** The text of the number whose value is the integer [v]. *)
Definition integer_toString (v : Z) : string :=
  string_of_list_ascii
    (if v =? 0 then [zero_char]
     else if v <? 0 then minus_char :: render (shortest (- v))
     else render (shortest v)).

(** [Math.round(x).toString()]: [Math.round] of a finite number is a
    number whose value is an integer ([-0] is written "0"); it leaves
    [NaN] and the infinities as they are. *)
Definition round_toString (x : JsNumber.number) : string :=
  match x with
  | S754_nan => "NaN"
  | S754_infinity s => if s then "-Infinity" else "Infinity"
  | S754_zero _ => "0"
  | S754_finite _ _ _ => integer_toString (JsNumber.round x)
  end.

End NumberToString.

(** Modelled from the spec: [ethers.utils.parseUnits] and
    [ethers.utils.formatUnits], functions of the ethers library that the
    module calls and whose code is not part of the sources.  The spec has
    an amount "externally expressed as a human-decimal string (e.g. "1.5"),
    converted to an integer base-unit representation using the Asset's
    decimal precision", and formatted "back to human units (at that
    precision)".  The definitions follow the library's fixed-point
    conversion: a conversion is exact or it fails, it never rounds. *)
Module Units.
Import Decimal.

(** The test [/^-?[0-9.]+$/]. *)
Definition amount_chars (l : chars) : bool :=
  match l with
  | [] => false
  | _ => forallb (fun c => is_digit c || bool_decide (c = dot_char)) l
  end.

Definition matches_amount (l : chars) : bool :=
  match l with
  | c :: l' => if bool_decide (c = minus_char) then amount_chars l'
               else amount_chars l
  | [] => false
  end.

(** The conversion of an unsigned numeral, once the sign is removed. *)
Definition parseMagnitude (value : chars) (decimals : nat) : option Z :=
  if bool_decide (value = [dot_char]) then None
  else
    let comps := split_dot value in
    if (2 <? length comps)%nat then None
    else
      let whole := default [] (comps !! 0%nat) in
      let whole := match whole with [] => [zero_char] | _ => whole end in
      let fraction :=
        match comps !! 1%nat with
        | None | Some [] => [zero_char]
        | Some f => f
        end in
      let fraction := trim_trailing_zeros fraction in
      if (decimals <? length fraction)%nat then None
      else
        let fraction :=
          match fraction with [] => [zero_char] | _ => fraction end in
        let fraction := pad_right decimals fraction in
        Some (dec_val whole * 10 ^ Z.of_nat decimals + dec_val fraction).

(** Modelled from the spec: the library's conversion of a decimal numeral
    with at most [decimals] fractional digits to base units; [None] when
    the library throws (malformed numeral, more fractional digits than
    [decimals], more than 256 decimals). *)
Definition parseFixed (value : chars) (decimals : nat) : option Z :=
  if (256 <? decimals)%nat then None
  else if negb (matches_amount value) then None
  else
    let negative :=
      match value with c :: _ => bool_decide (c = minus_char) | [] => false end in
    let value := if negative then tail value else value in
    match parseMagnitude value decimals with
    | Some wei => Some (if negative then - wei else wei)
    | None => None
    end.

(** The part of a string of digits kept by the library's regular
    expression for trailing zeros: the string without the zeros at its
    end, or a single zero when nothing else is left. *)
Definition strip_fraction (l : chars) : chars :=
  match trim_trailing_zeros l with
  | [] => [zero_char]
  | t => t
  end.

(** The rendering of a non-negative amount. *)
Definition formatMagnitude (value : Z) (decimals : nat) : chars :=
  let multiplier := 10 ^ Z.of_nat decimals in
  let fraction := pad_left decimals (toString (value mod multiplier)) in
  let fraction := strip_fraction fraction in
  let whole := toString (value / multiplier) in
  if (decimals =? 0)%nat then whole else whole ++ dot_char :: fraction.

(** Modelled from the spec: the library's rendering of base units as a
    decimal numeral, with a dot and at least one fractional digit when
    [decimals] is not zero. *)
Definition formatFixed (value : Z) (decimals : nat) : chars :=
  if value <? 0 then minus_char :: formatMagnitude (- value) decimals
  else formatMagnitude value decimals.

(** Modelled from the spec: [ethers.utils.parseUnits(amount, decimals)],
    "converted to an integer base-unit representation using the Asset's
    decimal precision". *)
Definition parseUnits (amount : string) (decimals : nat) : option Z :=
  parseFixed (list_ascii_of_string amount) decimals.

(** Modelled from the spec: [ethers.utils.formatUnits(value, decimals)],
    "formatting a converted base-unit amount back to human units (at that
    precision)". *)
Definition formatUnits (value : Z) (decimals : nat) : string :=
  string_of_list_ascii (formatFixed value decimals).

End Units.

(** Decimal numerals as numbers: what a numeral denotes, and the numerals
    that are written in one way only. *)
Module Numeral.
Import Decimal.

(** The number an unsigned numeral denotes, as a numerator and the count
    of fractional digits: [w.f] denotes the number [wf / 10^(length f)]. *)
Definition unsigned_value (t : chars) : Z * nat :=
  match split_dot t with
  | [w] => (dec_val w, 0%nat)
  | [w; f] => (dec_val (w ++ f), length f)
  | _ => (0, 0%nat)
  end.

Definition value (t : chars) : Z * nat :=
  match t with
  | c :: t' =>
      if bool_decide (c = minus_char)
      then (- fst (unsigned_value t'), snd (unsigned_value t'))
      else unsigned_value t
  | [] => (0, 0%nat)
  end.

(** The fractions [n / 10^k] and [n' / 10^k'] are the same number. *)
Definition same_number (x y : Z * nat) : Prop :=
  fst x * 10 ^ Z.of_nat (snd y) = fst y * 10 ^ Z.of_nat (snd x).

(** A whole part without a leading zero, or the single digit zero. *)
Definition canonical_whole (w : chars) : bool :=
  forallb is_digit w
  && match w with
     | [] => false
     | [_] => true
     | c :: _ => negb (is_zero_char c)
     end.

(** A fractional part without a zero at its end, or the single digit
    zero. *)
Definition canonical_fraction (f : chars) : bool :=
  forallb is_digit f
  && (bool_decide (f = [zero_char])
      || negb (bool_decide (f = []))
         && bool_decide (trim_trailing_zeros f = f)).

(** The numerals [w.f] and [-w.f] with such parts, zero being written
    without a sign. *)
Definition canonical (t : chars) : bool :=
  match t with
  | c :: t' =>
      if bool_decide (c = minus_char) then
        match split_dot t' with
        | [w; f] =>
            canonical_whole w && canonical_fraction f
            && negb (bool_decide (w = [zero_char])
                     && bool_decide (f = [zero_char]))
        | _ => false
        end
      else
        match split_dot t with
        | [w; f] => canonical_whole w && canonical_fraction f
        | _ => false
        end
  | [] => false
  end.

End Numeral.

(* ===================================================================== *)
(** * Values exchanged with the environment *)
(* ===================================================================== *)

(** A thrown value: an [Error] with its message, and for the errors of the
    order book API the [body] the catch clause of [sendOrder] inspects. *)
Record ErrorBody : Type := {
  errorType : string;
  description : string   (* the empty string when absent *)
}.

Record JsError : Type := {
  message : option string;
  body : option ErrorBody
}.

Definition new_Error (msg : string) : JsError :=
  {| message := Some msg; body := None |}.

Definition Result (A : Type) : Type := JsError + A.

(** A connected wallet, named by its address. *)
Definition Wallet : Type := string.
Definition TxHash : Type := string.

(** Modelled from the spec: the enumeration [OrderStatus] of the CoW SDK,
    declared outside the sources; "terminal states include fulfilled and
    others (e.g., cancelled, expired)". *)
Inductive OrderStatus : Type :=
| PRESIGNATURE_PENDING | OPEN | FULFILLED | CANCELLED | EXPIRED.

#[global] Instance OrderStatus_eq_dec : EqDecision OrderStatus.
Proof. solve_decision. Defined.

Record OrderQuoteRequest : Type := {
  req_sellToken : Address;
  req_buyToken : Address;
  req_from : Address;
  req_receiver : Address;
  req_sellAmountBeforeFee : Z;
  req_kind : string
}.

(** The order parameters of a quote.  Amounts are decimal strings in the
    source.  In the quote the order book answers they are numerals of
    integers, held as the integers they denote ([Quote Z]); the quote as
    the executor rewrites it holds the texts the executor writes
    ([Quote string]). *)
Record Quote (A : Type) : Type := {
  sellToken : Address;
  buyToken : Address;
  receiver : option Address;
  sellAmount : A;
  buyAmount : A;
  feeAmount : A;
  validTo : Z;
  appData : string;
  kind : string;
  partiallyFillable : bool
}.
Arguments sellToken {A} _.
Arguments buyToken {A} _.
Arguments receiver {A} _.
Arguments sellAmount {A} _.
Arguments buyAmount {A} _.
Arguments feeAmount {A} _.
Arguments validTo {A} _.
Arguments appData {A} _.
Arguments kind {A} _.
Arguments partiallyFillable {A} _.

Record QuoteResponse : Type := {
  quote : Quote Z;
  id : option Z
}.

Record OrderCreation : Type := {
  order : Quote string;
  signature : string;
  signingScheme : string;
  quoteId : option Z;
  from : Address
}.

(** One event per call that leaves the module. *)
Inductive Event : Type :=
| EvSwitchChain (w : Wallet) (c : ChainId)
| EvGetEthersProvider (w : Wallet)
| EvGetAddress
| EvAllowance (token owner : Address) (spender : option Address)
| EvApprove (token : Address) (spender : option Address) (value : Z)
| EvWait (tx : TxHash)
| EvTransfer (token to : Address) (amount : Z)
| EvResolveName (name : string)
| EvGetQuote (c : ChainId) (req : OrderQuoteRequest)
| EvSignOrder (o : Quote string) (c : ChainId)
| EvSendOrder (c : ChainId) (o : OrderCreation)
| EvGetOrder (c : ChainId) (orderId : string)
| EvSleep (ms : Z)
| EvGetPair (factory tokenA tokenB : Address)
| EvCreatePair (factory tokenA tokenB : Address)
| EvGetAmountsOut (router : Address) (amountIn : Z) (path : list Address)
| EvSwapExactTokensForTokens (router : Address) (amountIn amountOutMin : Z)
    (path : list Address) (to : Address) (deadline gasLimit : Z)
| EvNow.

(** The environment: for each call, its outcome in a state [W] of the
    outside world and the state it leaves.  [isAddress] is the library's
    address test and [COW_PROTOCOL_VAULT_RELAYER_ADDRESS] the SDK's table
    of relayer contracts; both are declared outside the sources. *)
Record Env (W : Type) : Type := {
  switchChain : Wallet -> ChainId -> W -> Result unit * W;
  getEthersProvider : Wallet -> W -> Result unit * W;
  getAddress : W -> Result Address * W;
  allowance : Address -> Address -> option Address -> W -> Result Z * W;
  approve : Address -> option Address -> Z -> W -> Result TxHash * W;
  wait : TxHash -> W -> Result unit * W;
  transfer : Address -> Address -> Z -> W -> Result TxHash * W;
  resolveName : string -> W -> Result (option Address) * W;
  getQuote : ChainId -> OrderQuoteRequest -> W -> Result QuoteResponse * W;
  signOrder : Quote string -> ChainId -> W -> Result string * W;
  postOrder : ChainId -> OrderCreation -> W -> Result string * W;
  getOrder : ChainId -> string -> W -> Result OrderStatus * W;
  setTimeout : Z -> W -> W;
  getPair : Address -> Address -> Address -> W -> Result Address * W;
  createPair : Address -> Address -> Address -> W -> Result TxHash * W;
  getAmountsOut : Address -> Z -> list Address -> W -> Result (list Z) * W;
  swapExactTokensForTokens :
    Address -> Z -> Z -> list Address -> Address -> Z -> Z ->
    W -> Result TxHash * W;
  Date_now : W -> Z;
  isAddress : string -> bool;
  COW_PROTOCOL_VAULT_RELAYER_ADDRESS : gmap Z Address
}.
Arguments switchChain {W} _ _ _ _.
Arguments getEthersProvider {W} _ _ _.
Arguments getAddress {W} _ _.
Arguments allowance {W} _ _ _ _ _.
Arguments approve {W} _ _ _ _ _.
Arguments wait {W} _ _ _.
Arguments transfer {W} _ _ _ _ _.
Arguments resolveName {W} _ _ _.
Arguments getQuote {W} _ _ _ _.
Arguments signOrder {W} _ _ _ _.
Arguments postOrder {W} _ _ _ _.
Arguments getOrder {W} _ _ _ _.
Arguments setTimeout {W} _ _ _.
Arguments getPair {W} _ _ _ _ _.
Arguments createPair {W} _ _ _ _ _.
Arguments getAmountsOut {W} _ _ _ _ _.
Arguments swapExactTokensForTokens {W} _ _ _ _ _ _ _ _ _.
Arguments Date_now {W} _ _.
Arguments isAddress {W} _ _.
Arguments COW_PROTOCOL_VAULT_RELAYER_ADDRESS {W} _.

(* ===================================================================== *)
(** * The monad of the module's asynchronous functions *)
(* ===================================================================== *)

Record State (W : Type) : Type := {
  world : W;
  trace : list Event
}.
Arguments world {W} _.
Arguments trace {W} _.
Arguments Build_State {W} _ _.

(** An [async] function: from a state to a value or a thrown error, and
    the state it leaves. *)
Definition M (W A : Type) : Type := State W -> Result A * State W.

Definition ret {W A : Type} (a : A) : M W A := fun s => (inr a, s).

Definition throw {W A : Type} (e : JsError) : M W A := fun s => (inl e, s).

Definition bind {W A B : Type} (m : M W A) (k : A -> M W B) : M W B :=
  fun s =>
    match m s with
    | (inr a, s') => k a s'
    | (inl e, s') => (inl e, s')
    end.

(** [try { m } catch (error) { h error }] *)
Definition try_catch {W A : Type} (m : M W A) (h : JsError -> M W A) : M W A :=
  fun s =>
    match m s with
    | (inr a, s') => (inr a, s')
    | (inl e, s') => h e s'
    end.

(** A call to the environment, recorded in the trace. *)
Definition call {W A : Type} (ev : Event) (f : W -> Result A * W) : M W A :=
  fun s =>
    let (r, w') := f (world s) in
    (r, {| world := w'; trace := trace s ++ [ev] |}).

Notation "'do' x <- m ; k" := (bind m (fun x => k))
  (at level 10, x name, m at level 100, k at level 200, only parsing).
Notation "m ;; k" := (bind m (fun _ => k))
  (at level 100, k at level 200, right associativity, only parsing).

(* ===================================================================== *)
(** * The functions of the module *)
(* ===================================================================== *)

(** The slippage both executors declare: [const slippage = 0.05]. *)
Definition slippage : JsNumber.number := JsNumber.lit_0_05.

(** [amounts[outputIndex].mul(BigNumber.from(100 - Math.floor(slippage * 100)))
      .div(BigNumber.from(100))]; the division of big numbers truncates. *)
Definition amountOutMin_of (expected : Z) : Z :=
  Z.quot
    (expected *
     (100 - JsNumber.floor (JsNumber.mul slippage (JsNumber.of_Z 100))))
    100.

(** [Math.round(Number(quote.buyAmount) * (1 - slippage))], as an integer
    when the product is finite. *)
Definition buyAmount_of (quoted : Z) : Z :=
  JsNumber.round
    (JsNumber.mul (JsNumber.of_Z quoted)
                  (JsNumber.sub (JsNumber.of_Z 1) slippage)).

(** [Math.round(Number(quote.buyAmount) * (1 - slippage)).toString()],
    the text [sendOrder] writes back into the quote. *)
Definition buyAmountText (quoted : Z) : string :=
  NumberToString.round_toString
    (JsNumber.mul (JsNumber.of_Z quoted)
                  (JsNumber.sub (JsNumber.of_Z 1) slippage)).

(** [s.includes(sub)] *)
Definition includes (sub s : string) : bool :=
  match String.index 0 sub s with Some _ => true | None => false end.

(** The message a template literal prints for [error.message]. *)
Definition message_text (e : JsError) : string :=
  match message e with Some m => m | None => "undefined" end.

Section Functions.

Context {W : Type} (env : Env W).

(** [supportedChains[chain]], and the test [chainId === undefined]. *)
Definition lookupChain (chain : string) : option ChainId :=
  match js_get supportedChains chain with
  | Own n => Some (ChainNum n)
  | Inherited k => Some (ChainInherited k)
  | Undefined => None
  end.

(** The amount in base units, from the decimal table of the chain:
    [chainDecimals[token]], the test against [undefined], and
    [ethers.utils.parseUnits(amount, decimals)].  An inherited property
    passes the test and is refused by [parseUnits]. *)
Definition convertAmount (chain : string) (chainId : ChainId)
    (token : Address) (amount : string) : M W Z :=
  match js_get_num decimalConverter chainId with
  | None => throw (new_Error ("No decimals for chain: " +:+ chain))
  | Some chainDecimals =>
      match js_get chainDecimals token with
      | Undefined => throw (new_Error ("No decimals for token: " +:+ token))
      | Inherited _ => throw (new_Error "invalid decimal size")
      | Own decimals =>
          match Units.parseUnits amount decimals with
          | Some v => ret v
          | None => throw (new_Error "invalid decimal value")
          end
      end
  end.

Definition checkAllowanceAndApproveIfNecessary
    (targetContract : option Address) (tokenContract : Address)
    (requiredAmount : Z) : M W unit :=
  do owner <- call EvGetAddress (getAddress env);
  do existingAllowance <-
    call (EvAllowance tokenContract owner targetContract)
         (allowance env tokenContract owner targetContract);
  let sellAmountBn := requiredAmount in
  if sellAmountBn <=? existingAllowance then ret tt
  else
    do tx <- call (EvApprove tokenContract targetContract MaxUint256)
                  (approve env tokenContract targetContract MaxUint256);
    call (EvWait tx) (wait env tx).

Definition sleep (ms : Z) : M W unit :=
  call (EvSleep ms) (fun w => (inr tt, setTimeout env ms w)).

(** The token contract is built once the provider is there, before the
    decimal table is read.  Building a contract on an address literal
    makes no call, and this is the case described: for a token that is no
    address literal the library would start a lookup of the name with the
    wallet's provider, which has no event here.  The tokens of the decimal
    table are address literals. *)
Definition sendTransaction (wallets : list Wallet) (receiver : string)
    (amount : string) (chain : string) (erc20ContractAddress : Address)
    : M W TxHash :=
  match wallets with
  | [] => throw (new_Error "No wallet is connected!")
  | wallet :: _ =>
      match lookupChain chain with
      | None => throw (new_Error "Unsupported chain")
      | Some chainId =>
          call (EvSwitchChain wallet chainId) (switchChain env wallet chainId) ;;
          call (EvGetEthersProvider wallet) (getEthersProvider env wallet) ;;
          do amount_decimals <-
            convertAmount chain chainId erc20ContractAddress amount;
          do receiverAddress <-
            (if isAddress env receiver then ret receiver
             else
               do resolvedName <-
                 call (EvResolveName receiver) (resolveName env receiver);
               match resolvedName with
               | None => throw (new_Error "Could not resolve ENS name")
               | Some a => ret a
               end);
          call (EvTransfer erc20ContractAddress receiverAddress amount_decimals)
               (transfer env erc20ContractAddress receiverAddress
                         amount_decimals)
      end
  end.

(** The quote as [sendOrder] rewrites it before signing:
    [quote.feeAmount = "0"], [quote.sellAmount = amountDecimals] (the text
    of the converted amount) and [quote.buyAmount = Math.round(...)
    .toString()]. *)
Definition adjustQuote (q : Quote Z) (amountDecimals : Z) : Quote string :=
  {| sellToken := sellToken q;
     buyToken := buyToken q;
     receiver := receiver q;
     sellAmount := string_of_list_ascii (Decimal.toString amountDecimals);
     buyAmount := buyAmountText (buyAmount q);
     feeAmount := "0";
     validTo := validTo q;
     appData := appData q;
     kind := kind q;
     partiallyFillable := partiallyFillable q |}.

(** [{ ...quote, receiver: fromAddress }] *)
Definition withReceiver {A : Type} (q : Quote A) (r : Address) : Quote A :=
  {| sellToken := sellToken q;
     buyToken := buyToken q;
     receiver := Some r;
     sellAmount := sellAmount q;
     buyAmount := buyAmount q;
     feeAmount := feeAmount q;
     validTo := validTo q;
     appData := appData q;
     kind := kind q;
     partiallyFillable := partiallyFillable q |}.

(** The catch clause of [sendOrder]. *)
Definition sendOrder_catch {A : Type} (error : JsError) : M W A :=
  match body error with
  | Some b =>
      if bool_decide (errorType b = "NoLiquidity") then
        throw (new_Error
                 ("NoLiquidity: " +:+
                  (if bool_decide (description b = "")
                   then "No route found between these tokens"
                   else description b)))
      else throw error
  | None => throw error
  end.

Definition sendOrder (wallets : list Wallet) (chain : string)
    (fromAsset toAsset : Address) (amount : string) : M W string :=
  match lookupChain chain with
  | None => throw (new_Error "Unsupported chain")
  | Some chainId =>
      match wallets with
      | [] => throw (new_Error "No wallet is connected!")
      | wallet :: _ =>
          call (EvSwitchChain wallet chainId) (switchChain env wallet chainId) ;;
          call (EvGetEthersProvider wallet) (getEthersProvider env wallet) ;;
          do fromAddress <- call EvGetAddress (getAddress env);
          do amountDecimals <- convertAmount chain chainId fromAsset amount;
          let quoteRequest :=
            {| req_sellToken := fromAsset;
               req_buyToken := toAsset;
               req_from := fromAddress;
               req_receiver := fromAddress;
               req_sellAmountBeforeFee := amountDecimals;
               req_kind := "sell" |} in
          let vaultAddr :=
            js_get_num (COW_PROTOCOL_VAULT_RELAYER_ADDRESS env) chainId in
          checkAllowanceAndApproveIfNecessary vaultAddr fromAsset
            amountDecimals ;;
          try_catch
            (do r <- call (EvGetQuote chainId quoteRequest)
                          (getQuote env chainId quoteRequest);
             let quote := adjustQuote (quote r) amountDecimals in
             let toSign := withReceiver quote fromAddress in
             do orderSigningResult <-
               call (EvSignOrder toSign chainId) (signOrder env toSign chainId);
             let orderObj :=
               {| order := quote;
                  signature := orderSigningResult;
                  signingScheme := "eip712";
                  quoteId := id r;
                  from := fromAddress |} in
             call (EvSendOrder chainId orderObj) (postOrder env chainId orderObj))
            sendOrder_catch
      end
  end.

(** The loop of [waitForOrderStatus]; [fuel] bounds its iterations, and
    [None] is returned when they are used up with the status still open. *)
Fixpoint waitForOrderStatus_loop (fuel : nat) (chainId : ChainId)
    (orderId : string) (orderStatus : OrderStatus)
    : M W (option OrderStatus) :=
  if bool_decide (orderStatus = OPEN) then
    match fuel with
    | O => ret None
    | S fuel' =>
        sleep 3000 ;;
        do enrichedOrder <-
          call (EvGetOrder chainId orderId) (getOrder env chainId orderId);
        waitForOrderStatus_loop fuel' chainId orderId enrichedOrder
    end
  else ret (Some orderStatus).

Definition waitForOrderStatus (fuel : nat) (orderId : string)
    (chain : string) : M W (option OrderStatus) :=
  match lookupChain chain with
  | None => throw (new_Error "Unsupported chain")
  | Some chainId => waitForOrderStatus_loop fuel chainId orderId OPEN
  end.

Definition checkLiquidityPoolExists (factoryAddress tokenA tokenB : Address)
    : M W bool :=
  try_catch
    (do pairAddress <-
       call (EvGetPair factoryAddress tokenA tokenB)
            (getPair env factoryAddress tokenA tokenB);
     ret (negb (bool_decide (pairAddress = AddressZero))))
    (fun _ => ret false).

Definition createLiquidityPoolIfNeeded (factoryAddress tokenA tokenB : Address)
    : M W Address :=
  try_catch
    (do pairAddress <-
       call (EvGetPair factoryAddress tokenA tokenB)
            (getPair env factoryAddress tokenA tokenB);
     if negb (bool_decide (pairAddress = AddressZero)) then ret pairAddress
     else
       do tx <- call (EvCreatePair factoryAddress tokenA tokenB)
                     (createPair env factoryAddress tokenA tokenB);
       call (EvWait tx) (wait env tx) ;;
       call (EvGetPair factoryAddress tokenA tokenB)
            (getPair env factoryAddress tokenA tokenB))
    (fun _ => throw (new_Error "Failed to create liquidity pool")).

(** The error of [uniswapV2Swap] when no route exists and none could be
    created. *)
Definition noViablePath : JsError :=
  new_Error
    "No viable swap path found and failed to create necessary liquidity pools. There is no liquidity for this pair.".

(** [if (!poolExists) { await createLiquidityPoolIfNeeded(...) }] *)
Definition createIfMissing (factoryAddress tokenA tokenB : Address)
    (poolExists : bool) : M W unit :=
  if negb poolExists then
    createLiquidityPoolIfNeeded factoryAddress tokenA tokenB ;; ret tt
  else ret tt.

(** The branch of [uniswapV2Swap] taken when the probes found no route:
    create the direct pool, and when that fails the missing pools through
    the intermediary. *)
Definition bootstrapPath (factoryAddress fromAsset toAsset WETH_ADDRESS : Address)
    (directPoolExists fromWethPoolExists toWethPoolExists : bool)
    : M W (list Address) :=
  try_catch
    (if negb directPoolExists then
       try_catch
         (createLiquidityPoolIfNeeded factoryAddress fromAsset toAsset ;;
          ret [fromAsset; toAsset])
         (fun _ =>
            createIfMissing factoryAddress fromAsset WETH_ADDRESS
              fromWethPoolExists ;;
            createIfMissing factoryAddress WETH_ADDRESS toAsset
              toWethPoolExists ;;
            ret [fromAsset; WETH_ADDRESS; toAsset])
     else ret [fromAsset; WETH_ADDRESS; toAsset])
    (fun _ => throw noViablePath).

(** The decision of [uniswapV2Swap] on the three probe results. *)
Definition choosePath (factoryAddress fromAsset toAsset WETH_ADDRESS : Address)
    (directPoolExists fromWethPoolExists toWethPoolExists : bool)
    : M W (list Address) :=
  if directPoolExists then ret [fromAsset; toAsset]
  else if fromWethPoolExists && toWethPoolExists then
    ret [fromAsset; WETH_ADDRESS; toAsset]
  else
    bootstrapPath factoryAddress fromAsset toAsset WETH_ADDRESS
      directPoolExists fromWethPoolExists toWethPoolExists.

(** Path selection of [uniswapV2Swap]: the three probes, then the
    decision. *)
Definition selectPath (factoryAddress fromAsset toAsset WETH_ADDRESS : Address)
    : M W (list Address) :=
  do directPoolExists <-
    checkLiquidityPoolExists factoryAddress fromAsset toAsset;
  do fromWethPoolExists <-
    checkLiquidityPoolExists factoryAddress fromAsset WETH_ADDRESS;
  do toWethPoolExists <-
    checkLiquidityPoolExists factoryAddress WETH_ADDRESS toAsset;
  choosePath factoryAddress fromAsset toAsset WETH_ADDRESS
    directPoolExists fromWethPoolExists toWethPoolExists.

(** The catch clause around the quote and the swap. *)
Definition uniswapV2Swap_catch {A : Type} (error : JsError) : M W A :=
  match message error with
  | Some m =>
      if includes "INSUFFICIENT_OUTPUT_AMOUNT" m then
        throw (new_Error "Insufficient liquidity for this swap pair")
      else throw (new_Error ("Swap failed: " +:+ message_text error))
  | None => throw (new_Error ("Swap failed: " +:+ message_text error))
  end.

(** The quote and the swap along a path; the two amounts are also
    formatted for the log, with the decimals of [toAsset] or 18. *)
Definition quoteAndSwap (routerAddress : Address)
    (chainDecimals : gmap string nat) (toAsset fromAddress : Address)
    (amountDecimals : Z) (path : list Address) (deadline : Z)
    : M W TxHash :=
  try_catch
    (do amounts <-
       call (EvGetAmountsOut routerAddress amountDecimals path)
            (getAmountsOut env routerAddress amountDecimals path);
     let outputIndex := (length path - 1)%nat in
     match amounts !! outputIndex with
     | None =>
         throw (new_Error
                  "Cannot read properties of undefined (reading 'mul')")
     | Some expected =>
         let amountOutMin := amountOutMin_of expected in
         match js_get chainDecimals toAsset with
         | Inherited _ => throw (new_Error "invalid decimal size")
         | _ =>
             call (EvSwapExactTokensForTokens routerAddress amountDecimals
                     amountOutMin path fromAddress deadline 500000)
                  (swapExactTokensForTokens env routerAddress amountDecimals
                     amountOutMin path fromAddress deadline 500000)
         end
     end)
    uniswapV2Swap_catch.

Definition uniswapV2Swap (wallets : list Wallet) (chain : string)
    (fromAsset toAsset : Address) (amount : string) : M W TxHash :=
  match wallets with
  | [] => throw (new_Error "No wallet is connected!")
  | wallet :: _ =>
      match lookupChain chain with
      | None => throw (new_Error ("Unsupported chain: " +:+ chain))
      | Some chainId =>
          match js_get_num UNISWAP_V2_ROUTER chainId with
          | None =>
              throw (new_Error ("No Uniswap Router found for chain: " +:+ chain))
          | Some routerAddress =>
              match js_get_num UNISWAP_V2_FACTORY chainId with
              | None =>
                  throw (new_Error
                           ("No Uniswap Factory found for chain: " +:+ chain))
              | Some factoryAddress =>
                  call (EvSwitchChain wallet chainId)
                       (switchChain env wallet chainId) ;;
                  call (EvGetEthersProvider wallet)
                       (getEthersProvider env wallet) ;;
                  do fromAddress <- call EvGetAddress (getAddress env);
                  do amountDecimals <-
                    convertAmount chain chainId fromAsset amount;
                  checkAllowanceAndApproveIfNecessary (Some routerAddress)
                    fromAsset amountDecimals ;;
                  let WETH_ADDRESS :=
                    if bool_decide (chainId = ChainNum 11155111)
                    then "0x7b79995e5f793A07Bc00c21412e50Ecae098E7f9"
                    else "0xC02aaA39b223FE8D0A0e5C4F27eAD9083C756Cc2" in
                  do path <-
                    selectPath factoryAddress fromAsset toAsset WETH_ADDRESS;
                  do now <- call EvNow (fun w => (inr (Date_now env w), w));
                  let deadline := now / 1000 + 60 * 20 in
                  quoteAndSwap routerAddress
                    (default ∅ (js_get_num decimalConverter chainId))
                    toAsset fromAddress amountDecimals path deadline
              end
          end
      end
  end.

End Functions.

(* ===================================================================== *)
(** * A simulated environment *)
(* ===================================================================== *)

(** A small deterministic world on which the functions can be run: one
    allowance, a registry of pools, pools whose creation reverts, the
    statuses the order book reports at the next polls, and a clock. *)
Module Sim.

Record World : Type := {
  allowed : Z;
  pools : list (Address * Address);
  frozen : list (Address * Address);
  statuses : list OrderStatus;
  clock : Z
}.

Definition set_allowed (v : Z) (w : World) : World :=
  {| allowed := v; pools := pools w; frozen := frozen w;
     statuses := statuses w; clock := clock w |}.
Definition set_pools (l : list (Address * Address)) (w : World) : World :=
  {| allowed := allowed w; pools := l; frozen := frozen w;
     statuses := statuses w; clock := clock w |}.
Definition set_statuses (l : list OrderStatus) (w : World) : World :=
  {| allowed := allowed w; pools := pools w; frozen := frozen w;
     statuses := l; clock := clock w |}.
Definition set_clock (t : Z) (w : World) : World :=
  {| allowed := allowed w; pools := pools w; frozen := frozen w;
     statuses := statuses w; clock := t |}.

Definition has_pool (l : list (Address * Address)) (a b : Address) : bool :=
  bool_decide ((a, b) ∈ l) || bool_decide ((b, a) ∈ l).

Definition owner : Address := "0x00000000000000000000000000000000000000A1".
Definition pairAddress : Address :=
  "0x00000000000000000000000000000000000000B2".
Definition relayer : Address := "0xC92E8bdf79f0507f65a392b0ab4667716BFE0110".

Definition quoteFor (req : OrderQuoteRequest) : QuoteResponse :=
  {| quote :=
       {| sellToken := req_sellToken req;
          buyToken := req_buyToken req;
          receiver := Some (req_receiver req);
          sellAmount := req_sellAmountBeforeFee req - 7;
          buyAmount := 2 * req_sellAmountBeforeFee req;
          feeAmount := 7;
          validTo := 1700000000;
          appData := "0x00";
          kind := req_kind req;
          partiallyFillable := false |};
     id := Some 42 |}.

Definition env : Env World :=
  {| switchChain := fun _ _ w => (inr tt, w);
     getEthersProvider := fun _ w => (inr tt, w);
     getAddress := fun w => (inr owner, w);
     allowance := fun _ _ _ w => (inr (allowed w), w);
     approve := fun _ _ v w => (inr "0xa9" , set_allowed v w);
     wait := fun _ w => (inr tt, w);
     transfer := fun _ _ _ w => (inr "0x7f", w);
     resolveName := fun _ w => (inr None, w);
     getQuote := fun _ req w => (inr (quoteFor req), w);
     signOrder := fun _ _ w => (inr "0x51", w);
     postOrder := fun _ _ w => (inr "order-1", w);
     getOrder := fun _ _ w =>
       match statuses w with
       | [] => (inl (new_Error "order not found"), w)
       | st :: rest => (inr st, set_statuses rest w)
       end;
     setTimeout := fun ms w => set_clock (clock w + ms) w;
     getPair := fun _ a b w =>
       (inr (if has_pool (pools w) a b then pairAddress else AddressZero), w);
     createPair := fun _ a b w =>
       if has_pool (frozen w) a b then
         (inl (new_Error "execution reverted"), w)
       else (inr "0xc7", set_pools ((a, b) :: pools w) w);
     getAmountsOut := fun _ amountIn path w =>
       (inr (amountIn :: replicate (length path - 1) (2 * amountIn)), w);
     swapExactTokensForTokens := fun _ _ _ _ _ _ _ w => (inr "0x5a", w);
     Date_now := clock;
     isAddress := fun s => String.prefix "0x" s;
     COW_PROTOCOL_VAULT_RELAYER_ADDRESS :=
       {[ 1 := relayer; 11155111 := relayer ]} |}.

Definition world0 : World :=
  {| allowed := 0; pools := []; frozen := []; statuses := [];
     clock := 1700000000000 |}.

Definition start (w : World) : State World := {| world := w; trace := [] |}.

(** Assets of the Sepolia table. *)
Definition WETH : Address := "0x7b79995e5f793A07Bc00c21412e50Ecae098E7f9".
Definition USDC : Address := "0x94a9d9ac8a22534e3faca9f4e7f2e2cf85d5e4c8".
Definition DAI : Address := "0xB4F1737Af37711e9A5890D9510c9bB60e170CB0D".
Definition factory : Address := "0x7E0987E5b3a30e3f2828572Bb659A548460a3003".
Definition router : Address := "0xC532a74256D3Db42D0Bf7a0400fEFDbad7694008".

End Sim.


(* ===================================================================== *)
(** * Observations on runs *)
(* ===================================================================== *)

(** The events of [k] rounds of the polling loop. *)
Definition poll_events (chainId : ChainId) (orderId : string) (k : nat)
    : list Event :=
  concat (replicate k [EvSleep 3000; EvGetOrder chainId orderId]).

(** From the world [w], the order book answers [OPEN] to the next [n]
    polls, each made after the timer of three seconds, and then a status
    [st] other than [OPEN], leaving the world [w']. *)
Fixpoint open_polls {W : Type} (env : Env W) (chainId : ChainId)
    (orderId : string) (n : nat) (w : W) (st : OrderStatus) (w' : W) : Prop :=
  match n with
  | O =>
      getOrder env chainId orderId (setTimeout env 3000 w) = (inr st, w')
      /\ st <> OPEN
  | S n' =>
      exists w1,
        getOrder env chainId orderId (setTimeout env 3000 w) = (inr OPEN, w1)
        /\ open_polls env chainId orderId n' w1 st w'
  end.

(** The position of the first event of a trace that satisfies [p]. *)
Fixpoint position (p : Event -> bool) (t : list Event) : option nat :=
  match t with
  | [] => None
  | ev :: t' => if p ev then Some 0%nat else S <$> position p t'
  end.

Definition isAllowanceRead (ev : Event) : bool :=
  match ev with EvAllowance _ _ _ => true | _ => false end.

Definition isQuoteRequest (ev : Event) : bool :=
  match ev with EvGetQuote _ _ => true | _ => false end.

(** An attempt to make sure that the factory [f] has a pool for [a] and
    [b], told by what the outside world answers from the world [w]: the
    calls made, the address of the pool or [None] when one of the calls
    threw, and the world left.  The factory is read; when it answers an
    address other than the zero address the attempt is over; when it
    answers the zero address a creation is sent, its receipt is awaited
    and the factory is read again. *)
Inductive PoolAttempt {W : Type} (env : Env W) (f a b : Address) (w : W)
    : list Event -> option Address -> W -> Prop :=
| attempt_found (p : Address) (w1 : W) :
    getPair env f a b w = (inr p, w1) ->
    p <> AddressZero ->
    PoolAttempt env f a b w [EvGetPair f a b] (Some p) w1
| attempt_created (w1 : W) (tx : TxHash) (w2 w3 : W) (p : Address) (w4 : W) :
    getPair env f a b w = (inr AddressZero, w1) ->
    createPair env f a b w1 = (inr tx, w2) ->
    wait env tx w2 = (inr tt, w3) ->
    getPair env f a b w3 = (inr p, w4) ->
    PoolAttempt env f a b w
      [EvGetPair f a b; EvCreatePair f a b; EvWait tx; EvGetPair f a b]
      (Some p) w4
| attempt_read_threw (e : JsError) (w1 : W) :
    getPair env f a b w = (inl e, w1) ->
    PoolAttempt env f a b w [EvGetPair f a b] None w1
| attempt_creation_threw (w1 : W) (e : JsError) (w2 : W) :
    getPair env f a b w = (inr AddressZero, w1) ->
    createPair env f a b w1 = (inl e, w2) ->
    PoolAttempt env f a b w [EvGetPair f a b; EvCreatePair f a b] None w2
| attempt_receipt_threw (w1 : W) (tx : TxHash) (w2 : W) (e : JsError) (w3 : W) :
    getPair env f a b w = (inr AddressZero, w1) ->
    createPair env f a b w1 = (inr tx, w2) ->
    wait env tx w2 = (inl e, w3) ->
    PoolAttempt env f a b w
      [EvGetPair f a b; EvCreatePair f a b; EvWait tx] None w3
| attempt_second_read_threw (w1 : W) (tx : TxHash) (w2 w3 : W) (e : JsError)
    (w4 : W) :
    getPair env f a b w = (inr AddressZero, w1) ->
    createPair env f a b w1 = (inr tx, w2) ->
    wait env tx w2 = (inr tt, w3) ->
    getPair env f a b w3 = (inl e, w4) ->
    PoolAttempt env f a b w
      [EvGetPair f a b; EvCreatePair f a b; EvWait tx; EvGetPair f a b]
      None w4.

(** An attempt as a result: the address, or the error thrown for an attempt
    in which a call threw. *)
Definition attemptResult (outcome : option Address) : Result Address :=
  match outcome with
  | Some p => inr p
  | None => inl (new_Error "Failed to create liquidity pool")
  end.

(** The pool of [a] and [b] is there after the calls [calls]: the probe
    had found it and nothing is called, or the probe had not and an
    attempt gives its address. *)
Definition Ensured {W : Type} (env : Env W) (f a b : Address)
    (poolExists : bool) (w : W) (calls : list Event) (w' : W) : Prop :=
  if poolExists then calls = [] /\ w' = w
  else exists p, PoolAttempt env f a b w calls (Some p) w'.

Definition isSwap (ev : Event) : bool :=
  match ev with
  | EvSwapExactTokensForTokens _ _ _ _ _ _ _ => true
  | _ => false
  end.

(** The calls of routing: reads of the factory, creations and the waits
    for them. *)
Definition isPoolCall (ev : Event) : bool :=
  match ev with
  | EvGetPair _ _ _ | EvCreatePair _ _ _ | EvWait _ => true
  | _ => false
  end.

(* ===================================================================== *)
(** * Display helpers and the dashboard's bookkeeping *)
(* ===================================================================== *)


(** From the world [w], the order book answers [OPEN] to the next [n]
    polls and the poll after them throws [e], leaving the world [w']. *)
Fixpoint failing_poll {W : Type} (env : Env W) (chainId : ChainId)
    (orderId : string) (n : nat) (w : W) (e : JsError) (w' : W) : Prop :=
  match n with
  | O => getOrder env chainId orderId (setTimeout env 3000 w) = (inl e, w')
  | S n' =>
      exists w1,
        getOrder env chainId orderId (setTimeout env 3000 w) = (inr OPEN, w1)
        /\ failing_poll env chainId orderId n' w1 e w'
  end.

(** The simulated environment with an order book that refuses every quote
    request with the error [e]. *)
Definition refusingQuotes (e : JsError) : Env Sim.World :=
  {| switchChain := switchChain Sim.env;
     getEthersProvider := getEthersProvider Sim.env;
     getAddress := getAddress Sim.env;
     allowance := allowance Sim.env;
     approve := approve Sim.env;
     wait := wait Sim.env;
     transfer := transfer Sim.env;
     resolveName := resolveName Sim.env;
     getQuote := fun _ _ w => (inl e, w);
     signOrder := signOrder Sim.env;
     postOrder := postOrder Sim.env;
     getOrder := getOrder Sim.env;
     setTimeout := setTimeout Sim.env;
     getPair := getPair Sim.env;
     createPair := createPair Sim.env;
     getAmountsOut := getAmountsOut Sim.env;
     swapExactTokensForTokens := swapExactTokensForTokens Sim.env;
     Date_now := Date_now Sim.env;
     isAddress := isAddress Sim.env;
     COW_PROTOCOL_VAULT_RELAYER_ADDRESS :=
       COW_PROTOCOL_VAULT_RELAYER_ADDRESS Sim.env |}.

(** The order book's answer when there is no route between the tokens. *)
Definition noLiquidityError : JsError :=
  {| message := Some "Request failed";
     body := Some {| errorType := "NoLiquidity";
                     description := "no route found" |} |}.

(** The events of a trace that submit a transaction or an order. *)
Definition isSubmission (ev : Event) : bool :=
  match ev with
  | EvApprove _ _ _ | EvTransfer _ _ _ | EvCreatePair _ _ _
  | EvSwapExactTokensForTokens _ _ _ _ _ _ _ | EvSendOrder _ _ => true
  | _ => false
  end.

(** The page that calls the functions above: its transaction history and
    the way its handlers read the errors they catch. *)
Module Dashboard.

(** The message the swap handler shows for an error it caught. *)
Definition swapErrorMessage (error : JsError) : string :=
  match message error with
  | None => "Sorry, there was an issue processing your swap."
  | Some m =>
      if includes "NoLiquidity" m then
        "Sorry, there is no liquidity available for this swap pair. Please try a different token pair."
      else if includes "Insufficient liquidity" m then
        "Sorry, there is insufficient liquidity for this swap pair on Uniswap. Please try a different token pair."
      else if includes "No liquidity available" m then
        "Sorry, there is no liquidity available for this swap pair on Uniswap V2. Please try a different token pair."
      else if includes "COWProtocolUnsupported" m then
        "Sorry, COW Protocol doesn't support swaps on the Sepolia testnet. Please try using a different network like Ethereum Mainnet."
      else if includes "404" m || includes "Not Found" m then
        "Sorry, COW Protocol API endpoint not found. The Sepolia testnet is not supported by COW Protocol."
      else if includes "user rejected transaction" m then
        "Transaction was rejected in your wallet."
      else if bool_decide (m = "") then
        "Sorry, there was an issue processing your swap."
      else m
  end.

(** What the transfer handler does with an error of [sendTransaction]. *)
Inductive TransferFailure : Type :=
| AddressResolutionFailed | TransactionCancelled | Rethrown.

Definition classifyTransferError (txError : JsError) : TransferFailure :=
  match message txError with
  | None => Rethrown
  | Some m =>
      if includes "Could not resolve name" m || includes "invalid address" m
         || includes "ENS" m
      then AddressResolutionFailed
      else if includes "user rejected" m then TransactionCancelled
      else Rethrown
  end.

Inductive TxType : Type := transfer_type | swap_type | buy_type.
Inductive TxStatus : Type := pending | completed | failed.

Record TxData : Type := {
  transactionHash : option string;
  chain : option string;
  fromAsset : option string;
  toAsset : option string;
  amount : option string;
  recipientAddress : option string;
  orderId : option string;
  moonpayUrl : option string
}.

Record TransactionHistoryItem : Type := {
  id : string;
  timestamp : Z;
  type : TxType;
  status : TxStatus;
  data : TxData;
  message : string
}.

(** [Omit<TransactionHistoryItem, 'id' | 'timestamp'>] *)
Record NewItem : Type := {
  new_type : TxType;
  new_status : TxStatus;
  new_data : TxData;
  new_message : string
}.

(** [Partial<TransactionHistoryItem>]: the fields an update carries. *)
Record Updates : Type := {
  upd_id : option string;
  upd_timestamp : option Z;
  upd_type : option TxType;
  upd_status : option TxStatus;
  upd_data : option TxData;
  upd_message : option string
}.

(** [`tx-${Date.now()}-${Math.random().toString(36).substring(2, 9)}`],
    from the clock and the characters drawn. *)
Definition historyId (now : Z) (drawn : string) : string :=
  "tx-" +:+ string_of_list_ascii (Decimal.toString now) +:+ "-" +:+ drawn.

(** [addTransactionToHistory]: the new item gets an identifier and the
    time (two readings of the clock), and the state becomes
    [[newItem, ...prev].slice(0, 10)]. *)
Definition addTransactionToHistory (now : Z) (drawn : string) (now' : Z)
    (item : NewItem) (prev : list TransactionHistoryItem)
    : list TransactionHistoryItem :=
  let newItem :=
    {| id := historyId now drawn;
       timestamp := now';
       type := new_type item;
       status := new_status item;
       data := new_data item;
       message := new_message item |} in
  take 10 (newItem :: prev).

(** [{ ...item, ...updates }] *)
Definition merge (item : TransactionHistoryItem) (updates : Updates)
    : TransactionHistoryItem :=
  {| id := default (id item) (upd_id updates);
     timestamp := default (timestamp item) (upd_timestamp updates);
     type := default (type item) (upd_type updates);
     status := default (status item) (upd_status updates);
     data := default (data item) (upd_data updates);
     message := default (message item) (upd_message updates) |}.

Definition updateTransactionInHistory (i : string) (updates : Updates)
    (prev : list TransactionHistoryItem) : list TransactionHistoryItem :=
  map (fun item => if bool_decide (id item = i) then merge item updates
                   else item) prev.

(** A change of the history state. *)
Inductive HistoryOp : Type :=
| Add (now : Z) (drawn : string) (now' : Z) (item : NewItem)
| Update (i : string) (updates : Updates).

Definition applyOp (op : HistoryOp) (h : list TransactionHistoryItem)
    : list TransactionHistoryItem :=
  match op with
  | Add now drawn now' item => addTransactionToHistory now drawn now' item h
  | Update i updates => updateTransactionInHistory i updates h
  end.

Definition applyOps (ops : list HistoryOp) (h : list TransactionHistoryItem)
    : list TransactionHistoryItem :=
  fold_left (fun acc op => applyOp op acc) ops h.

(** The additions among the changes [ops]. *)
Definition isAdd (op : HistoryOp) : bool :=
  match op with Add _ _ _ _ => true | Update _ _ => false end.

(** What the updates among [ops] make, one after the other, of an item
    that is in the history when they begin. *)
Fixpoint afterUpdates (ops : list HistoryOp) (item : TransactionHistoryItem)
    : TransactionHistoryItem :=
  match ops with
  | [] => item
  | Add _ _ _ _ :: ops' => afterUpdates ops' item
  | Update i updates :: ops' =>
      afterUpdates ops'
        (if bool_decide (id item = i) then merge item updates else item)
  end.

End Dashboard.

(* ===================================================================== *)
(** * Properties *)
(* ===================================================================== *)

(** ** Checks of the model on concrete inputs *)

Example supportedChains_sepolia :
  js_get supportedChains "sepolia" = Own 11155111.
Proof. vm_compute. reflexivity. Qed.

Example supportedChains_polygon :
  js_get supportedChains "polygon" = Undefined.
Proof. vm_compute. reflexivity. Qed.

Example supportedChains_constructor :
  js_get supportedChains "constructor" = Inherited "constructor".
Proof. vm_compute. reflexivity. Qed.

Example lit_0_05_is_5_over_100 :
  JsNumber.div (JsNumber.of_Z 5) (JsNumber.of_Z 100) = JsNumber.lit_0_05.
Proof. vm_compute. reflexivity. Qed.

Example includes_insufficient :
  includes "INSUFFICIENT_OUTPUT_AMOUNT"
    "execution reverted: UniswapV2Router: INSUFFICIENT_OUTPUT_AMOUNT" = true
  /\ includes "INSUFFICIENT_OUTPUT_AMOUNT" "user rejected transaction" = false.
Proof. vm_compute. split; reflexivity. Qed.

Example uniswapV2Swap_base_has_no_router :
  uniswapV2Swap Sim.env [Sim.owner] "base" Sim.USDC Sim.DAI "100"
    (Sim.start Sim.world0)
  = (inl (new_Error "No Uniswap Router found for chain: base"),
     Sim.start Sim.world0).
Proof. vm_compute. reflexivity. Qed.

Example parseUnits_100 : Units.parseUnits "100" 6 = Some 100000000.
Proof. vm_compute. reflexivity. Qed.
Example parseUnits_1_5 : Units.parseUnits "1.5" 18 = Some 1500000000000000000.
Proof. vm_compute. reflexivity. Qed.
Example parseUnits_neg : Units.parseUnits "-.5" 6 = Some (-500000).
Proof. vm_compute. reflexivity. Qed.
Example parseUnits_too_fine : Units.parseUnits "0.1234567" 6 = None.
Proof. vm_compute. reflexivity. Qed.
Example parseUnits_trail : Units.parseUnits "0.1234560000" 6 = Some 123456.
Proof. vm_compute. reflexivity. Qed.
Example parseUnits_dots : Units.parseUnits "1.2.3" 6 = None.
Proof. vm_compute. reflexivity. Qed.
Example formatUnits_100 : Units.formatUnits 100000000 6 = "100.0".
Proof. vm_compute. reflexivity. Qed.
Example formatUnits_frac : Units.formatUnits 1500000 6 = "1.5".
Proof. vm_compute. reflexivity. Qed.
Example formatUnits_small : Units.formatUnits (-1) 18 = "-0.000000000000000001".
Proof. vm_compute. reflexivity. Qed.
Example formatUnits_0 : Units.formatUnits 1234 0 = "1234".
Proof. vm_compute. reflexivity. Qed.

(** ** Decimal numerals *)

Module DecimalFacts.
Import Decimal.

Lemma digit_cases (k : Z) :
  0 <= k < 10 ->
  k = 0 \/ k = 1 \/ k = 2 \/ k = 3 \/ k = 4 \/
  k = 5 \/ k = 6 \/ k = 7 \/ k = 8 \/ k = 9.
Proof. lia. Qed.

Lemma digit_char_spec (k : Z) :
  0 <= k < 10 ->
  digit_val (digit_char k) = k /\ is_digit (digit_char k) = true.
Proof.
  intros H.
  destruct (digit_cases k H) as [->|[->|[->|[->|[->|[->|[->|[->|[->| ->]]]]]]]]];
    split; reflexivity.
Qed.

Lemma dec_val_snoc (l : chars) (c : ascii) :
  dec_val (l ++ [c]) = 10 * dec_val l + digit_val c.
Proof. unfold dec_val. rewrite fold_left_app. reflexivity. Qed.

Lemma dec_val_zero_cons (l : chars) : dec_val (zero_char :: l) = dec_val l.
Proof. reflexivity. Qed.

Lemma dec_val_zeros (k : nat) (l : chars) :
  dec_val (replicate k zero_char ++ l) = dec_val l.
Proof. induction k as [|k IH]; [reflexivity|]. simpl. rewrite dec_val_zero_cons. exact IH. Qed.

Lemma digits_of_length (k : nat) (n : Z) : length (digits_of k n) = k.
Proof.
  revert n. induction k as [|k IH]; intros n; simpl; [reflexivity|].
  rewrite length_app, IH. simpl. lia.
Qed.

Lemma digits_of_digits (k : nat) (n : Z) :
  forallb is_digit (digits_of k n) = true.
Proof.
  revert n. induction k as [|k IH]; intros n; simpl; [reflexivity|].
  rewrite forallb_app, IH. simpl.
  destruct (digit_char_spec (n mod 10)) as [_ ->]; [|reflexivity].
  apply Z.mod_pos_bound. lia.
Qed.

Lemma digits_of_val (k : nat) (n : Z) :
  0 <= n -> dec_val (digits_of k n) = n mod 10 ^ Z.of_nat k.
Proof.
  revert n. induction k as [|k IH]; intros n Hn.
  - simpl. rewrite Z.mod_1_r. reflexivity.
  - cbn [digits_of]. rewrite dec_val_snoc, IH by (apply Z.div_pos; lia).
    destruct (digit_char_spec (n mod 10)) as [-> _];
      [apply Z.mod_pos_bound; lia|].
    rewrite Nat2Z.inj_succ, Z.pow_succ_r by lia.
    rewrite Z.rem_mul_r by lia. lia.
Qed.

Lemma num_digits_pos (fuel : nat) (n : Z) : (1 <= num_digits fuel n)%nat.
Proof. destruct fuel; simpl; [lia|]. destruct (n <? 10); lia. Qed.

Lemma num_digits_enough (fuel : nat) (n : Z) :
  0 <= n < 2 ^ Z.of_nat fuel -> n < 10 ^ Z.of_nat (num_digits fuel n).
Proof.
  revert n. induction fuel as [|fuel IH]; intros n Hn.
  - simpl in *. lia.
  - cbn [num_digits]. destruct (Z.ltb_spec n 10) as [Hlt|Hge]; [simpl; lia|].
    rewrite Nat2Z.inj_succ, Z.pow_succ_r by lia.
    rewrite Nat2Z.inj_succ, Z.pow_succ_r in Hn by lia.
    assert (n / 10 < 10 ^ Z.of_nat (num_digits fuel (n / 10))).
    { apply IH. split; [apply Z.div_pos; lia|].
      apply Z.div_lt_upper_bound; lia. }
    pose proof (Z.div_mod n 10 ltac:(lia)).
    pose proof (Z.mod_pos_bound n 10 ltac:(lia)). lia.
Qed.

Lemma num_digits_least (fuel : nat) (n : Z) (d : nat) :
  (1 <= d)%nat -> 0 <= n < 10 ^ Z.of_nat d -> (num_digits fuel n <= d)%nat.
Proof.
  revert n d. induction fuel as [|fuel IH]; intros n d Hd Hn; simpl; [lia|].
  destruct (Z.ltb_spec n 10) as [Hlt|Hge]; [lia|].
  destruct d as [|d]; [lia|].
  destruct d as [|d]; [simpl in Hn; lia|].
  apply le_n_S. apply IH; [lia|].
  rewrite (Nat2Z.inj_succ (S d)), Z.pow_succ_r in Hn by lia.
  split; [apply Z.div_pos; lia|]. apply Z.div_lt_upper_bound; lia.
Qed.

Lemma nat_toString_val (n : Z) : 0 <= n -> dec_val (nat_toString n) = n.
Proof.
  intros Hn. unfold nat_toString. rewrite digits_of_val by assumption.
  apply Z.mod_small. split; [assumption|].
  apply num_digits_enough. split; [assumption|].
  rewrite Nat2Z.inj_succ, Z2Nat.id by apply Z.log2_nonneg.
  destruct (Z.eq_dec n 0) as [->|Hz]; [reflexivity|].
  apply Z.log2_spec. lia.
Qed.

Lemma toString_nonneg (n : Z) : 0 <= n -> toString n = nat_toString n.
Proof. intros Hn. unfold toString. destruct (Z.ltb_spec n 0); [lia|reflexivity]. Qed.

Lemma nat_toString_digits (n : Z) : forallb is_digit (nat_toString n) = true.
Proof. apply digits_of_digits. Qed.

Lemma nat_toString_length (n : Z) (d : nat) :
  (1 <= d)%nat -> 0 <= n < 10 ^ Z.of_nat d -> (length (nat_toString n) <= d)%nat.
Proof.
  intros Hd Hn. unfold nat_toString. rewrite digits_of_length.
  apply num_digits_least; assumption.
Qed.

Lemma nat_toString_nonempty (n : Z) : nat_toString n <> [].
Proof.
  intros H. apply (f_equal length) in H. unfold nat_toString in H.
  rewrite digits_of_length in H. pose proof (num_digits_pos (S (Z.to_nat (Z.log2 n))) n).
  change (length (@nil ascii)) with 0%nat in H. lia.
Qed.

End DecimalFacts.

(** ** Trimming, padding and splitting *)

Module UnitsFacts.
Import Decimal Units DecimalFacts.

Lemma trim_restore (l : chars) :
  trim_trailing_zeros l
    ++ replicate (length l - length (trim_trailing_zeros l)) zero_char = l.
Proof.
  induction l as [|c l IH]; [reflexivity|].
  cbn [trim_trailing_zeros].
  destruct (trim_trailing_zeros l) as [|a t] eqn:Ht.
  - simpl in IH. rewrite Nat.sub_0_r in IH.
    unfold is_zero_char. case_bool_decide as Hc.
    + subst c. simpl. rewrite IH. reflexivity.
    + simpl. rewrite Nat.sub_0_r, IH. reflexivity.
  - cbn [length app] in *. rewrite Nat.sub_succ. f_equal. exact IH.
Qed.

Lemma trim_length (l : chars) :
  (length (trim_trailing_zeros l) <= length l)%nat.
Proof.
  rewrite <- (trim_restore l) at 2. rewrite length_app. lia.
Qed.

Lemma trim_idempotent (l : chars) :
  trim_trailing_zeros (trim_trailing_zeros l) = trim_trailing_zeros l.
Proof.
  induction l as [|c l IH]; [reflexivity|].
  cbn [trim_trailing_zeros].
  destruct (trim_trailing_zeros l) as [|a t] eqn:Ht.
  - destruct (is_zero_char c) eqn:Hc; [reflexivity|].
    cbn [trim_trailing_zeros]. rewrite Hc. reflexivity.
  - cbn [trim_trailing_zeros] in *. rewrite IH. reflexivity.
Qed.

Lemma trim_digits (l : chars) :
  forallb is_digit l = true -> forallb is_digit (trim_trailing_zeros l) = true.
Proof.
  induction l as [|c l IH]; [reflexivity|].
  cbn [forallb trim_trailing_zeros]. intros [Hc Hl]%andb_prop.
  specialize (IH Hl).
  destruct (trim_trailing_zeros l) as [|a t].
  - destruct (is_zero_char c); simpl; [reflexivity|]. rewrite Hc. reflexivity.
  - cbn [forallb] in *. rewrite Hc. exact IH.
Qed.

(** Removing the trailing zeros of a fraction of [d] digits and padding
    it again gives the fraction back. *)
Lemma pad_strip (l : chars) :
  (1 <= length l)%nat ->
  (length (trim_trailing_zeros (strip_fraction l)) <= length l)%nat /\
  pad_right (length l)
    (match trim_trailing_zeros (strip_fraction l) with
     | [] => [zero_char]
     | _ => trim_trailing_zeros (strip_fraction l)
     end) = l.
Proof.
  intros Hl. unfold strip_fraction.
  pose proof (trim_restore l) as Hr. pose proof (trim_length l) as Hlen.
  destruct (trim_trailing_zeros l) as [|a t] eqn:Ht.
  - simpl. split; [lia|]. simpl in Hr. rewrite Nat.sub_0_r in Hr.
    unfold pad_right. simpl. destruct l as [|c l]; [simpl in Hl; lia|].
    simpl in *. rewrite Nat.sub_0_r. exact Hr.
  - rewrite <- Ht, trim_idempotent, Ht. split; [exact Hlen|].
    unfold pad_right. exact Hr.
Qed.

Lemma digit_not_dot (c : ascii) : is_digit c = true -> c <> dot_char.
Proof. intros H ->. discriminate H. Qed.

Lemma digit_not_minus (c : ascii) : is_digit c = true -> c <> minus_char.
Proof. intros H ->. discriminate H. Qed.

Lemma split_dot_digits (l : chars) :
  forallb is_digit l = true -> split_dot l = [l].
Proof.
  induction l as [|c l IH]; [reflexivity|].
  cbn [forallb split_dot]. intros [Hc Hl]%andb_prop.
  rewrite (IH Hl). case_bool_decide as Hd; [|reflexivity].
  exfalso. exact (digit_not_dot c Hc Hd).
Qed.

Lemma split_dot_two (w f : chars) :
  forallb is_digit w = true -> forallb is_digit f = true ->
  split_dot (w ++ dot_char :: f) = [w; f].
Proof.
  intros Hw Hf. induction w as [|c w IH].
  - simpl. rewrite (split_dot_digits f Hf). reflexivity.
  - cbn [forallb] in Hw. apply andb_prop in Hw as [Hc Hw].
    cbn [app split_dot]. rewrite (IH Hw).
    case_bool_decide as Hd; [|reflexivity].
    exfalso. exact (digit_not_dot c Hc Hd).
Qed.

Lemma amount_chars_digits (l : chars) :
  l <> [] -> forallb is_digit l = true -> amount_chars l = true.
Proof.
  intros Hne Hl. destruct l as [|c l]; [congruence|].
  unfold amount_chars. rewrite forallb_forall in Hl. apply forallb_forall.
  intros x Hx. rewrite (Hl x Hx). reflexivity.
Qed.

Lemma amount_chars_two (w f : chars) :
  forallb is_digit w = true -> forallb is_digit f = true ->
  amount_chars (w ++ dot_char :: f) = true.
Proof.
  intros Hw Hf. unfold amount_chars.
  destruct (w ++ dot_char :: f) eqn:E; [destruct w; discriminate|].
  rewrite <- E. rewrite forallb_app. cbn [forallb].
  rewrite forallb_forall in Hw, Hf.
  rewrite andb_true_iff; split; [|rewrite andb_true_iff; split].
  - apply forallb_forall. intros x Hx. rewrite (Hw x Hx). reflexivity.
  - rewrite bool_decide_eq_true_2 by reflexivity. apply orb_true_r.
  - apply forallb_forall. intros x Hx. rewrite (Hf x Hx). reflexivity.
Qed.

End UnitsFacts.

(** ** Formatting then converting *)

Module UnitsRoundTrip.
Import Decimal Units DecimalFacts UnitsFacts.

Lemma strip_fraction_digits (l : chars) :
  forallb is_digit l = true -> forallb is_digit (strip_fraction l) = true.
Proof.
  intros Hl. unfold strip_fraction. pose proof (trim_digits l Hl) as Ht.
  destruct (trim_trailing_zeros l); [reflexivity|exact Ht].
Qed.

Lemma strip_fraction_nonempty (l : chars) : strip_fraction l <> [].
Proof. unfold strip_fraction. destruct (trim_trailing_zeros l); discriminate. Qed.

Lemma pad_left_digits (k : nat) (l : chars) :
  forallb is_digit l = true -> forallb is_digit (pad_left k l) = true.
Proof.
  intros Hl. unfold pad_left. rewrite forallb_app, Hl, andb_true_r.
  induction (k - length l)%nat as [|m IH]; [reflexivity|]. simpl. exact IH.
Qed.

Lemma pad_left_length (k : nat) (l : chars) :
  (length l <= k)%nat -> length (pad_left k l) = k.
Proof. intros H. unfold pad_left. rewrite length_app, length_replicate. lia. Qed.

Lemma pad_left_val (k : nat) (l : chars) : dec_val (pad_left k l) = dec_val l.
Proof. apply dec_val_zeros. Qed.

Lemma nat_toString_head (n : Z) :
  exists c l, nat_toString n = c :: l /\ is_digit c = true.
Proof.
  pose proof (nat_toString_digits n) as Hd.
  pose proof (nat_toString_nonempty n) as Hne.
  destruct (nat_toString n) as [|c l]; [congruence|].
  exists c, l. split; [reflexivity|].
  cbn [forallb] in Hd. apply andb_prop in Hd. tauto.
Qed.

Lemma trim_single_zero : trim_trailing_zeros [zero_char] = [].
Proof. reflexivity. Qed.

Lemma parseMagnitude_whole (w : chars) :
  w <> [] -> forallb is_digit w = true ->
  parseMagnitude w 0 = Some (dec_val w).
Proof.
  intros Hne Hw. unfold parseMagnitude.
  rewrite (split_dot_digits w Hw).
  destruct w as [|c l]; [congruence|].
  assert (is_digit c = true) as Hc
    by (cbn [forallb] in Hw; apply andb_prop in Hw; tauto).
  rewrite bool_decide_eq_false_2 by (intros [= -> _]; discriminate Hc).
  cbn [length Nat.ltb Nat.leb lookup list_lookup default].
  rewrite trim_single_zero. cbn [length Nat.ltb Nat.leb].
  change (pad_right 0 [zero_char]) with [zero_char].
  change (dec_val [zero_char]) with 0.
  change (10 ^ Z.of_nat 0) with 1. unfold Datatypes.id. f_equal. lia.
Qed.

Lemma parseMagnitude_two (w F0 : chars) (d : nat) :
  w <> [] -> forallb is_digit w = true ->
  forallb is_digit F0 = true -> length F0 = S d ->
  parseMagnitude (w ++ dot_char :: strip_fraction F0) (S d)
  = Some (dec_val w * 10 ^ Z.of_nat (S d) + dec_val F0).
Proof.
  intros Hne Hw HF0 LF0. unfold parseMagnitude.
  pose proof (strip_fraction_digits F0 HF0) as HF1.
  pose proof (strip_fraction_nonempty F0) as NF1.
  rewrite (split_dot_two w _ Hw HF1).
  destruct (pad_strip F0 ltac:(lia)) as [Hlen Hpad].
  rewrite LF0 in Hlen, Hpad.
  destruct w as [|c l]; [congruence|].
  assert (is_digit c = true) as Hc
    by (cbn [forallb] in Hw; apply andb_prop in Hw; tauto).
  rewrite bool_decide_eq_false_2 by (intros [= -> _]; discriminate Hc).
  destruct (strip_fraction F0) as [|a t] eqn:E1; [congruence|].
  cbn -[trim_trailing_zeros pad_right dec_val Z.pow Z.of_nat Nat.ltb].
  destruct (Nat.ltb_spec (S d) (length (trim_trailing_zeros (a :: t))));
    [lia|].
  unfold Datatypes.id. change (2 <? 2)%nat with false. cbv iota.
  do 3 f_equal. exact Hpad.
Qed.

Lemma parseMagnitude_formatMagnitude (n : Z) (d : nat) :
  0 <= n -> parseMagnitude (formatMagnitude n d) d = Some n.
Proof.
  intros Hn. unfold formatMagnitude.
  assert (0 < 10 ^ Z.of_nat d) as Hpow by (apply Z.pow_pos_nonneg; lia).
  assert (0 <= n / 10 ^ Z.of_nat d) as Hq by (apply Z.div_pos; lia).
  pose proof (Z.mod_pos_bound n _ Hpow) as Hr.
  rewrite !toString_nonneg by lia.
  destruct d as [|d]; cbn [Nat.eqb].
  - rewrite parseMagnitude_whole
      by auto using nat_toString_nonempty, nat_toString_digits.
    rewrite nat_toString_val by lia.
    change (10 ^ Z.of_nat 0) with 1. rewrite Z.div_1_r. reflexivity.
  - rewrite parseMagnitude_two.
    + rewrite pad_left_val, !nat_toString_val by lia. f_equal.
      pose proof (Z.div_mod n (10 ^ Z.of_nat (S d))). lia.
    + apply nat_toString_nonempty.
    + apply nat_toString_digits.
    + apply pad_left_digits, nat_toString_digits.
    + apply pad_left_length, nat_toString_length; lia.
Qed.

Lemma formatMagnitude_chars (n : Z) (d : nat) :
  0 <= n ->
  amount_chars (formatMagnitude n d) = true /\
  exists c l, formatMagnitude n d = c :: l /\ is_digit c = true.
Proof.
  intros Hn. unfold formatMagnitude.
  assert (0 < 10 ^ Z.of_nat d) as Hpow by (apply Z.pow_pos_nonneg; lia).
  assert (0 <= n / 10 ^ Z.of_nat d) as Hq by (apply Z.div_pos; lia).
  pose proof (Z.mod_pos_bound n _ Hpow) as Hr.
  rewrite !toString_nonneg by lia.
  pose proof (nat_toString_digits (n / 10 ^ Z.of_nat d)) as Hw.
  destruct (nat_toString_head (n / 10 ^ Z.of_nat d)) as (c & l & Ew & Hc).
  destruct (d =? 0)%nat.
  - split; [|exists c, l; auto].
    apply amount_chars_digits; [apply nat_toString_nonempty|exact Hw].
  - split.
    + apply amount_chars_two; [exact Hw|].
      apply strip_fraction_digits, pad_left_digits, nat_toString_digits.
    + rewrite Ew. eexists _, _. split; [reflexivity|exact Hc].
Qed.

Lemma parseFixed_formatFixed (n : Z) (d : nat) :
  (d <= 256)%nat -> parseFixed (formatFixed n d) d = Some n.
Proof.
  intros Hd. unfold parseFixed, formatFixed.
  destruct (Nat.ltb_spec 256 d); [lia|].
  destruct (Z.ltb_spec n 0) as [Hneg|Hpos].
  - destruct (formatMagnitude_chars (- n) d ltac:(lia)) as [Ha _].
    cbn [matches_amount tail]. rewrite bool_decide_eq_true_2 by reflexivity.
    rewrite Ha. cbn [negb].
    rewrite parseMagnitude_formatMagnitude by lia. f_equal. lia.
  - destruct (formatMagnitude_chars n d Hpos) as [Ha (c & l & E & Hc)].
    unfold matches_amount. rewrite E.
    rewrite bool_decide_eq_false_2 by (apply digit_not_minus, Hc).
    rewrite <- E, Ha. cbn [negb].
    rewrite parseMagnitude_formatMagnitude by lia. reflexivity.
Qed.

End UnitsRoundTrip.

(** ** Numerals as numbers; converting then formatting *)

Module NumeralFacts.
Import Decimal Units DecimalFacts UnitsFacts UnitsRoundTrip Numeral.

Lemma dec_val_app (l r : chars) :
  dec_val (l ++ r) = dec_val l * 10 ^ Z.of_nat (length r) + dec_val r.
Proof.
  induction r as [|c r IH] using rev_ind.
  - rewrite app_nil_r. change (dec_val []) with 0. cbn [length].
    change (Z.of_nat 0) with 0. rewrite Z.pow_0_r. lia.
  - rewrite app_assoc, !dec_val_snoc, IH, length_app. cbn [length].
    rewrite Nat.add_1_r, Nat2Z.inj_succ, Z.pow_succ_r by lia. ring.
Qed.

Lemma dec_val_app_zeros (l : chars) (k : nat) :
  dec_val (l ++ replicate k zero_char) = dec_val l * 10 ^ Z.of_nat k.
Proof.
  rewrite dec_val_app, length_replicate.
  rewrite <- (app_nil_r (replicate k zero_char)), dec_val_zeros.
  change (dec_val []) with 0. lia.
Qed.

Lemma dec_val_trim (f : chars) :
  dec_val f
  = dec_val (trim_trailing_zeros f)
    * 10 ^ Z.of_nat (length f - length (trim_trailing_zeros f)).
Proof. rewrite <- (trim_restore f) at 1. apply dec_val_app_zeros. Qed.

Lemma split_dot_nonempty (l : chars) : split_dot l <> [].
Proof.
  induction l as [|c l IH]; [discriminate|]. cbn [split_dot].
  case_bool_decide; [discriminate|].
  destruct (split_dot l); [congruence|discriminate].
Qed.

(** The base units [parseMagnitude] gives are the number the numeral
    denotes, scaled by [10^decimals]. *)
Lemma parseMagnitude_value (t : chars) (d : nat) (n : Z) :
  parseMagnitude t d = Some n -> same_number (unsigned_value t) (n, d).
Proof.
  unfold parseMagnitude, unsigned_value, same_number.
  case_bool_decide as Hdot; [discriminate|].
  pose proof (split_dot_nonempty t) as Hne.
  destruct (split_dot t) as [|w [|f [|x rest]]]; [congruence| | |discriminate].
  - cbn [length Nat.ltb Nat.leb lookup list_lookup default].
    rewrite trim_single_zero. cbn [length].
    destruct (d <? 0)%nat eqn:E; [discriminate|].
    intros [= <-]. cbn [fst snd].
    unfold pad_right. rewrite dec_val_app_zeros.
    change (dec_val [zero_char]) with 0. change (Z.of_nat 0) with 0.
    rewrite Z.pow_0_r.
    destruct w; [change (dec_val [zero_char]) with 0;
                 change (dec_val []) with 0|]; lia.
  - change (2 <? length [w; f])%nat with false.
    cbn [lookup list_lookup default]. cbv iota.
    set (f0 := match f with [] => [zero_char] | _ => f end).
    assert (dec_val f0 * 10 ^ Z.of_nat (length f)
            = dec_val f * 10 ^ Z.of_nat (length f0)
            /\ trim_trailing_zeros f0 = trim_trailing_zeros f) as [Hf0 Htrim].
    { destruct f; [|split; reflexivity]. split; reflexivity. }
    unfold Datatypes.id.
    destruct (Nat.ltb_spec d (length (trim_trailing_zeros f0))) as [E|E];
      [discriminate|].
    intros [= <-]. cbn [fst snd].
    set (tf := trim_trailing_zeros f0) in *.
    match goal with
    | |- context [dec_val (pad_right d ?x)] =>
        assert (dec_val (pad_right d x)
                = dec_val tf * 10 ^ Z.of_nat (d - length tf)) as Hpad
          by (clear; subst tf; destruct (trim_trailing_zeros f0);
              unfold pad_right; rewrite dec_val_app_zeros; reflexivity)
    end.
    rewrite Hpad, dec_val_app.
    assert (forall x y : Z, x = y -> forall a b c : Z,
               (y * a + b) * c = (x * a + b) * c) as Hsubst
      by (intros x y -> a b c; reflexivity).
    match goal with
    | |- _ = (dec_val ?w1 * _ + _) * _ =>
        rewrite (Hsubst (dec_val w) (dec_val w1)) by (destruct w; reflexivity)
    end.
    pose proof (dec_val_trim f) as Hf. rewrite <- Htrim in Hf. fold tf in Hf.
    pose proof (trim_length f) as Hlen. rewrite <- Htrim in Hlen.
    fold tf in Hlen.
    rewrite Hf.
    replace (Z.of_nat d)
      with (Z.of_nat (d - length tf) + Z.of_nat (length tf)) at 1 by lia.
    replace (Z.of_nat (length f))
      with (Z.of_nat (length f - length tf) + Z.of_nat (length tf)) by lia.
    replace (Z.of_nat d)
      with (Z.of_nat (d - length tf) + Z.of_nat (length tf)) by lia.
    rewrite !Z.pow_add_r by lia. ring.
Qed.

Lemma parseFixed_value (t : chars) (d : nat) (n : Z) :
  parseFixed t d = Some n -> same_number (value t) (n, d).
Proof.
  unfold parseFixed, value.
  destruct (256 <? d)%nat; [discriminate|].
  destruct t as [|c t']; [discriminate|].
  destruct (matches_amount (c :: t')); [|discriminate]. cbn [negb].
  case_bool_decide as Hc.
  - cbn [tail].
    destruct (parseMagnitude t' d) as [m|] eqn:E; [|discriminate].
    intros [= <-]. apply parseMagnitude_value in E.
    unfold same_number in *. cbn [fst snd] in *. lia.
  - destruct (parseMagnitude (c :: t') d) as [m|] eqn:E; [|discriminate].
    intros [= <-]. apply parseMagnitude_value in E. exact E.
Qed.

Lemma same_number_trans (x y z : Z * nat) :
  same_number x y -> same_number y z -> same_number x z.
Proof.
  unfold same_number. intros H1 H2.
  assert (0 < 10 ^ Z.of_nat (snd y)) by (apply Z.pow_pos_nonneg; lia).
  apply (Z.mul_reg_r _ _ (10 ^ Z.of_nat (snd y))); [lia|].
  transitivity (fst x * 10 ^ Z.of_nat (snd y) * 10 ^ Z.of_nat (snd z)); [ring|].
  rewrite H1.
  transitivity (fst y * 10 ^ Z.of_nat (snd z) * 10 ^ Z.of_nat (snd x)); [ring|].
  rewrite H2. ring.
Qed.

Lemma same_number_sym (x y : Z * nat) : same_number x y -> same_number y x.
Proof. unfold same_number. intros H. symmetry. exact H. Qed.

End NumeralFacts.

Module CanonicalFacts.
Import Decimal Units DecimalFacts UnitsFacts UnitsRoundTrip Numeral
  NumeralFacts.

Lemma digit_val_range (c : ascii) :
  is_digit c = true -> 0 <= digit_val c < 10.
Proof.
  unfold is_digit, digit_val. intros H. apply andb_prop in H as [H1 H2].
  apply Nat.leb_le in H1, H2. lia.
Qed.

Lemma digit_char_val (c : ascii) :
  is_digit c = true -> digit_char (digit_val c) = c.
Proof.
  intros H. pose proof (digit_val_range c H) as Hr.
  unfold digit_char, digit_val in *.
  replace (Z.to_nat (48 + (Z.of_nat (nat_of_ascii c) - 48)))
    with (nat_of_ascii c) by lia.
  apply ascii_nat_embedding.
Qed.

Lemma dec_val_bounds (l : chars) :
  forallb is_digit l = true -> 0 <= dec_val l < 10 ^ Z.of_nat (length l).
Proof.
  induction l as [|c l IH] using rev_ind; intros H.
  - change (dec_val []) with 0. simpl. lia.
  - rewrite forallb_app in H. apply andb_prop in H as [Hl Hc].
    cbn [forallb] in Hc. rewrite andb_true_r in Hc.
    pose proof (digit_val_range c Hc). specialize (IH Hl).
    rewrite dec_val_snoc, length_app. cbn [length].
    rewrite Nat.add_1_r, Nat2Z.inj_succ, Z.pow_succ_r by lia. lia.
Qed.

Lemma digits_of_dec_val (l : chars) :
  forallb is_digit l = true -> digits_of (length l) (dec_val l) = l.
Proof.
  induction l as [|c l IH] using rev_ind; intros H; [reflexivity|].
  rewrite forallb_app in H. apply andb_prop in H as [Hl Hc].
  cbn [forallb] in Hc. rewrite andb_true_r in Hc.
  pose proof (digit_val_range c Hc) as Hr.
  rewrite length_app. cbn [length]. rewrite Nat.add_1_r. cbn [digits_of].
  rewrite dec_val_snoc.
  replace ((10 * dec_val l + digit_val c) / 10) with (dec_val l)
    by (apply (Z.div_unique _ 10 _ (digit_val c)); lia).
  replace ((10 * dec_val l + digit_val c) mod 10) with (digit_val c)
    by (apply (Z.mod_unique _ 10 (dec_val l)); lia).
  rewrite (IH Hl), (digit_char_val c Hc). reflexivity.
Qed.

Lemma digits_of_zero (k : nat) : digits_of k 0 = replicate k zero_char.
Proof.
  induction k as [|k IH]; [reflexivity|]. cbn [digits_of].
  change (0 / 10) with 0. rewrite IH.
  change (digit_char (0 mod 10)) with zero_char.
  clear IH. induction k as [|k IH]; [reflexivity|].
  cbn [replicate app]. rewrite IH. reflexivity.
Qed.

Lemma digits_of_pad (k d : nat) (n : Z) :
  (k <= d)%nat -> 0 <= n < 10 ^ Z.of_nat k ->
  digits_of d n = replicate (d - k) zero_char ++ digits_of k n.
Proof.
  revert d n. induction k as [|k IH]; intros d n Hk Hn.
  - simpl in Hn. replace n with 0 by lia.
    rewrite digits_of_zero, Nat.sub_0_r, app_nil_r. reflexivity.
  - destruct d as [|d]; [lia|]. cbn [digits_of].
    rewrite Nat2Z.inj_succ, Z.pow_succ_r in Hn by lia.
    rewrite (IH d (n / 10)).
    + rewrite Nat.sub_succ, <- app_assoc. reflexivity.
    + lia.
    + split; [apply Z.div_pos; lia|apply Z.div_lt_upper_bound; lia].
Qed.

Lemma num_digits_fuel (n : Z) :
  0 <= n -> n < 2 ^ Z.of_nat (S (Z.to_nat (Z.log2 n))).
Proof.
  intros Hn. rewrite Nat2Z.inj_succ, Z2Nat.id by apply Z.log2_nonneg.
  destruct (Z.eq_dec n 0) as [->|Hz]; [reflexivity|].
  apply Z.log2_spec. lia.
Qed.

Lemma pad_left_toString (F : chars) :
  (1 <= length F)%nat -> forallb is_digit F = true ->
  pad_left (length F) (nat_toString (dec_val F)) = F.
Proof.
  intros Hlen HF. pose proof (dec_val_bounds F HF) as Hb.
  unfold pad_left, nat_toString. rewrite digits_of_length.
  set (k := num_digits _ _).
  assert (k <= length F)%nat as Hk by (apply num_digits_least; assumption).
  assert (dec_val F < 10 ^ Z.of_nat k) as Hlt.
  { apply num_digits_enough. split; [lia|]. apply num_digits_fuel. lia. }
  rewrite <- (digits_of_pad k (length F)) by lia.
  apply digits_of_dec_val, HF.
Qed.

Lemma dec_val_cons (c : ascii) (l : chars) :
  dec_val (c :: l) = digit_val c * 10 ^ Z.of_nat (length l) + dec_val l.
Proof.
  change (c :: l) with ([c] ++ l). rewrite dec_val_app.
  change (dec_val [c]) with (10 * 0 + digit_val c). lia.
Qed.

Lemma digit_val_zero (c : ascii) :
  is_digit c = true -> digit_val c = 0 -> c = zero_char.
Proof.
  intros Hc Hz. rewrite <- (digit_char_val c Hc), Hz. reflexivity.
Qed.

Lemma canonical_whole_toString (w : chars) :
  canonical_whole w = true -> nat_toString (dec_val w) = w.
Proof.
  unfold canonical_whole. intros H. apply andb_prop in H as [Hd Hlead].
  pose proof (dec_val_bounds w Hd) as Hb.
  unfold nat_toString. set (k := num_digits _ _).
  assert (k = length w) as ->; [|apply digits_of_dec_val, Hd].
  assert (1 <= k)%nat as Hk1 by apply num_digits_pos.
  assert (dec_val w < 10 ^ Z.of_nat k) as Hlt.
  { apply num_digits_enough. split; [lia|]. apply num_digits_fuel. lia. }
  destruct w as [|c [|c2 w']]; [discriminate| |].
  - assert (k <= 1)%nat by (apply num_digits_least; [lia|exact Hb]).
    cbn [length]. lia.
  - assert (k <= length (c :: c2 :: w'))%nat as Hle
      by (apply num_digits_least; [cbn [length]; lia|exact Hb]).
    apply Nat.le_antisymm; [exact Hle|].
    cbn [forallb] in Hd. apply andb_prop in Hd as [Hc Hd].
    pose proof (digit_val_range c Hc) as Hr.
    assert (digit_val c <> 0) as Hnz.
    { intros Hz. apply (digit_val_zero c Hc) in Hz. subst c.
      discriminate Hlead. }
    pose proof (dec_val_bounds (c2 :: w') Hd) as Hb2.
    rewrite dec_val_cons in Hlt.
    set (m := length (c2 :: w')) in *.
    assert (10 ^ Z.of_nat m < 10 ^ Z.of_nat k) as Hpow by nia.
    apply Z.pow_lt_mono_r_iff in Hpow; [|lia|lia].
    change (length (c :: c2 :: w')) with (S m). lia.
Qed.

Lemma canonical_whole_zero (w : chars) :
  canonical_whole w = true -> dec_val w = 0 -> w = [zero_char].
Proof.
  unfold canonical_whole. intros H Hz. apply andb_prop in H as [Hd Hlead].
  destruct w as [|c [|c2 w']]; [discriminate| |].
  - cbn [forallb] in Hd. apply andb_prop in Hd as [Hc _].
    change (dec_val [c]) with (10 * 0 + digit_val c) in Hz.
    f_equal. apply digit_val_zero; [exact Hc|lia].
  - exfalso. cbn [forallb] in Hd. apply andb_prop in Hd as [Hc Hd].
    pose proof (digit_val_range c Hc) as Hr.
    pose proof (dec_val_bounds (c2 :: w') Hd) as Hb2.
    rewrite dec_val_cons in Hz.
    assert (0 < 10 ^ Z.of_nat (length (c2 :: w')))
      by (apply Z.pow_pos_nonneg; lia).
    assert (digit_val c = 0) as Hc0 by nia.
    apply (digit_val_zero c Hc) in Hc0. subst c. discriminate Hlead.
Qed.

Lemma trim_zeros (k : nat) : trim_trailing_zeros (replicate k zero_char) = [].
Proof.
  induction k as [|k IH]; [reflexivity|].
  cbn [replicate trim_trailing_zeros]. rewrite IH. reflexivity.
Qed.

Lemma trim_app_zeros (l : chars) (k : nat) :
  trim_trailing_zeros (l ++ replicate k zero_char) = trim_trailing_zeros l.
Proof.
  induction l as [|c l IH]; [apply trim_zeros|].
  cbn [app trim_trailing_zeros]. rewrite IH. reflexivity.
Qed.

Lemma strip_fraction_pad (f : chars) (d : nat) :
  canonical_fraction f = true ->
  strip_fraction (pad_right d f) = f.
Proof.
  unfold canonical_fraction, strip_fraction, pad_right. intros H.
  apply andb_prop in H as [_ H]. rewrite trim_app_zeros.
  apply orb_prop in H as [H|H].
  - apply bool_decide_eq_true_1 in H. subst f. reflexivity.
  - apply andb_prop in H as [Hne Ht].
    apply bool_decide_eq_true_1 in Ht. rewrite Ht.
    destruct f; [discriminate Hne|reflexivity].
Qed.

Lemma canonical_fraction_zero (f : chars) :
  canonical_fraction f = true -> dec_val f = 0 -> f = [zero_char].
Proof.
  unfold canonical_fraction. intros H Hz. apply andb_prop in H as [Hd H].
  apply orb_prop in H as [H|H]; [apply bool_decide_eq_true_1 in H; exact H|].
  exfalso. apply andb_prop in H as [Hne Ht].
  apply bool_decide_eq_true_1 in Ht.
  destruct f as [|c l _] using rev_ind; [discriminate Hne|].
  rewrite forallb_app in Hd. apply andb_prop in Hd as [Hl Hc].
  cbn [forallb] in Hc. rewrite andb_true_r in Hc.
  pose proof (digit_val_range c Hc) as Hr.
  pose proof (dec_val_bounds l Hl) as Hb.
  rewrite dec_val_snoc in Hz.
  assert (digit_val c = 0) as Hc0 by lia.
  apply (digit_val_zero c Hc) in Hc0. subst c.
  change [zero_char] with (replicate 1 zero_char) in Ht.
  rewrite trim_app_zeros in Ht.
  pose proof (trim_length l) as Hlen. rewrite Ht, length_app in Hlen.
  cbn [length replicate] in Hlen. lia.
Qed.

Lemma canonical_fraction_digits (f : chars) :
  canonical_fraction f = true ->
  forallb is_digit f = true /\ f <> []
  /\ (length (trim_trailing_zeros f) <= length f)%nat
  /\ (f <> [zero_char] -> trim_trailing_zeros f = f).
Proof.
  unfold canonical_fraction. intros H. apply andb_prop in H as [Hd H].
  split; [exact Hd|]. apply orb_prop in H as [H|H].
  - apply bool_decide_eq_true_1 in H. subst f.
    split; [discriminate|]. split; [simpl; lia|congruence].
  - apply andb_prop in H as [Hne Ht]. apply bool_decide_eq_true_1 in Ht.
    split; [intros ->; discriminate Hne|].
    split; [rewrite Ht; lia|auto].
Qed.

Lemma split_dot_one (t f : chars) : split_dot t = [f] -> t = f.
Proof.
  revert f. induction t as [|c t IH]; intros f H.
  - injection H as <-. reflexivity.
  - cbn [split_dot] in H. pose proof (split_dot_nonempty t) as Hne.
    case_bool_decide as Hc.
    + injection H as _ H. congruence.
    + destruct (split_dot t) as [|h r]; [congruence|].
      injection H as <- ->. f_equal. apply IH. reflexivity.
Qed.

Lemma split_dot_join (t w f : chars) :
  split_dot t = [w; f] -> t = w ++ dot_char :: f.
Proof.
  revert w. induction t as [|c t IH]; intros w H; [discriminate|].
  cbn [split_dot] in H. pose proof (split_dot_nonempty t) as Hne.
  case_bool_decide as Hc.
  - subst c. injection H as <- H. apply split_dot_one in H. subst t.
    reflexivity.
  - destruct (split_dot t) as [|h r]; [congruence|].
    injection H as <- ->. cbn [app]. f_equal. apply IH. reflexivity.
Qed.

End CanonicalFacts.

Module CanonicalRoundTrip.
Import Decimal Units DecimalFacts UnitsFacts UnitsRoundTrip Numeral
  NumeralFacts CanonicalFacts.

Lemma canonical_whole_digits (w : chars) :
  canonical_whole w = true -> forallb is_digit w = true /\ w <> [].
Proof.
  unfold canonical_whole. intros H. apply andb_prop in H as [Hd H].
  split; [exact Hd|]. intros ->. discriminate H.
Qed.

Lemma pad_right_digits (k : nat) (l : chars) :
  forallb is_digit l = true -> forallb is_digit (pad_right k l) = true.
Proof.
  intros Hl. unfold pad_right. rewrite forallb_app, Hl.
  induction (k - length l)%nat as [|m IH]; [reflexivity|]. exact IH.
Qed.

Lemma pad_right_length (k : nat) (l : chars) :
  (length l <= k)%nat -> length (pad_right k l) = k.
Proof. intros H. unfold pad_right. rewrite length_app, length_replicate. lia. Qed.

(** A fraction that [parseMagnitude] accepts has, without its trailing
    zeros, at most [d] digits. *)
Lemma parseMagnitude_fits (w f : chars) (d : nat) (n : Z) :
  forallb is_digit w = true -> forallb is_digit f = true -> f <> [] ->
  parseMagnitude (w ++ dot_char :: f) d = Some n ->
  (length (trim_trailing_zeros f) <= d)%nat.
Proof.
  intros Hw Hf Hne. unfold parseMagnitude.
  rewrite (split_dot_two w f Hw Hf).
  case_bool_decide; [discriminate|].
  change (2 <? length [w; f])%nat with false.
  cbn [lookup list_lookup default]. cbv iota. unfold Datatypes.id.
  destruct f as [|a f']; [congruence|].
  destruct (Nat.ltb_spec d (length (trim_trailing_zeros (a :: f'))));
    [discriminate|]. intros _. assumption.
Qed.

Lemma canonical_magnitude (w f : chars) (d : nat) :
  canonical_whole w = true -> canonical_fraction f = true ->
  (length f <= S d)%nat ->
  let N := dec_val w * 10 ^ Z.of_nat (S d) + dec_val (pad_right (S d) f) in
  parseMagnitude (w ++ dot_char :: f) (S d) = Some N
  /\ formatMagnitude N (S d) = w ++ dot_char :: f
  /\ 0 <= N
  /\ (N = 0 -> w = [zero_char] /\ f = [zero_char]).
Proof.
  intros Hw Hf Hlen N.
  destruct (canonical_whole_digits w Hw) as [Hwd Hwne].
  destruct (canonical_fraction_digits f Hf) as (Hfd & Hfne & _ & _).
  set (F0 := pad_right (S d) f) in *.
  assert (forallb is_digit F0 = true) as HF0 by apply pad_right_digits, Hfd.
  assert (length F0 = S d) as LF0 by apply pad_right_length, Hlen.
  assert (strip_fraction F0 = f) as Hstrip by apply strip_fraction_pad, Hf.
  pose proof (dec_val_bounds F0 HF0) as HbF. rewrite LF0 in HbF.
  pose proof (dec_val_bounds w Hwd) as Hbw.
  assert (0 < 10 ^ Z.of_nat (S d)) as Hpow by (apply Z.pow_pos_nonneg; lia).
  split; [|split; [|split]].
  - rewrite <- Hstrip. apply parseMagnitude_two; assumption.
  - unfold formatMagnitude. cbn [Nat.eqb].
    replace (N mod 10 ^ Z.of_nat (S d)) with (dec_val F0)
      by (apply (Z.mod_unique _ _ (dec_val w)); unfold N; lia).
    replace (N / 10 ^ Z.of_nat (S d)) with (dec_val w)
      by (apply (Z.div_unique _ _ _ (dec_val F0)); unfold N; lia).
    rewrite !toString_nonneg by lia.
    rewrite <- LF0 at 1. rewrite pad_left_toString by (assumption || lia).
    rewrite Hstrip, (canonical_whole_toString w Hw). reflexivity.
  - unfold N. nia.
  - intros HN. assert (dec_val w = 0 /\ dec_val F0 = 0) as [Hw0 HF00]
      by (unfold N in HN; nia).
    split; [apply canonical_whole_zero; assumption|].
    apply canonical_fraction_zero; [exact Hf|].
    unfold F0, pad_right in HF00. rewrite dec_val_app_zeros in HF00.
    assert (0 < 10 ^ Z.of_nat (S d - length f))
      by (apply Z.pow_pos_nonneg; lia).
    pose proof (dec_val_bounds f Hfd). nia.
Qed.

Lemma canonical_fraction_fits (w f : chars) (d : nat) (n : Z) :
  canonical_whole w = true -> canonical_fraction f = true ->
  parseMagnitude (w ++ dot_char :: f) (S d) = Some n ->
  (length f <= S d)%nat.
Proof.
  intros Hw Hf Hp.
  destruct (canonical_whole_digits w Hw) as [Hwd _].
  destruct (canonical_fraction_digits f Hf) as (Hfd & Hfne & _ & Htrim).
  pose proof (parseMagnitude_fits w f (S d) n Hwd Hfd Hfne Hp) as Hfit.
  destruct (decide (f = [zero_char])) as [->|Hz]; [simpl; lia|].
  rewrite (Htrim Hz) in Hfit. exact Hfit.
Qed.

(** A canonical numeral that converts is given back as it is. *)
Lemma canonical_formatFixed (t : chars) (d : nat) (n : Z) :
  (1 <= d)%nat -> canonical t = true -> parseFixed t d = Some n ->
  formatFixed n d = t.
Proof.
  intros Hd Hcan Hparse. destruct d as [|d]; [lia|].
  unfold parseFixed in Hparse.
  destruct (256 <? S d)%nat; [discriminate|].
  destruct t as [|c t']; [discriminate|].
  destruct (matches_amount (c :: t')); [|discriminate].
  cbn [negb] in Hparse. unfold canonical in Hcan.
  case_bool_decide as Hc.
  - subst c. cbn [tail] in Hparse.
    destruct (split_dot t') as [|w [|f [|x r]]] eqn:Es; try discriminate.
    apply andb_prop in Hcan as [Hcan Hnz]. apply andb_prop in Hcan as [Hw Hf].
    apply split_dot_join in Es. subst t'.
    destruct (parseMagnitude (w ++ dot_char :: f) (S d)) as [m|] eqn:Em;
      [|discriminate].
    injection Hparse as <-.
    pose proof (canonical_fraction_fits w f d m Hw Hf Em) as Hfit.
    destruct (canonical_magnitude w f d Hw Hf Hfit) as (Hp & Hfmt & Hpos & Hzero).
    rewrite Hp in Em. injection Em as <-.
    set (N := dec_val w * 10 ^ Z.of_nat (S d) + dec_val (pad_right (S d) f)) in *.
    assert (N <> 0) as HN.
    { intros H0. destruct (Hzero H0) as [-> ->]. discriminate Hnz. }
    unfold formatFixed. destruct (Z.ltb_spec (- N) 0); [|lia].
    rewrite Z.opp_involutive, Hfmt. reflexivity.
  - destruct (split_dot (c :: t')) as [|w [|f [|x r]]] eqn:Es; try discriminate.
    apply andb_prop in Hcan as [Hw Hf].
    apply split_dot_join in Es. rewrite Es in *.
    destruct (parseMagnitude (w ++ dot_char :: f) (S d)) as [m|] eqn:Em;
      [|discriminate].
    injection Hparse as <-.
    pose proof (canonical_fraction_fits w f d m Hw Hf Em) as Hfit.
    destruct (canonical_magnitude w f d Hw Hf Hfit) as (Hp & Hfmt & Hpos & _).
    rewrite Hp in Em. injection Em as <-.
    unfold formatFixed.
    match goal with |- context [?N <? 0] => destruct (Z.ltb_spec N 0) end;
      [lia|]. exact Hfmt.
Qed.

End CanonicalRoundTrip.

Module CanonicalFormat.
Import Decimal Units DecimalFacts UnitsFacts UnitsRoundTrip Numeral
  NumeralFacts CanonicalFacts CanonicalRoundTrip.

Lemma nat_toString_canonical (k : Z) :
  0 <= k -> canonical_whole (nat_toString k) = true.
Proof.
  intros Hk. unfold canonical_whole.
  pose proof (nat_toString_digits k) as Hd. rewrite Hd. cbn [andb].
  pose proof (nat_toString_val k Hk) as Hv.
  pose proof (nat_toString_nonempty k) as Hne.
  destruct (nat_toString k) as [|c [|c' l]] eqn:E; [congruence|reflexivity|].
  unfold is_zero_char. case_bool_decide as Hc; [|reflexivity]. exfalso.
  subst c. rewrite dec_val_zero_cons in Hv.
  cbn [forallb] in Hd. apply andb_prop in Hd as [_ Hd].
  pose proof (dec_val_bounds (c' :: l) Hd) as Hb. rewrite Hv in Hb.
  pose proof (nat_toString_length k (length (c' :: l)) ltac:(simpl; lia) Hb) as Hl.
  rewrite E in Hl. simpl in Hl. lia.
Qed.

Lemma strip_fraction_canonical (l : chars) :
  forallb is_digit l = true -> canonical_fraction (strip_fraction l) = true.
Proof.
  intros Hl. unfold strip_fraction.
  pose proof (trim_digits l Hl) as Hd. pose proof (trim_idempotent l) as Hi.
  destruct (trim_trailing_zeros l) as [|a t] eqn:E; [reflexivity|].
  unfold canonical_fraction. rewrite Hd. cbn [andb].
  rewrite (bool_decide_eq_false_2 (a :: t = [])) by discriminate.
  rewrite (bool_decide_eq_true_2 _ Hi). cbn [negb andb]. apply orb_true_r.
Qed.

Lemma formatMagnitude_parts (n : Z) (d : nat) :
  0 <= n ->
  exists w f, formatMagnitude n (S d) = w ++ dot_char :: f
    /\ canonical_whole w = true /\ canonical_fraction f = true
    /\ (w = [zero_char] -> f = [zero_char] -> n = 0).
Proof.
  intros Hn.
  assert (0 < 10 ^ Z.of_nat (S d)) as Hpow by (apply Z.pow_pos_nonneg; lia).
  assert (0 <= n / 10 ^ Z.of_nat (S d)) as Hq by (apply Z.div_pos; lia).
  pose proof (Z.mod_pos_bound n _ Hpow) as Hr.
  pose proof (parseMagnitude_formatMagnitude n (S d) Hn) as Hparse.
  unfold formatMagnitude in *. cbn [Nat.eqb] in *.
  rewrite !toString_nonneg in * by lia.
  eexists _, _. split; [reflexivity|].
  assert (canonical_whole (nat_toString (n / 10 ^ Z.of_nat (S d))) = true) as Hw
    by apply nat_toString_canonical, Hq.
  assert (canonical_fraction
            (strip_fraction
               (pad_left (S d) (nat_toString (n mod 10 ^ Z.of_nat (S d)))))
          = true) as Hf
    by apply strip_fraction_canonical, pad_left_digits, nat_toString_digits.
  split; [exact Hw|]. split; [exact Hf|].
  intros Ew Ef. rewrite Ew, Ef in Hparse.
  destruct (canonical_magnitude [zero_char] [zero_char] d eq_refl eq_refl
              ltac:(simpl; lia)) as (Hp & _ & _ & _).
  rewrite Hp in Hparse. injection Hparse as <-.
  unfold pad_right. rewrite dec_val_app_zeros.
  change (dec_val [zero_char]) with 0. lia.
Qed.

(** What [formatFixed] writes is canonical. *)
Lemma formatFixed_canonical (n : Z) (d : nat) :
  (1 <= d)%nat -> canonical (formatFixed n d) = true.
Proof.
  intros Hd. destruct d as [|d]; [lia|]. unfold formatFixed.
  destruct (Z.ltb_spec n 0) as [Hneg|Hpos].
  - destruct (formatMagnitude_parts (- n) d ltac:(lia))
      as (w & f & -> & Hw & Hf & Hz).
    destruct (canonical_whole_digits w Hw) as [Hwd _].
    destruct (canonical_fraction_digits f Hf) as (Hfd & _).
    unfold canonical. rewrite bool_decide_eq_true_2 by reflexivity.
    rewrite (split_dot_two w f Hwd Hfd), Hw, Hf. cbn [andb].
    destruct (decide (w = [zero_char])) as [Ew|Ew];
      [|rewrite (bool_decide_eq_false_2 _ Ew); reflexivity].
    destruct (decide (f = [zero_char])) as [Ef|Ef];
      [|rewrite (bool_decide_eq_false_2 _ Ef); apply negb_true_iff, andb_false_r].
    specialize (Hz Ew Ef). lia.
  - destruct (formatMagnitude_parts n d Hpos) as (w & f & -> & Hw & Hf & _).
    destruct (canonical_whole_digits w Hw) as [Hwd Hne].
    destruct (canonical_fraction_digits f Hf) as (Hfd & _).
    unfold canonical. destruct w as [|c w'] eqn:Ew; [congruence|].
    cbn [app].
    assert (is_digit c = true) as Hc
      by (cbn [forallb] in Hwd; apply andb_prop in Hwd; tauto).
    rewrite bool_decide_eq_false_2 by (apply digit_not_minus, Hc).
    change (c :: w' ++ dot_char :: f) with ((c :: w') ++ dot_char :: f).
    rewrite (split_dot_two (c :: w') f Hwd Hfd), Hw, Hf. reflexivity.
Qed.

End CanonicalFormat.

(** ** The constant tables *)

Lemma decimalConverter_values (chain : Z) (tbl : gmap string nat)
    (token : string) (d : nat) :
  decimalConverter !! chain = Some tbl -> tbl !! token = Some d ->
  d = 6%nat \/ d = 18%nat.
Proof.
  unfold decimalConverter. intros Hc Ht.
  apply lookup_insert_Some in Hc as [[_ <-]|[_ Hc]];
    [|apply lookup_singleton_Some in Hc as [_ <-]];
    unfold sepoliaDecimals, mainnetDecimals in Ht;
    repeat (apply lookup_insert_Some in Ht as [[_ <-]|[_ Ht]]; [auto|]);
    apply lookup_singleton_Some in Ht as [_ <-]; auto.
Qed.

Lemma supportedChains_unregistered (chain : string) :
  chain ∉ ["sepolia"; "mainnet"; "base"]%string -> supportedChains !! chain = None.
Proof.
  intros H. unfold supportedChains.
  rewrite !lookup_insert_ne, lookup_singleton_ne; [reflexivity|..];
    intros <-; apply H; set_solver.
Qed.

(** ** Runs of the monad, and the pool probe *)

Section MonadFacts.
Context {W : Type}.

Lemma bind_inr_inv {A B : Type} (m : M W A) (k : A -> M W B) s b s' :
  bind m k s = (inr b, s') ->
  exists a s1, m s = (inr a, s1) /\ k a s1 = (inr b, s').
Proof.
  unfold bind. destruct (m s) as [[e|a] s1]; [discriminate|].
  intros H. exists a, s1. auto.
Qed.

Lemma bind_inr {A B : Type} (m : M W A) (k : A -> M W B) s a s1 :
  m s = (inr a, s1) -> bind m k s = k a s1.
Proof. unfold bind. intros ->. reflexivity. Qed.

Lemma bind_inl {A B : Type} (m : M W A) (k : A -> M W B) s e s1 :
  m s = (inl e, s1) -> bind m k s = (inl e, s1).
Proof. unfold bind. intros ->. reflexivity. Qed.

Lemma call_run {A : Type} (ev : Event) (f : W -> Result A * W) s r w' :
  f (world s) = (r, w') ->
  call ev f s = (r, {| world := w'; trace := trace s ++ [ev] |}).
Proof. unfold call. intros ->. reflexivity. Qed.

Lemma call_inv {A : Type} (ev : Event) (f : W -> Result A * W) s r s' :
  call ev f s = (r, s') ->
  f (world s) = (r, world s') /\ trace s' = trace s ++ [ev].
Proof.
  unfold call. destruct (f (world s)) as [r0 w']. intros [= <- <-]. auto.
Qed.

Lemma try_catch_inr {A : Type} (m : M W A) (h : JsError -> M W A) s a s1 :
  m s = (inr a, s1) -> try_catch m h s = (inr a, s1).
Proof. unfold try_catch. intros ->. reflexivity. Qed.

Lemma try_catch_inl {A : Type} (m : M W A) (h : JsError -> M W A) s e s1 :
  m s = (inl e, s1) -> try_catch m h s = h e s1.
Proof. unfold try_catch. intros ->. reflexivity. Qed.

End MonadFacts.

(** What the probe returns, from the answer of the registry. *)
Lemma checkLiquidityPoolExists_run {W : Type} (env : Env W)
    (factoryAddress tokenA tokenB : Address) (s : State W) :
  checkLiquidityPoolExists env factoryAddress tokenA tokenB s
  = (inr match fst (getPair env factoryAddress tokenA tokenB (world s)) with
         | inr addr => negb (bool_decide (addr = AddressZero))
         | inl _ => false
         end,
     {| world := snd (getPair env factoryAddress tokenA tokenB (world s));
        trace := trace s ++ [EvGetPair factoryAddress tokenA tokenB] |}).
Proof.
  unfold checkLiquidityPoolExists, try_catch, bind, call, ret.
  destruct (getPair env factoryAddress tokenA tokenB (world s))
    as [[e|pair] w']; reflexivity.
Qed.

(** Claim C7.  The pool-existence probe never propagates an error: in
    every state of every environment [checkLiquidityPoolExists] returns a
    boolean after exactly one [getPair] call, and the boolean is [true]
    exactly when the registry answered with a pair address other than the
    zero address; a registry error gives [false]. *)
Theorem checkLiquidityPoolExists_never_throws {W : Type} (env : Env W)
    (factoryAddress tokenA tokenB : Address) (s : State W) :
  exists found : bool,
    checkLiquidityPoolExists env factoryAddress tokenA tokenB s
    = (inr found,
       {| world := snd (getPair env factoryAddress tokenA tokenB (world s));
          trace := trace s ++ [EvGetPair factoryAddress tokenA tokenB] |})
    /\ (found = true <->
        exists pair,
          fst (getPair env factoryAddress tokenA tokenB (world s)) = inr pair
          /\ pair <> AddressZero).
Proof.
  rewrite checkLiquidityPoolExists_run.
  destruct (getPair env factoryAddress tokenA tokenB (world s))
    as [[e|pair] w'] eqn:E; cbn [fst snd].
  - exists false. split; [reflexivity|].
    split; [discriminate|]. intros (p & Hp & _). discriminate.
  - eexists. split; [reflexivity|].
    rewrite negb_true_iff, bool_decide_eq_false. split.
    + intros Hne. exists pair. auto.
    + intros (p & [= <-] & Hne). exact Hne.
Qed.

(** ** Allowance and unsupported chains *)

Lemma lookupChain_unregistered (chain : string) :
  chain ∉ ["sepolia"; "mainnet"; "base"]%string ->
  chain ∉ objectPrototypeKeys ->
  lookupChain chain = None.
Proof.
  intros Hreg Hproto. unfold lookupChain, js_get.
  rewrite (supportedChains_unregistered chain Hreg).
  rewrite bool_decide_eq_false_2 by exact Hproto. reflexivity.
Qed.

(** Claim C5.  [checkAllowanceAndApproveIfNecessary] is idempotent: when
    the allowance it reads is at least the required amount it only reads
    (the owner's address and the allowance) and submits nothing; otherwise
    it submits exactly one approval, for [MaxUint256], and returns only
    once the wait for its receipt has returned (an error of the submission
    or of the wait is passed on). *)
Theorem checkAllowance_idempotent {W : Type} (env : Env W)
    (targetContract : option Address) (tokenContract : Address)
    (requiredAmount : Z) (s : State W)
    (owner : Address) (w1 : W) (existingAllowance : Z) (w2 : W) :
  getAddress env (world s) = (inr owner, w1) ->
  allowance env tokenContract owner targetContract w1
    = (inr existingAllowance, w2) ->
  let reads := [EvGetAddress; EvAllowance tokenContract owner targetContract] in
  let approval := EvApprove tokenContract targetContract MaxUint256 in
  (requiredAmount <= existingAllowance ->
   checkAllowanceAndApproveIfNecessary env targetContract tokenContract
     requiredAmount s
   = (inr tt, {| world := w2; trace := trace s ++ reads |}))
  /\
  (existingAllowance < requiredAmount ->
   checkAllowanceAndApproveIfNecessary env targetContract tokenContract
     requiredAmount s
   = match approve env tokenContract targetContract MaxUint256 w2 with
     | (inl e, w3) =>
         (inl e, {| world := w3; trace := trace s ++ reads ++ [approval] |})
     | (inr tx, w3) =>
         (fst (wait env tx w3),
          {| world := snd (wait env tx w3);
             trace := trace s ++ reads ++ [approval; EvWait tx] |})
     end).
Proof.
  intros Hown Hallow reads approval.
  unfold checkAllowanceAndApproveIfNecessary.
  rewrite (bind_inr _ _ _ _ _ (call_run EvGetAddress _ _ _ _ Hown)).
  erewrite bind_inr by (apply call_run; exact Hallow).
  cbn [world trace]. split; intros Hcmp.
  - destruct (Z.leb_spec requiredAmount existingAllowance); [|lia].
    unfold ret. rewrite <- app_assoc. reflexivity.
  - destruct (Z.leb_spec requiredAmount existingAllowance); [lia|].
    unfold bind, call. cbn [world trace].
    destruct (approve env tokenContract targetContract MaxUint256 w2)
      as [[e|tx] w3]; cbn [world trace].
    + rewrite <- !app_assoc. reflexivity.
    + destruct (wait env tx w3) as [r w4]. cbn [fst snd].
      rewrite <- !app_assoc. reflexivity.
Qed.

Example checkAllowance_first_call :
  checkAllowanceAndApproveIfNecessary Sim.env (Some Sim.router) Sim.USDC
    100000000 (Sim.start Sim.world0)
  = (inr tt,
     {| world := Sim.set_allowed MaxUint256 Sim.world0;
        trace := [EvGetAddress;
                  EvAllowance Sim.USDC Sim.owner (Some Sim.router);
                  EvApprove Sim.USDC (Some Sim.router) MaxUint256;
                  EvWait "0xa9"] |}).
Proof. vm_compute. reflexivity. Qed.

Lemma checkAllowance_idempotent_witness :
  let s1 :=
    {| world := Sim.set_allowed MaxUint256 Sim.world0;
       trace := [EvGetAddress;
                 EvAllowance Sim.USDC Sim.owner (Some Sim.router);
                 EvApprove Sim.USDC (Some Sim.router) MaxUint256;
                 EvWait "0xa9"] |} in
  checkAllowanceAndApproveIfNecessary Sim.env (Some Sim.router) Sim.USDC
    100000000 s1
  = (inr tt,
     {| world := world s1;
        trace := trace s1
                 ++ [EvGetAddress;
                     EvAllowance Sim.USDC Sim.owner (Some Sim.router)] |}).
Proof.
  intros s1.
  refine (proj1 (checkAllowance_idempotent Sim.env (Some Sim.router)
                   Sim.USDC 100000000 s1
                   Sim.owner (world s1) MaxUint256 (world s1)
                   eq_refl eq_refl) _).
  vm_compute. discriminate.
Defined.

(** Claim C6, amended.  For a chain name that is neither registered nor a
    property name inherited from [Object.prototype], every entry point
    fails before any call to the wallet, the signer or the network (state
    and trace are unchanged): [waitForOrderStatus] and [sendOrder] with
    "Unsupported chain" whatever the wallets; [sendTransaction] and
    [uniswapV2Swap], which test the wallet first, with "Unsupported chain"
    and "Unsupported chain: <chain>" when a wallet is connected and with
    "No wallet is connected!" when none is. *)
Theorem unsupported_chain_rejected_first {W : Type} (env : Env W)
    (chain : string) (s : State W) :
  chain ∉ ["sepolia"; "mainnet"; "base"]%string ->
  chain ∉ objectPrototypeKeys ->
  (forall fuel orderId,
      waitForOrderStatus env fuel orderId chain s
      = (inl (new_Error "Unsupported chain"), s))
  /\ (forall wallets fromAsset toAsset amount,
      sendOrder env wallets chain fromAsset toAsset amount s
      = (inl (new_Error "Unsupported chain"), s))
  /\ (forall wallet wallets receiver amount erc20ContractAddress,
      sendTransaction env (wallet :: wallets) receiver amount chain
        erc20ContractAddress s
      = (inl (new_Error "Unsupported chain"), s))
  /\ (forall wallet wallets fromAsset toAsset amount,
      uniswapV2Swap env (wallet :: wallets) chain fromAsset toAsset amount s
      = (inl (new_Error ("Unsupported chain: " +:+ chain)), s))
  /\ (forall receiver amount erc20ContractAddress,
      sendTransaction env [] receiver amount chain erc20ContractAddress s
      = (inl (new_Error "No wallet is connected!"), s))
  /\ (forall fromAsset toAsset amount,
      uniswapV2Swap env [] chain fromAsset toAsset amount s
      = (inl (new_Error "No wallet is connected!"), s)).
Proof.
  intros Hreg Hproto.
  pose proof (lookupChain_unregistered chain Hreg Hproto) as Hc.
  unfold waitForOrderStatus, sendOrder, sendTransaction, uniswapV2Swap.
  rewrite Hc. repeat split; reflexivity.
Qed.

Lemma unsupported_chain_rejected_first_witness :
  ("polygon" ∉ ["sepolia"; "mainnet"; "base"]%string)
  /\ ("polygon" ∉ objectPrototypeKeys)
  /\ sendOrder Sim.env [Sim.owner] "polygon" Sim.USDC Sim.DAI "100"
       (Sim.start Sim.world0)
     = (inl (new_Error "Unsupported chain"), Sim.start Sim.world0).
Proof.
  assert ("polygon" ∉ ["sepolia"; "mainnet"; "base"]%string) as H1
    by (apply (bool_decide_unpack _); vm_compute; exact I).
  assert ("polygon" ∉ objectPrototypeKeys) as H2
    by (apply (bool_decide_unpack _); vm_compute; exact I).
  split; [exact H1|]. split; [exact H2|].
  apply (unsupported_chain_rejected_first Sim.env "polygon"
           (Sim.start Sim.world0) H1 H2).
Defined.

Lemma unsupported_chain_counterexample :
  sendTransaction Sim.env [] "vitalik.eth" "1" "polygon" Sim.USDC
    (Sim.start Sim.world0)
  = (inl (new_Error "No wallet is connected!"), Sim.start Sim.world0)
  /\ ("constructor" ∉ ["sepolia"; "mainnet"; "base"]%string)
  /\ trace (snd (sendOrder Sim.env [Sim.owner] "constructor" Sim.USDC Sim.DAI
                   "100" (Sim.start Sim.world0)))
     = [EvSwitchChain Sim.owner (ChainInherited "constructor");
        EvGetEthersProvider Sim.owner; EvGetAddress].
Proof.
  split; [reflexivity|]. split.
  - apply (bool_decide_unpack _). vm_compute. exact I.
  - vm_compute. reflexivity.
Qed.

(** ** Order status polling *)

Section Polling.
Context {W : Type} (env : Env W).

Lemma sleep_run (ms : Z) (s : State W) :
  sleep env ms s
  = (inr tt, {| world := setTimeout env ms (world s);
                trace := trace s ++ [EvSleep ms] |}).
Proof. reflexivity. Qed.

Lemma poll_events_S (chainId : ChainId) (orderId : string) (k : nat) :
  poll_events chainId orderId (S k)
  = EvSleep 3000 :: EvGetOrder chainId orderId :: poll_events chainId orderId k.
Proof. reflexivity. Qed.

Lemma loop_step (fuel : nat) (chainId : ChainId) (orderId : string)
    (s : State W) (st : OrderStatus) (w1 : W) :
  getOrder env chainId orderId (setTimeout env 3000 (world s)) = (inr st, w1) ->
  waitForOrderStatus_loop env (S fuel) chainId orderId OPEN s
  = waitForOrderStatus_loop env fuel chainId orderId st
      {| world := w1;
         trace := trace s ++ [EvSleep 3000; EvGetOrder chainId orderId] |}.
Proof.
  intros Hget. cbn [waitForOrderStatus_loop].
  rewrite bool_decide_eq_true_2 by reflexivity.
  rewrite (bind_inr _ _ _ _ _ (sleep_run 3000 s)).
  erewrite bind_inr by (apply call_run; exact Hget).
  cbn [world trace]. rewrite <- app_assoc. reflexivity.
Qed.

Lemma loop_not_open (fuel : nat) (chainId : ChainId) (orderId : string)
    (st : OrderStatus) (s : State W) :
  st <> OPEN ->
  waitForOrderStatus_loop env fuel chainId orderId st s = (inr (Some st), s).
Proof.
  intros Hst. destruct fuel; cbn [waitForOrderStatus_loop];
    rewrite bool_decide_eq_false_2 by exact Hst; reflexivity.
Qed.

Lemma loop_returns (chainId : ChainId) (orderId : string) (n : nat) :
  forall (s : State W) (st : OrderStatus) (w' : W) (fuel : nat),
    open_polls env chainId orderId n (world s) st w' ->
    (n < fuel)%nat ->
    waitForOrderStatus_loop env fuel chainId orderId OPEN s
    = (inr (Some st),
       {| world := w';
          trace := trace s ++ poll_events chainId orderId (S n) |}).
Proof.
  induction n as [|n IH]; intros s st w' fuel Hpolls Hfuel;
    (destruct fuel as [|fuel]; [lia|]).
  - destruct Hpolls as [Hget Hst].
    rewrite (loop_step _ _ _ _ _ _ Hget). apply loop_not_open, Hst.
  - destruct Hpolls as (w1 & Hget & Hrest).
    rewrite (loop_step _ _ _ _ _ _ Hget).
    rewrite (IH (Build_State w1 _) st w' fuel Hrest ltac:(lia)).
    cbn [world trace]. rewrite (poll_events_S _ _ (S n)).
    rewrite <- app_assoc. reflexivity.
Qed.

Lemma loop_still_open (chainId : ChainId) (orderId : string) (n : nat) :
  forall (s : State W) (st : OrderStatus) (w' : W) (fuel : nat),
    open_polls env chainId orderId n (world s) st w' ->
    (fuel <= n)%nat ->
    exists s',
      waitForOrderStatus_loop env fuel chainId orderId OPEN s = (inr None, s')
      /\ trace s' = trace s ++ poll_events chainId orderId fuel.
Proof.
  induction n as [|n IH]; intros s st w' fuel Hpolls Hfuel.
  - assert (fuel = 0%nat) as -> by lia. exists s. split; [reflexivity|].
    unfold poll_events. simpl. rewrite app_nil_r. reflexivity.
  - destruct fuel as [|fuel].
    + exists s. split; [reflexivity|].
      unfold poll_events. simpl. rewrite app_nil_r. reflexivity.
    + destruct Hpolls as (w1 & Hget & Hrest).
      rewrite (loop_step _ _ _ _ _ _ Hget).
      destruct (IH {| world := w1;
                      trace := trace s ++ [EvSleep 3000; EvGetOrder chainId orderId] |}
                   st w' fuel Hrest ltac:(lia)) as (s' & Hrun & Htr).
      exists s'. split; [exact Hrun|]. rewrite Htr. cbn [trace].
      rewrite <- app_assoc. reflexivity.
Qed.


End Polling.

(** Claim C8.  On a supported chain the tracker polls once per
    three-second timer for as long as the status it reads is [OPEN] and
    returns the first other status: if the next [n] polls answer [OPEN]
    and the one after answers [st], it returns [st] after exactly [n + 1]
    rounds of [sleep(3000)] and [getOrder], and after [n] rounds or fewer
    it has not returned.  This holds for every [n]: the loop is bounded by
    nothing but the answers. *)
Theorem waitForOrderStatus_polls_while_open {W : Type} (env : Env W)
    (chain : string) (chainId : ChainId) (orderId : string) (n : nat)
    (s : State W) (st : OrderStatus) (w' : W) :
  lookupChain chain = Some chainId ->
  open_polls env chainId orderId n (world s) st w' ->
  (forall fuel, (n < fuel)%nat ->
     waitForOrderStatus env fuel orderId chain s
     = (inr (Some st),
        {| world := w';
           trace := trace s ++ poll_events chainId orderId (S n) |}))
  /\ (forall fuel, (fuel <= n)%nat ->
        exists s',
          waitForOrderStatus env fuel orderId chain s = (inr None, s')
          /\ trace s' = trace s ++ poll_events chainId orderId fuel).
Proof.
  intros Hchain Hpolls. unfold waitForOrderStatus. rewrite Hchain. split.
  - intros fuel Hfuel. apply loop_returns; assumption.
  - intros fuel Hfuel. eapply loop_still_open; eassumption.
Qed.

Lemma waitForOrderStatus_polls_while_open_witness :
  waitForOrderStatus Sim.env 3 "order-1" "sepolia"
    (Sim.start (Sim.set_statuses [OPEN; OPEN; FULFILLED] Sim.world0))
  = (inr (Some FULFILLED),
     {| world := Sim.set_clock 1700000009000 Sim.world0;
        trace := [EvSleep 3000; EvGetOrder (ChainNum 11155111) "order-1";
                  EvSleep 3000; EvGetOrder (ChainNum 11155111) "order-1";
                  EvSleep 3000; EvGetOrder (ChainNum 11155111) "order-1"] |}).
Proof.
  refine (proj1 (waitForOrderStatus_polls_while_open Sim.env "sepolia"
                   (ChainNum 11155111) "order-1" 2
                   (Sim.start (Sim.set_statuses [OPEN; OPEN; FULFILLED] Sim.world0))
                   FULFILLED (Sim.set_clock 1700000009000 Sim.world0) _ _)
                3%nat _).
  - vm_compute. reflexivity.
  - simpl. eexists. split; [reflexivity|]. eexists. split; [reflexivity|].
    split; [reflexivity|discriminate].
  - lia.
Defined.



Example settled_order_still_waits :
  waitForOrderStatus Sim.env 1 "order-1" "sepolia"
    (Sim.start (Sim.set_statuses [FULFILLED] Sim.world0))
  = (inr (Some FULFILLED),
     {| world := Sim.set_clock 1700000003000 Sim.world0;
        trace := [EvSleep 3000; EvGetOrder (ChainNum 11155111) "order-1"] |}).
Proof. vm_compute. reflexivity. Qed.

(** ** Path selection *)

Section PathSelection.
Context {W : Type} (env : Env W).

Lemma createLiquidityPoolIfNeeded_trace (factoryAddress tokenA tokenB : Address)
    (s : State W) r s' :
  createLiquidityPoolIfNeeded env factoryAddress tokenA tokenB s = (r, s') ->
  exists rest,
    trace s' = trace s ++ EvGetPair factoryAddress tokenA tokenB :: rest.
Proof.
  unfold createLiquidityPoolIfNeeded, try_catch, bind, call, ret, throw.
  cbn [world trace].
  destruct (getPair env factoryAddress tokenA tokenB (world s))
    as [[e|pair] w1]; cbn [world trace].
  { intros [= <- <-]. exists []. reflexivity. }
  destruct (negb (bool_decide (pair = AddressZero))); cbn [world trace].
  { intros [= <- <-]. exists []. reflexivity. }
  destruct (createPair env factoryAddress tokenA tokenB w1)
    as [[e|tx] w2]; cbn [world trace].
  { intros [= <- <-]. eexists. cbn [trace]. rewrite <- app_assoc.
    reflexivity. }
  destruct (wait env tx w2) as [[e|[]] w3]; cbn [world trace].
  { intros [= <- <-]. eexists. cbn [trace]. rewrite <- !app_assoc.
    reflexivity. }
  destruct (getPair env factoryAddress tokenA tokenB w3) as [[e|p] w4];
    intros [= <- <-]; eexists; cbn [trace]; rewrite <- !app_assoc;
    reflexivity.
Qed.

Lemma createIfMissing_trace (factoryAddress tokenA tokenB : Address)
    (poolExists : bool) (s : State W) r s' :
  createIfMissing env factoryAddress tokenA tokenB poolExists s = (r, s') ->
  exists rest, trace s' = trace s ++ rest.
Proof.
  unfold createIfMissing. destruct poolExists; cbn [negb].
  - intros [= <- <-]. exists []. rewrite app_nil_r. reflexivity.
  - unfold bind, ret.
    destruct (createLiquidityPoolIfNeeded env factoryAddress tokenA tokenB s)
      as [[e|a] s1] eqn:E; intros [= <- <-];
      destruct (createLiquidityPoolIfNeeded_trace _ _ _ _ _ _ E) as [rest ->];
      eexists; reflexivity.
Qed.

Lemma checkLiquidityPoolExists_trace (factoryAddress tokenA tokenB : Address)
    (s : State W) r s' :
  checkLiquidityPoolExists env factoryAddress tokenA tokenB s = (r, s') ->
  trace s' = trace s ++ [EvGetPair factoryAddress tokenA tokenB].
Proof.
  rewrite checkLiquidityPoolExists_run. intros [= <- <-]. reflexivity.
Qed.

(** What the bootstrap branch returns, case by case. *)
Lemma bootstrapPath_cases (factoryAddress fromAsset toAsset WETH_ADDRESS : Address)
    (fromWethPoolExists toWethPoolExists : bool) (s : State W) :
  bootstrapPath env factoryAddress fromAsset toAsset WETH_ADDRESS
    false fromWethPoolExists toWethPoolExists s
  = match createLiquidityPoolIfNeeded env factoryAddress fromAsset toAsset s with
    | (inr _, s1) => (inr [fromAsset; toAsset], s1)
    | (inl _, s1) =>
        match createIfMissing env factoryAddress fromAsset WETH_ADDRESS
                fromWethPoolExists s1 with
        | (inl _, s2) => (inl noViablePath, s2)
        | (inr _, s2) =>
            match createIfMissing env factoryAddress WETH_ADDRESS toAsset
                    toWethPoolExists s2 with
            | (inl _, s3) => (inl noViablePath, s3)
            | (inr _, s3) => (inr [fromAsset; WETH_ADDRESS; toAsset], s3)
            end
        end
    end.
Proof.
  unfold bootstrapPath, try_catch, bind, ret, throw. cbn [negb].
  destruct (createLiquidityPoolIfNeeded env factoryAddress fromAsset toAsset s)
    as [[e|a] s1]; [|reflexivity].
  destruct (createIfMissing env factoryAddress fromAsset WETH_ADDRESS
              fromWethPoolExists s1) as [[e2|[]] s2]; [reflexivity|].
  destruct (createIfMissing env factoryAddress WETH_ADDRESS toAsset
              toWethPoolExists s2) as [[e3|[]] s3]; reflexivity.
Qed.

(** [createLiquidityPoolIfNeeded] makes an attempt, whatever the outside
    world answers: its result is the address the attempt gives, or the
    error "Failed to create liquidity pool" when a call threw. *)
Lemma attempt_run (f a b : Address) (s : State W) calls outcome w' :
  PoolAttempt env f a b (world s) calls outcome w' ->
  createLiquidityPoolIfNeeded env f a b s
  = (attemptResult outcome, {| world := w'; trace := trace s ++ calls |}).
Proof.
  intros H. unfold createLiquidityPoolIfNeeded, try_catch, bind, call, ret,
    throw.
  inversion H as [p w1 H1 Hp|w1 tx w2 w3 p w4 H1 H2 H3 H4|e w1 H1
                 |w1 e w2 H1 H2|w1 tx w2 e w3 H1 H2 H3
                 |w1 tx w2 w3 e w4 H1 H2 H3 H4]; subst;
    cbn [world trace]; rewrite H1; cbn [world trace attemptResult].
  - rewrite bool_decide_eq_false_2 by exact Hp. reflexivity.
  - rewrite bool_decide_eq_true_2 by reflexivity. cbn [negb world trace].
    rewrite H2. cbn [world trace]. rewrite H3. cbn [world trace].
    rewrite H4. cbn [trace]. rewrite <- !app_assoc. reflexivity.
  - reflexivity.
  - rewrite bool_decide_eq_true_2 by reflexivity. cbn [negb world trace].
    rewrite H2. cbn [trace]. rewrite <- !app_assoc. reflexivity.
  - rewrite bool_decide_eq_true_2 by reflexivity. cbn [negb world trace].
    rewrite H2. cbn [world trace]. rewrite H3. cbn [trace].
    rewrite <- !app_assoc. reflexivity.
  - rewrite bool_decide_eq_true_2 by reflexivity. cbn [negb world trace].
    rewrite H2. cbn [world trace]. rewrite H3. cbn [world trace].
    rewrite H4. cbn [trace]. rewrite <- !app_assoc. reflexivity.
Qed.

Lemma attempt_total (f a b : Address) (w : W) :
  exists calls outcome w', PoolAttempt env f a b w calls outcome w'.
Proof.
  destruct (getPair env f a b w) as [[e|p] w1] eqn:H1.
  { eexists _, _, _. eapply attempt_read_threw. exact H1. }
  destruct (decide (p = AddressZero)) as [->|Hp].
  2:{ eexists _, _, _. eapply attempt_found; eassumption. }
  destruct (createPair env f a b w1) as [[e|tx] w2] eqn:H2.
  { eexists _, _, _. eapply attempt_creation_threw; eassumption. }
  destruct (wait env tx w2) as [[e|[]] w3] eqn:H3.
  { eexists _, _, _. eapply attempt_receipt_threw; eassumption. }
  destruct (getPair env f a b w3) as [[e|p] w4] eqn:H4.
  - eexists _, _, _. eapply attempt_second_read_threw; eassumption.
  - eexists _, _, _. eapply attempt_created; eassumption.
Qed.

(** An attempt starts with a read of the factory, and sends a creation
    next exactly when that read answers the zero address. *)
Lemma attempt_calls (f a b : Address) (w : W) calls outcome w' :
  PoolAttempt env f a b w calls outcome w' ->
  exists more,
    calls = EvGetPair f a b :: more
    /\ Forall (fun ev => isPoolCall ev = true) calls
    /\ ((exists w1, getPair env f a b w = (inr AddressZero, w1)) ->
        exists more', more = EvCreatePair f a b :: more')
    /\ (EvCreatePair f a b ∈ calls ->
        exists w1, getPair env f a b w = (inr AddressZero, w1)).
Proof.
  intros H.
  inversion H as [p w1 H1 Hp|w1 tx w2 w3 p w4 H1 H2 H3 H4|e w1 H1
                 |w1 e w2 H1 H2|w1 tx w2 e w3 H1 H2 H3
                 |w1 tx w2 w3 e w4 H1 H2 H3 H4]; subst;
    (eexists; split; [reflexivity|]);
    (split; [repeat constructor|]);
    (split;
     [intros [w0 H0]; rewrite H1 in H0;
      first [eexists; reflexivity
            |exfalso; injection H0 as H0 _; first [exact (Hp H0)|discriminate H0]
            |discriminate H0]
     |intros Hin;
      first [exists w1; exact H1
            |exfalso;
             repeat (apply elem_of_cons in Hin as [Hin|Hin];
                     [discriminate Hin|]);
             apply elem_of_nil in Hin; exact Hin]]).
Qed.

Lemma ensured_run (f a b : Address) (poolExists : bool) (s : State W)
    calls w' :
  Ensured env f a b poolExists (world s) calls w' ->
  createIfMissing env f a b poolExists s
  = (inr tt, {| world := w'; trace := trace s ++ calls |}).
Proof.
  unfold Ensured, createIfMissing. destruct poolExists; cbn [negb].
  - intros [-> ->]. unfold ret. rewrite app_nil_r. destruct s; reflexivity.
  - intros [p H]. unfold bind, ret. rewrite (attempt_run _ _ _ _ _ _ _ H).
    reflexivity.
Qed.

Lemma not_ensured_run (f a b : Address) (s : State W) calls w' :
  PoolAttempt env f a b (world s) calls None w' ->
  createIfMissing env f a b false s
  = (inl (new_Error "Failed to create liquidity pool"),
     {| world := w'; trace := trace s ++ calls |}).
Proof.
  intros H. unfold createIfMissing, bind. cbn [negb].
  rewrite (attempt_run _ _ _ _ _ _ _ H). reflexivity.
Qed.

(** What [createIfMissing] did, from its result. *)
Lemma createIfMissing_inv (f a b : Address) (poolExists : bool)
    (s : State W) r s' :
  createIfMissing env f a b poolExists s = (r, s') ->
  exists calls,
    s' = {| world := world s'; trace := trace s ++ calls |}
    /\ match r with
       | inr _ => Ensured env f a b poolExists (world s) calls (world s')
       | inl _ =>
           poolExists = false
           /\ PoolAttempt env f a b (world s) calls None (world s')
       end.
Proof.
  unfold createIfMissing. destruct poolExists; cbn [negb].
  - intros [= <- <-]. exists []. rewrite app_nil_r. split.
    + destruct s; reflexivity.
    + split; reflexivity.
  - destruct (attempt_total f a b (world s)) as (calls & outcome & w' & H).
    unfold bind, ret. rewrite (attempt_run _ _ _ _ _ _ _ H).
    destruct outcome as [p|]; cbn [attemptResult]; intros [= <- <-];
      exists calls; (split; [reflexivity|]); cbn [world].
    + exists p. exact H.
    + split; [reflexivity|exact H].
Qed.

Lemma createIfMissing_calls (f a b : Address) (poolExists : bool)
    (s : State W) r s' :
  createIfMissing env f a b poolExists s = (r, s') ->
  exists calls,
    trace s' = trace s ++ calls
    /\ Forall (fun ev => isPoolCall ev = true) calls.
Proof.
  intros H. apply createIfMissing_inv in H as (calls & Hs & H).
  exists calls. split; [rewrite Hs; reflexivity|].
  destruct r as [e|[]].
  - destruct H as [_ H].
    destruct (attempt_calls _ _ _ _ _ _ _ H) as (more & _ & HF & _).
    exact HF.
  - unfold Ensured in H. destruct poolExists.
    + destruct H as [-> _]. constructor.
    + destruct H as [p H].
      destruct (attempt_calls _ _ _ _ _ _ _ H) as (more & _ & HF & _).
      exact HF.
Qed.

End PathSelection.

(** Claim C1.  Path selection is a function of the three probe results:
    after the three [getPair] probes (and nothing else), a direct pool
    gives the path [from; to]; otherwise both pools through the
    intermediary give [from; WETH; to].  Otherwise the creation of the
    direct pool is attempted before anything else: the factory is read
    again and, when it answers the zero address, a [createPair]
    transaction is sent.  An attempt that gives a pool ends the selection
    with [from; to]; only after an attempt in which a call threw can the
    selection fail, and then with the no-viable-route error. *)
Theorem selectPath_by_probes {W : Type} (env : Env W)
    (factoryAddress fromAsset toAsset WETH_ADDRESS : Address)
    (s : State W) (direct : bool) (s1 : State W)
    (hopA : bool) (s2 : State W) (hopB : bool) (s3 : State W) :
  checkLiquidityPoolExists env factoryAddress fromAsset toAsset s
    = (inr direct, s1) ->
  checkLiquidityPoolExists env factoryAddress fromAsset WETH_ADDRESS s1
    = (inr hopA, s2) ->
  checkLiquidityPoolExists env factoryAddress WETH_ADDRESS toAsset s2
    = (inr hopB, s3) ->
  trace s3 = trace s ++ [EvGetPair factoryAddress fromAsset toAsset;
                         EvGetPair factoryAddress fromAsset WETH_ADDRESS;
                         EvGetPair factoryAddress WETH_ADDRESS toAsset]
  /\ (direct = true ->
      selectPath env factoryAddress fromAsset toAsset WETH_ADDRESS s
      = (inr [fromAsset; toAsset], s3))
  /\ (direct = false -> hopA = true -> hopB = true ->
      selectPath env factoryAddress fromAsset toAsset WETH_ADDRESS s
      = (inr [fromAsset; WETH_ADDRESS; toAsset], s3))
  /\ (direct = false -> hopA && hopB = false ->
      exists calls outcome w4,
        PoolAttempt env factoryAddress fromAsset toAsset (world s3)
          calls outcome w4
        /\ (exists more,
              calls = EvGetPair factoryAddress fromAsset toAsset :: more
              /\ ((exists w, getPair env factoryAddress fromAsset toAsset
                               (world s3) = (inr AddressZero, w)) ->
                  exists more',
                    more = EvCreatePair factoryAddress fromAsset toAsset
                           :: more'))
        /\ match outcome with
           | Some _ =>
               selectPath env factoryAddress fromAsset toAsset WETH_ADDRESS s
               = (inr [fromAsset; toAsset],
                  {| world := w4; trace := trace s3 ++ calls |})
           | None =>
               exists r s4 rest,
                 selectPath env factoryAddress fromAsset toAsset
                   WETH_ADDRESS s = (r, s4)
                 /\ trace s4 = trace s3 ++ calls ++ rest
                 /\ (r = inr [fromAsset; WETH_ADDRESS; toAsset]
                     \/ r = inl noViablePath)
           end).
Proof.
  intros H1 H2 H3.
  assert (selectPath env factoryAddress fromAsset toAsset WETH_ADDRESS s
          = choosePath env factoryAddress fromAsset toAsset WETH_ADDRESS
              direct hopA hopB s3) as Hsel.
  { unfold selectPath.
    rewrite (bind_inr _ _ _ _ _ H1), (bind_inr _ _ _ _ _ H2),
      (bind_inr _ _ _ _ _ H3). reflexivity. }
  split; [|split; [|split]].
  - rewrite (checkLiquidityPoolExists_trace env _ _ _ _ _ _ H3),
      (checkLiquidityPoolExists_trace env _ _ _ _ _ _ H2),
      (checkLiquidityPoolExists_trace env _ _ _ _ _ _ H1), <- !app_assoc.
    reflexivity.
  - intros ->. rewrite Hsel. reflexivity.
  - intros -> -> ->. rewrite Hsel. reflexivity.
  - intros -> Hhops. rewrite Hsel. unfold choosePath. rewrite Hhops.
    rewrite bootstrapPath_cases.
    destruct (attempt_total env factoryAddress fromAsset toAsset (world s3))
      as (calls & outcome & w4 & Hatt).
    exists calls, outcome, w4. split; [exact Hatt|].
    destruct (attempt_calls env _ _ _ _ _ _ _ Hatt)
      as (more & Hcalls & _ & Hcreate & _).
    split; [exists more; split; [exact Hcalls|exact Hcreate]|].
    rewrite (attempt_run env _ _ _ _ _ _ _ Hatt).
    destruct outcome as [p|]; cbn [attemptResult]; [reflexivity|].
    match goal with
    | |- context [createIfMissing env ?f ?a ?b hopA ?st] =>
        destruct (createIfMissing env f a b hopA st) as [[e2|[]] t2] eqn:Ea;
        destruct (createIfMissing_trace env _ _ _ _ _ _ _ Ea) as [rest2 Ht2]
    end.
    + exists (inl noViablePath), t2, rest2. cbn [trace] in Ht2.
      split; [reflexivity|]. split; [|right; reflexivity].
      rewrite Ht2, <- app_assoc. reflexivity.
    + destruct (createIfMissing env factoryAddress WETH_ADDRESS toAsset hopB t2)
        as [[e3|[]] t3] eqn:Eh;
        destruct (createIfMissing_trace env _ _ _ _ _ _ _ Eh) as [rest3 Ht3];
        cbn [trace] in Ht2; eexists _, t3, (rest2 ++ rest3);
        (split; [reflexivity|]);
        (split; [rewrite Ht3, Ht2, <- !app_assoc; reflexivity|]);
        [right|left]; reflexivity.
Qed.

Lemma selectPath_by_probes_witness :
  let w := Sim.set_pools [(Sim.USDC, Sim.WETH); (Sim.WETH, Sim.DAI)] Sim.world0 in
  selectPath Sim.env Sim.factory Sim.USDC Sim.DAI Sim.WETH (Sim.start w)
  = (inr [Sim.USDC; Sim.WETH; Sim.DAI],
     {| world := w;
        trace := [EvGetPair Sim.factory Sim.USDC Sim.DAI;
                  EvGetPair Sim.factory Sim.USDC Sim.WETH;
                  EvGetPair Sim.factory Sim.WETH Sim.DAI] |}).
Proof.
  intros w.
  refine (proj1 (proj2 (proj2
            (selectPath_by_probes Sim.env Sim.factory Sim.USDC Sim.DAI Sim.WETH
               (Sim.start w)
               false {| world := w;
                        trace := [EvGetPair Sim.factory Sim.USDC Sim.DAI] |}
               true {| world := w;
                       trace := [EvGetPair Sim.factory Sim.USDC Sim.DAI;
                                 EvGetPair Sim.factory Sim.USDC Sim.WETH] |}
               true {| world := w;
                       trace := [EvGetPair Sim.factory Sim.USDC Sim.DAI;
                                 EvGetPair Sim.factory Sim.USDC Sim.WETH;
                                 EvGetPair Sim.factory Sim.WETH Sim.DAI] |}
               _ _ _))) eq_refl eq_refl eq_refl);
    vm_compute; reflexivity.
Defined.

(** Claim C2.  The fallback of the bootstrap branch.  No route was found
    and the attempt to create the direct pool failed (one of its calls
    threw).  Then for each pool through the intermediary that the probes
    had not found an attempt is made, in the order from-intermediary,
    intermediary-to: the factory is read and the pool is created when the
    factory answers the zero address; a pool the probes had found is left
    alone.  When these attempts give the pools, the path [from; WETH; to]
    is returned, after exactly these calls; when one of them fails, the
    no-viable-route error is raised.  Conversely the path through the
    intermediary is returned only with both pools ensured in this way, and
    the error is raised only after the direct attempt and one of the
    attempts for the missing pools have failed. *)
Theorem bootstrap_falls_back_to_hops {W : Type} (env : Env W)
    (factoryAddress fromAsset toAsset WETH_ADDRESS : Address)
    (hopA hopB : bool) (s : State W) (calls0 : list Event) (w1 : W) :
  hopA && hopB = false ->
  PoolAttempt env factoryAddress fromAsset toAsset (world s) calls0 None w1 ->
  let select :=
    choosePath env factoryAddress fromAsset toAsset WETH_ADDRESS
      false hopA hopB s in
  let ensuredA :=
    Ensured env factoryAddress fromAsset WETH_ADDRESS hopA in
  let ensuredB :=
    Ensured env factoryAddress WETH_ADDRESS toAsset hopB in
  let failedA :=
    PoolAttempt env factoryAddress fromAsset WETH_ADDRESS in
  let failedB :=
    PoolAttempt env factoryAddress WETH_ADDRESS toAsset in
  (forall callsA w2 callsB w3,
      ensuredA w1 callsA w2 -> ensuredB w2 callsB w3 ->
      select = (inr [fromAsset; WETH_ADDRESS; toAsset],
                {| world := w3;
                   trace := trace s ++ calls0 ++ callsA ++ callsB |}))
  /\ (forall callsA w2,
         hopA = false -> failedA w1 callsA None w2 ->
         select = (inl noViablePath,
                   {| world := w2; trace := trace s ++ calls0 ++ callsA |}))
  /\ (forall callsA w2 callsB w3,
         ensuredA w1 callsA w2 ->
         hopB = false -> failedB w2 callsB None w3 ->
         select = (inl noViablePath,
                   {| world := w3;
                      trace := trace s ++ calls0 ++ callsA ++ callsB |}))
  /\ (forall path s',
         select = (inr path, s') ->
         path = [fromAsset; WETH_ADDRESS; toAsset]
         /\ exists callsA w2 callsB,
              ensuredA w1 callsA w2 /\ ensuredB w2 callsB (world s')
              /\ trace s' = trace s ++ calls0 ++ callsA ++ callsB)
  /\ (forall err s',
         select = (inl err, s') ->
         err = noViablePath
         /\ ((exists callsA,
                 hopA = false /\ failedA w1 callsA None (world s')
                 /\ trace s' = trace s ++ calls0 ++ callsA)
             \/ (exists callsA w2 callsB,
                    ensuredA w1 callsA w2
                    /\ hopB = false /\ failedB w2 callsB None (world s')
                    /\ trace s' = trace s ++ calls0 ++ callsA ++ callsB))).
Proof.
  intros Hhops Hdirect select ensuredA ensuredB failedA failedB.
  assert (select
          = bootstrapPath env factoryAddress fromAsset toAsset WETH_ADDRESS
              false hopA hopB s) as Hsel
    by (unfold select, choosePath; rewrite Hhops; reflexivity).
  rewrite bootstrapPath_cases in Hsel.
  rewrite (attempt_run env _ _ _ _ _ _ _ Hdirect) in Hsel.
  cbn [attemptResult] in Hsel. rewrite Hsel. clear Hsel select.
  set (s1 := {| world := w1; trace := trace s ++ calls0 |}).
  split; [|split; [|split; [|split]]].
  - intros callsA w2 callsB w3 HA HB.
    rewrite (ensured_run env _ _ _ _ s1 _ _ HA).
    rewrite (ensured_run env _ _ _ _ (Build_State w2 _) _ _ HB).
    cbn [trace s1]. rewrite <- !app_assoc. reflexivity.
  - intros callsA w2 -> HA.
    rewrite (not_ensured_run env _ _ _ s1 _ _ HA).
    cbn [trace s1]. rewrite <- !app_assoc. reflexivity.
  - intros callsA w2 callsB w3 HA -> HB.
    rewrite (ensured_run env _ _ _ _ s1 _ _ HA).
    rewrite (not_ensured_run env _ _ _ (Build_State w2 _) _ _ HB).
    cbn [trace s1]. rewrite <- !app_assoc. reflexivity.
  - intros path s'.
    destruct (createIfMissing env factoryAddress fromAsset WETH_ADDRESS hopA s1)
      as [[e2|[]] s2] eqn:EA; [discriminate|].
    destruct (createIfMissing env factoryAddress WETH_ADDRESS toAsset hopB s2)
      as [[e3|[]] s3] eqn:EB; [discriminate|].
    intros [= <- <-]. split; [reflexivity|].
    apply createIfMissing_inv in EA as (callsA & HsA & HA).
    apply createIfMissing_inv in EB as (callsB & HsB & HB).
    exists callsA, (world s2), callsB. cbn [world s1] in HA.
    split; [exact HA|]. split; [exact HB|].
    rewrite HsB. cbn [trace]. rewrite HsA. cbn [trace s1].
    rewrite <- !app_assoc. reflexivity.
  - intros err s'.
    destruct (createIfMissing env factoryAddress fromAsset WETH_ADDRESS hopA s1)
      as [[e2|[]] s2] eqn:EA.
    + intros [= <- <-]. split; [reflexivity|]. left.
      apply createIfMissing_inv in EA as (callsA & HsA & -> & HA).
      exists callsA. cbn [world s1] in HA. split; [reflexivity|].
      split; [exact HA|].
      rewrite HsA. cbn [trace s1]. rewrite <- !app_assoc. reflexivity.
    + destruct (createIfMissing env factoryAddress WETH_ADDRESS toAsset hopB s2)
        as [[e3|[]] s3] eqn:EB; [|discriminate].
      intros [= <- <-]. split; [reflexivity|]. right.
      apply createIfMissing_inv in EA as (callsA & HsA & HA).
      apply createIfMissing_inv in EB as (callsB & HsB & -> & HB).
      exists callsA, (world s2), callsB. cbn [world s1] in HA.
      split; [exact HA|]. split; [reflexivity|]. split; [exact HB|].
      rewrite HsB. cbn [trace]. rewrite HsA. cbn [trace s1].
      rewrite <- !app_assoc. reflexivity.
Qed.

Lemma bootstrap_falls_back_to_hops_witness :
  let f := Sim.factory in
  let w0 := Sim.Build_World 0 [] [(Sim.USDC, Sim.DAI)] [] 1700000000000 in
  let w2 := Sim.set_pools [(Sim.USDC, Sim.WETH)] w0 in
  let w3 := Sim.set_pools [(Sim.WETH, Sim.DAI); (Sim.USDC, Sim.WETH)] w0 in
  choosePath Sim.env f Sim.USDC Sim.DAI Sim.WETH false false false
    (Sim.start w0)
  = (inr [Sim.USDC; Sim.WETH; Sim.DAI],
     {| world := w3;
        trace :=
          [EvGetPair f Sim.USDC Sim.DAI; EvCreatePair f Sim.USDC Sim.DAI;
           EvGetPair f Sim.USDC Sim.WETH; EvCreatePair f Sim.USDC Sim.WETH;
           EvWait "0xc7"; EvGetPair f Sim.USDC Sim.WETH;
           EvGetPair f Sim.WETH Sim.DAI; EvCreatePair f Sim.WETH Sim.DAI;
           EvWait "0xc7"; EvGetPair f Sim.WETH Sim.DAI] |}).
Proof.
  intros f w0 w2 w3.
  refine (proj1 (bootstrap_falls_back_to_hops Sim.env f Sim.USDC Sim.DAI
                   Sim.WETH false false (Sim.start w0)
                   [EvGetPair f Sim.USDC Sim.DAI;
                    EvCreatePair f Sim.USDC Sim.DAI] w0 eq_refl _)
            [EvGetPair f Sim.USDC Sim.WETH; EvCreatePair f Sim.USDC Sim.WETH;
             EvWait "0xc7"; EvGetPair f Sim.USDC Sim.WETH] w2
            [EvGetPair f Sim.WETH Sim.DAI; EvCreatePair f Sim.WETH Sim.DAI;
             EvWait "0xc7"; EvGetPair f Sim.WETH Sim.DAI] w3 _ _).
  - eapply attempt_creation_threw; reflexivity.
  - exists Sim.pairAddress.
    eapply (attempt_created Sim.env f Sim.USDC Sim.WETH w0 w0 "0xc7" w2 w2);
      reflexivity.
  - exists Sim.pairAddress.
    eapply (attempt_created Sim.env f Sim.WETH Sim.DAI w2 w2 "0xc7" w3 w3);
      reflexivity.
Defined.

(** ** The margin of the order executor, in double precision *)

(** [sendOrder] computes the buy amount with numbers: the quoted amount
    is read as a number, multiplied by [1 - slippage], rounded by
    [Math.round] and written by [toString].  The facts below follow the
    roundings of these steps.  A value [m * 2^e] is counted in units of
    [2^-200], as the integer [m * 2^(e + 200)], so that every bound is a
    statement about integers. *)

Module RoundingFacts.
Import JsNumber.

Lemma digits2_pos_bounds (m : positive) :
  2 ^ (Zpos (digits2_pos m) - 1) <= Zpos m < 2 ^ Zpos (digits2_pos m).
Proof.
  induction m as [m IH|m IH|]; cbn [digits2_pos].
  - rewrite Pos2Z.inj_succ, (Pos2Z.inj_xI m).
    replace (Z.succ (Z.pos (digits2_pos m)) - 1)
      with (Z.succ (Z.pos (digits2_pos m) - 1)) by lia.
    rewrite !Z.pow_succ_r by lia. lia.
  - rewrite Pos2Z.inj_succ, (Pos2Z.inj_xO m).
    replace (Z.succ (Z.pos (digits2_pos m)) - 1)
      with (Z.succ (Z.pos (digits2_pos m) - 1)) by lia.
    rewrite !Z.pow_succ_r by lia. lia.
  - simpl. lia.
Qed.

(** The number of bits of [m] is the [k] with [2^(k-1) <= m < 2^k]. *)
Lemma digits2_pos_unique (m : positive) (k : Z) :
  2 ^ (k - 1) <= Zpos m < 2 ^ k -> Zpos (digits2_pos m) = k.
Proof.
  intros [Hlo Hhi]. pose proof (digits2_pos_bounds m) as [Blo Bhi].
  set (D := Zpos (digits2_pos m)) in *.
  assert (0 < D) by (unfold D; lia).
  destruct (Z.lt_trichotomy D k) as [Hlt|[Heq|Hgt]]; [|exact Heq|].
  - exfalso. assert (2 ^ D <= 2 ^ (k - 1)) by (apply Z.pow_le_mono_r; lia). lia.
  - exfalso. destruct (Z.le_gt_cases 0 k) as [Hk|Hk].
    + assert (2 ^ k <= 2 ^ (D - 1)) by (apply Z.pow_le_mono_r; lia). lia.
    + rewrite (Z.pow_neg_r 2 k) in Hhi by lia. lia.
Qed.

Lemma shr_1_spec (m : Z) (r s : bool) :
  0 <= m ->
  shr_1 {| shr_m := m; shr_r := r; shr_s := s |}
  = {| shr_m := m / 2; shr_r := Z.odd m; shr_s := r || s |}.
Proof.
  intros Hm. destruct m as [|p|p]; [reflexivity| |lia].
  destruct p as [p|p|]; cbn [shr_1].
  - f_equal. apply (Z.div_unique _ _ _ 1); lia.
  - f_equal. apply (Z.div_unique _ _ _ 0); lia.
  - reflexivity.
Qed.

Lemma iter_pos_nat {A : Type} (f : A -> A) (n : positive) (x : A) :
  SpecFloat.iter_pos f n x = Nat.iter (Pos.to_nat n) f x.
Proof.
  revert x. induction n as [n IH|n IH|]; intros x; cbn [SpecFloat.iter_pos].
  - rewrite !IH, Pos2Nat.inj_xI, <- Nat.iter_add, <- Nat.iter_succ_r.
    f_equal. lia.
  - rewrite !IH, Pos2Nat.inj_xO, <- Nat.iter_add. f_equal. lia.
  - reflexivity.
Qed.

Lemma mod_pow2_succ (M : Z) (k : nat) :
  0 <= M ->
  M mod 2 ^ Z.of_nat (S k)
  = M mod 2 ^ Z.of_nat k + 2 ^ Z.of_nat k * ((M / 2 ^ Z.of_nat k) mod 2).
Proof.
  intros HM. rewrite Nat2Z.inj_succ, Z.pow_succ_r by lia.
  rewrite (Z.mul_comm 2). apply Z.rem_mul_r; [|lia].
  apply Z.pow_nonzero; lia.
Qed.

(** Shifting [M] right by [k + 1] bits leaves its high bits, the last
    bit shifted out, and whether a lower bit was set. *)
Lemma shr_iter (M : Z) (k : nat) :
  0 <= M ->
  Nat.iter (S k) shr_1 {| shr_m := M; shr_r := false; shr_s := false |}
  = {| shr_m := M / 2 ^ Z.of_nat (S k);
       shr_r := Z.odd (M / 2 ^ Z.of_nat k);
       shr_s := negb (M mod 2 ^ Z.of_nat k =? 0) |}.
Proof.
  intros HM. induction k as [|k IH].
  - cbn [Nat.iter]. rewrite shr_1_spec by exact HM.
    change (2 ^ Z.of_nat 1) with 2. change (2 ^ Z.of_nat 0) with 1.
    rewrite Z.div_1_r, Z.mod_1_r. reflexivity.
  - change (Nat.iter (S (S k)) shr_1 ?x) with (shr_1 (Nat.iter (S k) shr_1 x)).
    rewrite IH.
    assert (0 < 2 ^ Z.of_nat (S k)) as Hp by (apply Z.pow_pos_nonneg; lia).
    assert (0 < 2 ^ Z.of_nat k) as Hp' by (apply Z.pow_pos_nonneg; lia).
    rewrite shr_1_spec by (apply Z.div_pos; lia).
    f_equal.
    + rewrite Z.div_div by lia.
      rewrite (Nat2Z.inj_succ (S k)), (Z.pow_succ_r _ (Z.of_nat (S k))) by lia.
      f_equal. lia.
    + rewrite (mod_pow2_succ M k HM).
      pose proof (Z.mod_pos_bound M (2 ^ Z.of_nat k) Hp') as Hs.
      rewrite Zodd_mod.
      pose proof (Z.mod_pos_bound (M / 2 ^ Z.of_nat k) 2 ltac:(lia)) as Hb.
      destruct (Z.eqb_spec (M mod 2 ^ Z.of_nat k) 0) as [E0|E0];
        destruct (Z.eqb_spec ((M / 2 ^ Z.of_nat k) mod 2) 1) as [E1|E1];
        cbn [negb orb]; symmetry.
      * apply negb_true_iff, Z.eqb_neq. nia.
      * apply negb_false_iff, Z.eqb_eq. nia.
      * apply negb_true_iff, Z.eqb_neq. nia.
      * apply negb_true_iff, Z.eqb_neq. nia.
Qed.

(** Rounding to nearest after a shift by [n] bits: the result is within
    half a unit of the quotient. *)
Lemma round_shifted (M : Z) (n : positive) :
  0 <= M ->
  let mrs := SpecFloat.iter_pos shr_1 n {| shr_m := M; shr_r := false; shr_s := false |} in
  let q := round_nearest_even (shr_m mrs) (loc_of_shr_record mrs) in
  2 * Z.abs (q * 2 ^ Zpos n - M) <= 2 ^ Zpos n
  /\ M / 2 ^ Zpos n <= q <= M / 2 ^ Zpos n + 1.
Proof.
  intros HM. cbv zeta. rewrite iter_pos_nat.
  destruct (Pos2Nat.is_succ n) as [k Hk]. rewrite Hk.
  assert (Zpos n = Z.of_nat (S k)) as -> by lia.
  rewrite (shr_iter M k HM). cbn [shr_m].
  assert (0 < 2 ^ Z.of_nat k) as Hp by (apply Z.pow_pos_nonneg; lia).
  pose proof (mod_pow2_succ M k HM) as Hmod.
  assert (2 ^ Z.of_nat (S k) = 2 * 2 ^ Z.of_nat k) as Hpow
    by (rewrite Nat2Z.inj_succ, Z.pow_succ_r by lia; reflexivity).
  pose proof (Z.div_mod M (2 ^ Z.of_nat (S k)) ltac:(lia)) as Hdm.
  pose proof (Z.mod_pos_bound M (2 ^ Z.of_nat k) Hp) as Hs.
  pose proof (Z.mod_pos_bound (M / 2 ^ Z.of_nat k) 2 ltac:(lia)) as Hb.
  set (q0 := M / 2 ^ Z.of_nat (S k)) in *.
  set (sigma := M mod 2 ^ Z.of_nat k) in *.
  set (P := 2 ^ Z.of_nat k) in *.
  rewrite Zodd_mod.
  set (b := (M / P) mod 2) in *.
  rewrite Hpow in *. rewrite Hmod in Hdm.
  destruct (Z.eqb_spec b 1) as [E1|E1];
    destruct (Z.eqb_spec sigma 0) as [E0|E0];
    cbn [negb loc_of_shr_record round_nearest_even].
  - destruct (Z.even q0); nia.
  - nia.
  - nia.
  - nia.
Qed.

End RoundingFacts.

Module RoundAux.
Import JsNumber RoundingFacts.

Lemma fexp_normal (k : Z) : -1074 <= k - 53 -> fexp prec emax k = k - 53.
Proof. unfold fexp, emin, prec, emax. lia. Qed.

Lemma shr_none (mrs : shr_record) (e n : Z) : n <= 0 -> shr mrs e n = (mrs, e).
Proof. intros Hn. destruct n; [reflexivity|lia|reflexivity]. Qed.

(** Rounding a positive mantissa to 53 bits in the range of the normal
    numbers: a mantissa of at most 53 bits is kept; a longer one is
    shifted and rounded to nearest. *)
Lemma round_aux_normal (s : bool) (m : positive) (e : Z) :
  let D := Zpos (digits2_pos m) in
  -1074 <= D + e - 53 -> e <= 971 -> D + e <= 1023 ->
  exists (q : positive) (e' : Z),
    binary_round_aux prec emax s (Zpos m) e loc_Exact = S754_finite s q e'
    /\ ((D <= 53 /\ q = m /\ e' = e)
        \/ (53 < D /\ e + (D - 53) <= e' <= e + (D - 53) + 1
            /\ 2 ^ 52 <= Zpos q < 2 ^ 53
            /\ exists q',
                 Zpos q * 2 ^ (e' - e) = q' * 2 ^ (D - 53)
                 /\ 2 * Z.abs (q' * 2 ^ (D - 53) - Zpos m) <= 2 ^ (D - 53))).
Proof.
  intros D Hmin He Hmax. unfold binary_round_aux, shr_fexp.
  change (Zdigits2 (Zpos m)) with D.
  rewrite (fexp_normal (D + e)) by exact Hmin.
  replace (D + e - 53 - e) with (D - 53) by lia.
  change (shr_record_of_loc (Z.pos m) loc_Exact)
    with {| shr_m := Zpos m; shr_r := false; shr_s := false |}.
  destruct (Z.le_gt_cases D 53) as [Hsmall|Hlarge].
  - rewrite shr_none by lia.
    cbn [shr_m loc_of_shr_record round_nearest_even].
    change (Zdigits2 (Zpos m)) with D.
    rewrite (fexp_normal (D + e)) by exact Hmin.
    replace (D + e - 53 - e) with (D - 53) by lia.
    change (shr_record_of_loc (Z.pos m) loc_Exact)
      with {| shr_m := Zpos m; shr_r := false; shr_s := false |}.
    rewrite shr_none by lia. cbn [shr_m].
    change (emax - prec) with 971.
    destruct (Z.leb_spec e 971); [|lia].
    exists m, e. split; [reflexivity|]. left. auto.
  - destruct (D - 53) as [|n|n] eqn:En; [lia| |lia].
    cbn [shr].
    pose proof (round_shifted (Zpos m) n ltac:(lia)) as Hr. cbv zeta in Hr.
    set (mrs := SpecFloat.iter_pos shr_1 n
                  {| shr_m := Zpos m; shr_r := false; shr_s := false |}) in *.
    set (q' := round_nearest_even (shr_m mrs) (loc_of_shr_record mrs)) in *.
    destruct Hr as [Hnear Hq].
    pose proof (digits2_pos_bounds m) as [Blo Bhi]. fold D in Blo, Bhi.
    assert (0 < 2 ^ Zpos n) as Hp by (apply Z.pow_pos_nonneg; lia).
    assert (2 ^ D = 2 ^ 53 * 2 ^ Zpos n) as HD
      by (rewrite <- Z.pow_add_r by lia; f_equal; lia).
    assert (2 ^ (D - 1) = 2 ^ 52 * 2 ^ Zpos n) as HD1
      by (rewrite <- Z.pow_add_r by lia; f_equal; lia).
    pose proof (Z.div_mod (Zpos m) (2 ^ Zpos n) ltac:(lia)) as Hdm.
    pose proof (Z.mod_pos_bound (Zpos m) (2 ^ Zpos n) Hp) as Hmb.
    assert (2 ^ 52 <= q' <= 2 ^ 53) as Hrange.
    { set (N := 2 ^ Zpos n) in *. set (q0 := Zpos m / N) in *.
      set (r0 := Zpos m mod N) in *. rewrite HD in Bhi. rewrite HD1 in Blo.
      assert (2 ^ 52 <= q0 < 2 ^ 53) by nia. lia. }
    destruct q' as [|q|q] eqn:Eq'; [lia| |lia].
    destruct (Z.eq_dec (Zpos q) (2 ^ 53)) as [Hcarry|Hnocarry].
    + assert (Zdigits2 (Zpos q) = 54) as ->
        by (apply digits2_pos_unique; change (54 - 1) with 53;
            change (2 ^ 54) with (2 * 2 ^ 53); lia).
      rewrite (fexp_normal (54 + (e + Zpos n))) by lia.
      replace (54 + (e + Zpos n) - 53 - (e + Zpos n)) with 1 by lia.
      cbn [shr_record_of_loc shr SpecFloat.iter_pos].
      rewrite shr_1_spec by lia. cbn [shr_m].
      assert (Zpos q / 2 = 2 ^ 52) as Hhalf
        by (symmetry; apply (Z.div_unique _ _ _ 0);
            [lia|change (2 ^ 53) with (2 * 2 ^ 52) in Hcarry; lia]).
      destruct (Zpos q / 2) as [|h|h] eqn:Eh; [lia| |lia].
      change (emax - prec) with 971.
      destruct (Z.leb_spec (e + Zpos n + 1) 971); [|lia].
      exists h, (e + Zpos n + 1). split; [reflexivity|]. right.
      split; [lia|]. split; [lia|].
      split; [rewrite Hhalf; change (2 ^ 53) with (2 * 2 ^ 52); lia|].
      exists (Zpos q). split; [|exact Hnear].
      replace (e + Zpos n + 1 - e) with (Z.succ (Zpos n)) by lia.
      rewrite Z.pow_succ_r, Hhalf, Hcarry by lia.
      change (2 ^ 53) with (2 * 2 ^ 52). lia.
    + assert (Zdigits2 (Zpos q) = 53) as ->
        by (apply digits2_pos_unique; change (53 - 1) with 52; lia).
      rewrite (fexp_normal (53 + (e + Zpos n))) by lia.
      rewrite shr_none by lia.
      cbn [shr_record_of_loc shr_m].
      change (emax - prec) with 971.
      destruct (Z.leb_spec (e + Zpos n) 971); [|lia].
      exists q, (e + Zpos n). split; [reflexivity|]. right.
      split; [lia|]. split; [lia|]. split; [lia|].
      exists (Zpos q). split; [|exact Hnear].
      f_equal. f_equal. lia.
Qed.

End RoundAux.

Module OfZ.
Import JsNumber RoundingFacts RoundAux.

Lemma iter_xO (p d : positive) :
  Zpos (Pos.iter xO p d) = Zpos p * 2 ^ Zpos d.
Proof.
  induction d as [|d IH] using Pos.peano_ind.
  - cbn [Pos.iter]. lia.
  - rewrite Pos.iter_succ, Pos2Z.inj_xO, IH, Pos2Z.inj_succ, Z.pow_succ_r by lia.
    lia.
Qed.

(** The number read from a positive integer of at most [b] bits: a
    normal number, at most half a unit in its last place from the
    integer, and the integer itself below [2^53]. *)
Lemma of_Z_pos (b n : Z) :
  53 <= b <= 1023 -> 0 < n < 2 ^ b ->
  exists (m : positive) (e : Z),
    of_Z n = S754_finite false m e
    /\ 2 ^ 52 <= Zpos m < 2 ^ 53
    /\ -52 <= e <= b - 52
    /\ 2 ^ 53 * Z.abs (Zpos m * 2 ^ (e + 200) - n * 2 ^ 200) <= n * 2 ^ 200
    /\ (n < 2 ^ 53 -> Zpos m * 2 ^ (e + 200) = n * 2 ^ 200).
Proof.
  intros Hb [Hpos Hlt]. destruct n as [|p|p]; [lia| |lia].
  unfold of_Z, binary_normalize, binary_round.
  pose proof (digits2_pos_bounds p) as [Blo Bhi].
  set (D := Zpos (digits2_pos p)) in *.
  assert (1 <= D) as HD1 by (unfold D; lia).
  assert (D <= b) as HD.
  { destruct (Z.le_gt_cases D b) as [H|H]; [exact H|exfalso].
    assert (2 ^ b <= 2 ^ (D - 1)) by (apply Z.pow_le_mono_r; lia). lia. }
  rewrite (fexp_normal (D + 0)) by lia.
  unfold shl_align.
  destruct (D + 0 - 53 - 0) as [|d|d] eqn:Ed.
  - (* 53 bits *)
    destruct (round_aux_normal false p 0) as (q & e' & -> & Hcase);
      fold D; [lia|lia|lia|].
    fold D in Hcase. destruct Hcase as [(_ & -> & ->)|(Hbad & _)]; [|lia].
    exists p, 0. split; [reflexivity|].
    assert (D = 53) as E53 by lia. rewrite E53 in *.
    change (53 - 1) with 52 in Blo.
    split; [lia|]. split; [lia|]. split; [|reflexivity].
    rewrite Z.sub_diag. change (Z.abs 0) with 0. lia.
  - (* more than 53 bits *)
    destruct (round_aux_normal false p 0) as (q & e' & -> & Hcase);
      fold D; [lia|lia|lia|].
    fold D in Hcase.
    destruct Hcase as [(Hbad & _)|(_ & He' & Hq & q' & Hval & Hnear)]; [lia|].
    exists q, e'. split; [reflexivity|]. split; [exact Hq|]. split; [lia|].
    replace (D - 53) with (Zpos d) in * by lia.
    rewrite Z.sub_0_r in Hval.
    assert (2 ^ (e' + 200) = 2 ^ e' * 2 ^ 200) as ->
      by (apply Z.pow_add_r; lia).
    assert (2 ^ (D - 1) = 2 ^ 52 * 2 ^ Zpos d) as HDd
      by (rewrite <- Z.pow_add_r by lia; f_equal; lia).
    assert (2 <= 2 ^ Zpos d)
      by (change 2 with (2 ^ 1) at 1; apply Z.pow_le_mono_r; lia).
    assert (2 ^ 53 <= Zpos p).
    { rewrite HDd in Blo. change (2 ^ 53) with (2 ^ 52 * 2). nia. }
    split; [|lia].
    rewrite Z.mul_assoc, Hval, <- Z.mul_sub_distr_r, Z.abs_mul.
    rewrite (Z.abs_eq (2 ^ 200)) by lia.
    rewrite Z.mul_assoc. apply Z.mul_le_mono_nonneg_r; [lia|].
    rewrite HDd in Blo. change (2 ^ 53) with (2 ^ 52 * 2). nia.
  - (* fewer than 53 bits *)
    assert (Zpos d = 53 - D) as Hd by lia.
    pose proof (iter_xO p d) as Hmz. rewrite Hd in Hmz.
    set (mz := Pos.iter xO p d) in *.
    assert (2 ^ 52 = 2 ^ (D - 1) * 2 ^ (53 - D)) as H52
      by (rewrite <- Z.pow_add_r by lia; f_equal; lia).
    assert (2 ^ 53 = 2 ^ D * 2 ^ (53 - D)) as H53
      by (rewrite <- Z.pow_add_r by lia; f_equal; lia).
    assert (0 < 2 ^ (53 - D)) by (apply Z.pow_pos_nonneg; lia).
    assert (2 ^ 52 <= Zpos mz < 2 ^ 53) as Hmzb by (rewrite H52, H53, Hmz; nia).
    assert (Zpos (digits2_pos mz) = 53) as Hdig
      by (apply digits2_pos_unique; change (53 - 1) with 52; exact Hmzb).
    destruct (round_aux_normal false mz (D + 0 - 53)) as (q & e' & -> & Hcase);
      rewrite ?Hdig; [lia|lia|lia|].
    rewrite Hdig in Hcase.
    destruct Hcase as [(_ & -> & ->)|(Hbad & _)]; [|lia].
    exists mz, (D + 0 - 53). split; [reflexivity|]. split; [exact Hmzb|].
    split; [lia|].
    assert (Zpos mz * 2 ^ (D + 0 - 53 + 200) = Zpos p * 2 ^ 200) as Hexact.
    { rewrite Hmz, <- Z.mul_assoc, <- Z.pow_add_r by lia. do 2 f_equal. lia. }
    rewrite Hexact, Z.sub_diag. change (Z.abs 0) with 0. split; [lia|reflexivity].
Qed.

End OfZ.

Module Margin.
Import JsNumber RoundingFacts RoundAux OfZ.

(** [1 - slippage] is the number [8556839292003942 * 2^-53], and
    [20 * 8556839292003942 = 19 * 2^53 - 8]: it is below 95 percent by
    [2^-51 / 5]. *)
Lemma one_minus_slippage :
  sub (of_Z 1) slippage = S754_finite false 8556839292003942 (-53).
Proof. vm_compute. reflexivity. Qed.

(** The product of a normal number and [1 - slippage]: the exact product
    [mx * 8556839292003942 * 2^(ex - 53)] has 105 or 106 bits, and is
    rounded to nearest at 53 bits. *)
Lemma mul_one_minus_slippage (mx : positive) (ex : Z) :
  2 ^ 52 <= Zpos mx < 2 ^ 53 -> -52 <= ex <= 948 ->
  exists (my : positive) (ey : Z) (q' n : Z),
    mul (S754_finite false mx ex) (sub (of_Z 1) slippage)
    = S754_finite false my ey
    /\ 2 ^ 52 <= Zpos my < 2 ^ 53
    /\ (n = 52 \/ n = 53)
    /\ ex - 53 + n <= ey <= ex - 53 + n + 1
    /\ 2 ^ (n + 52) <= Zpos mx * 8556839292003942 < 2 ^ (n + 53)
    /\ Zpos my * 2 ^ (ey + 200) = q' * 2 ^ n * 2 ^ (ex + 147)
    /\ 2 * Z.abs (q' * 2 ^ n - Zpos mx * 8556839292003942) <= 2 ^ n.
Proof.
  intros Hmx Hex. rewrite one_minus_slippage. unfold mul, SFmul.
  change (xorb false false) with false.
  set (P := (mx * 8556839292003942)%positive).
  assert (Zpos P = Zpos mx * 8556839292003942) as HP by reflexivity.
  rewrite <- HP.
  assert (2 ^ 104 <= Zpos P < 2 ^ 106) as HPb by (rewrite HP; lia).
  assert (exists n, (n = 52 \/ n = 53) /\ Zpos (digits2_pos P) = n + 53
                    /\ 2 ^ (n + 52) <= Zpos P < 2 ^ (n + 53))
    as (n & Hn & Hdig & HPn).
  { destruct (Z.lt_ge_cases (Zpos P) (2 ^ 105)) as [Hlt|Hge].
    - exists 52. split; [auto|]. split; [|simpl (52 + _); lia].
      apply digits2_pos_unique. simpl (52 + 53 - 1). simpl (52 + 53). lia.
    - exists 53. split; [auto|]. split; [|simpl (53 + _); lia].
      apply digits2_pos_unique. simpl (53 + 53 - 1). simpl (53 + 53). lia. }
  destruct (round_aux_normal false P (ex + -53)) as (q & e' & -> & Hcase);
    rewrite ?Hdig; [lia|lia|lia|].
  rewrite Hdig in Hcase.
  destruct Hcase as [(Hbad & _)|(_ & He' & Hq & q' & Hval & Hnear)]; [lia|].
  replace (n + 53 - 53) with n in * by lia.
  exists q, e', q', n. split; [reflexivity|]. split; [exact Hq|].
  split; [exact Hn|]. split; [lia|]. split; [exact HPn|]. split; [|exact Hnear].
  rewrite <- Hval, <- Z.mul_assoc, <- Z.pow_add_r by lia. do 2 f_equal. lia.
Qed.

End Margin.

Module RoundFacts.
Import JsNumber.

(** [Math.round] of a positive number is the floor of the number plus one
    half; the value [m * 2^e] is counted in units of [2^-200]. *)
Lemma round_floor (m : positive) (e : Z) :
  -200 <= e ->
  let v := round (S754_finite false m e) in
  2 * v * 2 ^ 200 <= 2 * (Zpos m * 2 ^ (e + 200)) + 2 ^ 200
  /\ 2 * (Zpos m * 2 ^ (e + 200)) + 2 ^ 200 < 2 * (v + 1) * 2 ^ 200.
Proof.
  intros He. cbv zeta. unfold round, signed.
  destruct (Z.leb_spec 0 e) as [Hpos|Hneg].
  - assert (2 ^ (e + 200) = 2 ^ e * 2 ^ 200) as -> by (apply Z.pow_add_r; lia).
    assert (0 < 2 ^ 200) by (apply Z.pow_pos_nonneg; lia).
    set (S := 2 ^ 200) in *. nia.
  - assert (0 < 2 ^ (- e)) as HA by (apply Z.pow_pos_nonneg; lia).
    assert (0 < 2 ^ (e + 200)) as HW by (apply Z.pow_pos_nonneg; lia).
    assert (2 ^ (1 - e) = 2 * 2 ^ (- e)) as H2A
      by (replace (1 - e) with (Z.succ (- e)) by lia;
          apply Z.pow_succ_r; lia).
    assert (2 ^ 200 = 2 ^ (- e) * 2 ^ (e + 200)) as HS
      by (rewrite <- Z.pow_add_r by lia; f_equal; lia).
    rewrite H2A.
    pose proof (Z.div_mod (2 * Zpos m + 2 ^ (- e)) (2 * 2 ^ (- e)) ltac:(lia))
      as Hdm.
    pose proof (Z.mod_pos_bound (2 * Zpos m + 2 ^ (- e)) (2 * 2 ^ (- e))
                  ltac:(lia)) as Hmb.
    rewrite HS.
    set (v := (2 * Zpos m + 2 ^ (- e)) / (2 * 2 ^ (- e))) in *.
    set (A := 2 ^ (- e)) in *. set (Wt := 2 ^ (e + 200)) in *.
    set (r := (2 * Zpos m + A) mod (2 * A)) in *.
    nia.
Qed.

End RoundFacts.

Module ShortestFacts.
Import Decimal DecimalFacts JsNumber NumberToString RoundingFacts RoundAux OfZ.

(** The digits chosen for [v] are those of [v], or of an integer that
    reads as [v] and is not above [v] by more than one unit of the first
    digit. *)
Lemma shortest_from_spec (fuel k n : nat) (v : Z) :
  0 <= v -> (1 <= k)%nat ->
  let T := shortest_from fuel k n v in
  T = v \/ (reads_as T v = true /\ 0 <= T <= v + 10 ^ Z.of_nat (n - 1)).
Proof.
  intros Hv. revert k. induction fuel as [|fuel IH]; intros k Hk; cbv zeta.
  - left. reflexivity.
  - cbn [shortest_from]. cbv zeta.
    assert (0 < 10 ^ Z.of_nat (n - k)) as Hp by (apply Z.pow_pos_nonneg; lia).
    assert (10 ^ Z.of_nat (n - k) <= 10 ^ Z.of_nat (n - 1)) as Hle
      by (apply Z.pow_le_mono_r; lia).
    pose proof (Z.div_mod v (10 ^ Z.of_nat (n - k)) ltac:(lia)) as Hdm.
    pose proof (Z.mod_pos_bound v (10 ^ Z.of_nat (n - k)) Hp) as Hmb.
    assert (0 <= v / 10 ^ Z.of_nat (n - k)) as Hq by (apply Z.div_pos; lia).
    set (p := 10 ^ Z.of_nat (n - k)) in *.
    set (lo := v / p * p).
    assert (0 <= lo <= v) as Hlo by (unfold lo; nia).
    destruct (reads_as lo v) eqn:Rlo; destruct (reads_as (lo + p) v) eqn:Rhi;
      cbn [andb].
    + destruct (v - lo <? lo + p - v); [right; split; [exact Rlo|lia]|].
      destruct (lo + p - v <? v - lo); [right; split; [exact Rhi|lia]|].
      destruct (Z.even (v / p)); right; split; (assumption || lia).
    + right. split; [exact Rlo|lia].
    + right. split; [exact Rhi|lia].
    + apply (IH (S k)). lia.
Qed.

(** A positive integer has no fewer digits than [nat_toString] writes. *)
Lemma nat_toString_least (v : Z) :
  1 <= v -> 10 ^ Z.of_nat (length (nat_toString v) - 1) <= v.
Proof.
  intros Hv. unfold nat_toString. rewrite digits_of_length.
  set (fuel := S (Z.to_nat (Z.log2 v))).
  pose proof (num_digits_pos fuel v) as Hn.
  destruct (Z.le_gt_cases (10 ^ Z.of_nat (num_digits fuel v - 1)) v)
    as [H|H]; [exact H|exfalso].
  destruct (num_digits fuel v) as [|[|n]] eqn:En; [lia|simpl in H; lia|].
  pose proof (num_digits_least fuel v (S n) ltac:(lia)) as Hl.
  rewrite En in Hl. replace (S (S n) - 1)%nat with (S n) in H by lia. lia.
Qed.

(** The digits chosen for a positive integer [v] below [2^1022] denote a
    positive integer that is read as the same number as [v]: the two are
    within [2^-53] of that number. *)
Lemma shortest_reads (v : Z) :
  0 < v < 2 ^ 1022 ->
  let T := shortest v in
  0 < T
  /\ (T = v
      \/ exists U,
           2 ^ 53 * Z.abs (U - T * 2 ^ 200) <= T * 2 ^ 200
           /\ 2 ^ 53 * Z.abs (U - v * 2 ^ 200) <= v * 2 ^ 200).
Proof.
  intros Hv. cbv zeta. unfold shortest.
  pose proof (shortest_from_spec 17 1 (length (nat_toString v)) v
                ltac:(lia) ltac:(lia)) as Hs. cbv zeta in Hs.
  pose proof (nat_toString_least v ltac:(lia)) as Hl.
  set (T := shortest_from 17 1 (length (nat_toString v)) v) in *.
  destruct Hs as [->|[Hr Hb]]; [split; [lia|left; reflexivity]|].
  unfold reads_as in Hr. apply bool_decide_eq_true_1 in Hr.
  destruct (of_Z_pos 1023 v ltac:(lia)) as (m & e & Hv_eq & _ & _ & Hvb & _).
  { split; [lia|]. change (2 ^ 1023) with (2 * 2 ^ 1022). lia. }
  assert (0 < T) as HT.
  { destruct (Z.eq_dec T 0) as [E0|E0]; [|lia].
    rewrite E0, Hv_eq in Hr. discriminate Hr. }
  split; [exact HT|]. right.
  destruct (of_Z_pos 1023 T ltac:(lia)) as (m' & e' & HT_eq & _ & _ & HTb & _).
  { split; [lia|]. change (2 ^ 1023) with (2 * 2 ^ 1022). lia. }
  rewrite HT_eq, Hv_eq in Hr. injection Hr as -> ->.
  exists (Zpos m * 2 ^ (e + 200)). split; assumption.
Qed.

End ShortestFacts.

Module BuyAmount.
Import Decimal DecimalFacts JsNumber NumberToString RoundingFacts RoundAux OfZ
  Margin RoundFacts ShortestFacts.

(** The steps of [buyAmountText] on a positive quoted amount below
    [2^1000]: the number read from the amount, its product with
    [1 - slippage], the integer [Math.round] gives, and the digits written
    for it. *)
Lemma buyAmountText_steps (E : Z) :
  0 < E < 2 ^ 1000 ->
  exists (mx my : positive) (ex ey q' n v : Z),
    of_Z E = S754_finite false mx ex
    /\ 2 ^ 52 <= Zpos mx < 2 ^ 53 /\ -52 <= ex <= 948
    /\ 2 ^ 53 * Z.abs (Zpos mx * 2 ^ (ex + 200) - E * 2 ^ 200) <= E * 2 ^ 200
    /\ (E < 2 ^ 53 -> Zpos mx * 2 ^ (ex + 200) = E * 2 ^ 200)
    /\ (n = 52 \/ n = 53)
    /\ 2 ^ (n + 52) <= Zpos mx * 8556839292003942 < 2 ^ (n + 53)
    /\ Zpos my * 2 ^ (ey + 200) = q' * 2 ^ n * 2 ^ (ex + 147)
    /\ 2 * Z.abs (q' * 2 ^ n - Zpos mx * 8556839292003942) <= 2 ^ n
    /\ 2 * v * 2 ^ 200 <= 2 * (Zpos my * 2 ^ (ey + 200)) + 2 ^ 200
    /\ 2 * (Zpos my * 2 ^ (ey + 200)) + 2 ^ 200 < 2 * (v + 1) * 2 ^ 200
    /\ buyAmountText E = integer_toString v.
Proof.
  intros HE.
  destruct (of_Z_pos 1000 E ltac:(lia) HE)
    as (mx & ex & Hx & Hmx & Hex & Hxb & Hxe).
  destruct (mul_one_minus_slippage mx ex Hmx ltac:(lia))
    as (my & ey & q' & n & Hy & Hmy & Hn & Hey & HP & HY & Hnear).
  pose proof (round_floor my ey ltac:(lia)) as Hv. cbv zeta in Hv.
  exists mx, my, ex, ey, q', n, (round (S754_finite false my ey)).
  repeat (split; [first [assumption|exact (proj1 Hv)|exact (proj2 Hv)|lia]|]).
  unfold buyAmountText. rewrite Hx, Hy. reflexivity.
Qed.

(** The text written is the text of the integer [buyAmount_of] gives. *)
Lemma buyAmountText_round (E : Z) :
  0 < E < 2 ^ 1000 -> buyAmountText E = integer_toString (buyAmount_of E).
Proof.
  intros HE.
  destruct (of_Z_pos 1000 E ltac:(lia) HE) as (mx & ex & Hx & Hmx & Hex & _).
  destruct (mul_one_minus_slippage mx ex Hmx ltac:(lia))
    as (my & ey & q' & n & Hy & _).
  unfold buyAmountText, buyAmount_of. rewrite Hx, Hy. reflexivity.
Qed.

(** The rounding of the product, relative to the exact product
    [mx * 8556839292003942 * 2^(ex - 53)], in units of [2^-200]. *)
Lemma product_error (mx : Z) (ex q' n Y : Z) :
  -52 <= ex -> (n = 52 \/ n = 53) ->
  2 ^ (n + 52) <= mx * 8556839292003942 ->
  Y = q' * 2 ^ n * 2 ^ (ex + 147) ->
  2 * Z.abs (q' * 2 ^ n - mx * 8556839292003942) <= 2 ^ n ->
  exists I,
    2 ^ 53 * I = 8556839292003942 * (mx * 2 ^ (ex + 200))
    /\ 2 ^ 53 * Z.abs (Y - I) <= I.
Proof.
  intros Hex Hn HP -> Hnear.
  assert (0 < 2 ^ (ex + 147)) as HW by (apply Z.pow_pos_nonneg; lia).
  assert (2 ^ (ex + 200) = 2 ^ 53 * 2 ^ (ex + 147)) as ->
    by (rewrite <- Z.pow_add_r by lia; f_equal; lia).
  assert (2 ^ (n + 52) = 2 ^ 52 * 2 ^ n) as HN
    by (destruct Hn as [-> | ->]; reflexivity).
  rewrite HN in HP.
  set (Wx := 2 ^ (ex + 147)) in *. set (N := 2 ^ n) in *.
  exists (mx * 8556839292003942 * Wx). split; [ring|].
  replace (q' * N * Wx - mx * 8556839292003942 * Wx)
    with ((q' * N - mx * 8556839292003942) * Wx) by ring.
  rewrite Z.abs_mul, (Z.abs_eq Wx) by lia.
  rewrite Z.mul_assoc. apply Z.mul_le_mono_nonneg_r; [lia|].
  change (2 ^ 53) with (2 ^ 52 * 2). lia.
Qed.

(** The buy amount [sendOrder] writes for a positive quoted amount [E]
    below [2^1000] is the text of a positive integer [T] within
    [2^-50 * 0.95 E + 1] of [0.95 E]. *)
Lemma buyAmountText_margin (E : Z) :
  0 < E < 2 ^ 1000 ->
  exists T,
    buyAmountText E = string_of_list_ascii (render T)
    /\ 0 < T
    /\ 2 ^ 50 * Z.abs (20 * T - 19 * E) <= 19 * E + 20 * 2 ^ 50.
Proof.
  intros HE.
  destruct (buyAmountText_steps E HE)
    as (mx & my & ex & ey & q' & n & v & _ & Hmx & Hex & Hxb & _ & Hn & HP
        & HY & Hnear & Hv1 & Hv2 & Htext).
  destruct (product_error (Zpos mx) ex q' n _ ltac:(lia) Hn (proj1 HP) HY Hnear)
    as (I & HIX & HYI).
  set (X := Zpos mx * 2 ^ (ex + 200)) in *.
  set (Y := Zpos my * 2 ^ (ey + 200)) in *.
  assert (0 < v < 2 ^ 1022) as Hv by lia.
  destruct (shortest_reads v Hv) as [HT Hread]. cbv zeta in HT, Hread.
  exists (shortest v). split; [|split; [exact HT|]].
  - rewrite Htext. unfold integer_toString.
    destruct (Z.eqb_spec v 0); [lia|]. destruct (Z.ltb_spec v 0); [lia|].
    reflexivity.
  - set (T := shortest v) in *.
    destruct Hread as [->|(U & HU1 & HU2)]; lia.
Qed.

End BuyAmount.

Module BuyAmountExact.
Import Decimal DecimalFacts JsNumber NumberToString RoundingFacts RoundAux OfZ
  Margin RoundFacts ShortestFacts BuyAmount.

(** Below [2^53] two integers that read as the same number are equal. *)
Lemma of_Z_inj_small (a v : Z) :
  0 <= a < 2 ^ 53 -> 0 < v < 2 ^ 53 -> of_Z a = of_Z v -> a = v.
Proof.
  intros Ha Hv Heq.
  destruct (of_Z_pos 53 v ltac:(lia) Hv) as (m & e & Hv_eq & _ & _ & _ & Hve).
  destruct (Z.eq_dec a 0) as [->|Hnz].
  - rewrite Hv_eq in Heq. discriminate Heq.
  - destruct (of_Z_pos 53 a ltac:(lia) ltac:(lia))
      as (m' & e' & Ha_eq & _ & _ & _ & Hae).
    rewrite Ha_eq, Hv_eq in Heq. injection Heq as -> ->.
    specialize (Hve ltac:(lia)). specialize (Hae ltac:(lia)). lia.
Qed.

Lemma shortest_from_small (fuel k n : nat) (v : Z) :
  0 < v -> 2 * v < 2 ^ 53 -> 10 ^ Z.of_nat (n - 1) <= v -> (1 <= k)%nat ->
  shortest_from fuel k n v = v.
Proof.
  intros Hv Hsmall Hn. revert k.
  induction fuel as [|fuel IH]; intros k Hk; [reflexivity|].
  cbn [shortest_from]. cbv zeta.
  assert (0 < 10 ^ Z.of_nat (n - k)) as Hp by (apply Z.pow_pos_nonneg; lia).
  assert (10 ^ Z.of_nat (n - k) <= 10 ^ Z.of_nat (n - 1)) as Hle
    by (apply Z.pow_le_mono_r; lia).
  pose proof (Z.div_mod v (10 ^ Z.of_nat (n - k)) ltac:(lia)) as Hdm.
  pose proof (Z.mod_pos_bound v (10 ^ Z.of_nat (n - k)) Hp) as Hmb.
  assert (0 <= v / 10 ^ Z.of_nat (n - k)) as Hq by (apply Z.div_pos; lia).
  set (p := 10 ^ Z.of_nat (n - k)) in *.
  set (lo := v / p * p).
  assert (0 <= lo <= v) as Hlo by (unfold lo; nia).
  assert (v < lo + p) as Hhi by (unfold lo; nia).
  assert (reads_as (lo + p) v = false) as ->.
  { unfold reads_as. apply bool_decide_eq_false_2. intros Heq.
    apply of_Z_inj_small in Heq; lia. }
  rewrite andb_false_r.
  destruct (Z.eq_dec lo v) as [Elo|Nlo].
  - rewrite Elo. unfold reads_as.
    rewrite bool_decide_eq_true_2 by reflexivity. reflexivity.
  - assert (reads_as lo v = false) as ->.
    { unfold reads_as. apply bool_decide_eq_false_2. intros Heq.
      apply of_Z_inj_small in Heq; lia. }
    apply IH. lia.
Qed.

(** Below [2^52] the text written for an integer is its decimal
    numeral. *)
Lemma integer_toString_small (v : Z) :
  0 <= v -> 2 * v < 2 ^ 53 ->
  integer_toString v = string_of_list_ascii (toString v).
Proof.
  intros Hv Hsmall. unfold integer_toString.
  rewrite toString_nonneg by exact Hv.
  destruct (Z.eqb_spec v 0) as [->|Hnz]; [reflexivity|].
  destruct (Z.ltb_spec v 0); [lia|].
  unfold shortest. rewrite shortest_from_small;
    [|lia|exact Hsmall|apply nat_toString_least; lia|lia].
  unfold render. destruct (Z.ltb_spec v (10 ^ 21)) as [_|Hbig]; [reflexivity|].
  exfalso. assert (2 ^ 53 < 10 ^ 21) by reflexivity. lia.
Qed.

(** A quoted amount below [2^48] whose 95 percent ends in one half, and
    the mantissa of the number read from it. *)
Lemma tie_product (E k mx ex q' n : Z) :
  0 < E < 2 ^ 48 -> 19 * E + 10 = 20 * k ->
  2 ^ 52 <= mx < 2 ^ 53 -> -52 <= ex ->
  mx * 2 ^ (ex + 200) = E * 2 ^ 200 ->
  (n = 52 \/ n = 53) ->
  2 ^ (n + 52) <= mx * 8556839292003942 < 2 ^ (n + 53) ->
  2 * Z.abs (q' * 2 ^ n - mx * 8556839292003942) <= 2 ^ n ->
  2 * (q' * 2 ^ n * 2 ^ (ex + 147)) = (2 * k - 1) * 2 ^ 200.
Proof.
  intros HE Htie Hmx Hex HX Hn HP Hnear.
  assert (0 < 2 ^ (ex + 200)) as HB by (apply Z.pow_pos_nonneg; lia).
  assert (ex + 200 < 196) as Hexs.
  { apply (Z.pow_lt_mono_r_iff 2); [lia|lia|].
    change (2 ^ 196) with (2 ^ 200 / 2 ^ 4).
    assert (2 ^ 200 = 2 ^ 196 * 2 ^ 4) as H200 by reflexivity.
    assert (2 ^ 52 * 2 ^ (ex + 200) < 2 ^ 48 * 2 ^ 200) by nia.
    change (2 ^ 200 / 2 ^ 4) with (2 ^ 196).
    change (2 ^ 52) with (2 ^ 48 * 2 ^ 4) in H.
    rewrite H200 in H. set (B := 2 ^ (ex + 200)) in *. lia. }
  assert (2 ^ 200 = 2 * 2 ^ (- ex - 1) * 2 ^ (ex + 200)) as HS.
  { rewrite <- (Z.pow_succ_r 2 (- ex - 1)), <- Z.pow_add_r by lia.
    f_equal. lia. }
  assert (0 < 2 ^ (- ex - 1)) as HA by (apply Z.pow_pos_nonneg; lia).
  assert (2 ^ (ex + 200) = 2 ^ 53 * 2 ^ (ex + 147)) as HBW
    by (rewrite <- Z.pow_add_r by lia; f_equal; lia).
  assert (0 < 2 ^ (ex + 147)) as HW by (apply Z.pow_pos_nonneg; lia).
  set (A' := 2 ^ (- ex - 1)) in *. set (B := 2 ^ (ex + 200)) in *.
  set (Wx := 2 ^ (ex + 147)) in *.
  assert (mx = E * (2 * A')) as Hmx_eq.
  { rewrite HS in HX. apply (Z.mul_reg_r _ _ B); [lia|]. rewrite HX. ring. }
  set (t := E - k). assert (E = 20 * t + 10) as HEt by (unfold t; lia).
  set (Zt := (2 * t + 1) * A').
  assert (mx * 8556839292003942 = Zt * (19 * 2 ^ 53 - 8)) as HPz.
  { rewrite Hmx_eq, HEt. unfold Zt.
    change (19 * 2 ^ 53 - 8) with (20 * 8556839292003942). ring. }
  rewrite HPz in HP, Hnear.
  assert (q' * 2 ^ n = 19 * Zt * 2 ^ 53) as Hq.
  { destruct Hn as [-> | ->].
    - change (2 ^ (52 + 53)) with (2 ^ 52 * 2 ^ 53) in HP.
      change (2 ^ 53) with (2 * 2 ^ 52) in *.
      set (N := 2 ^ 52) in *. assert (0 < N) by reflexivity. 
      assert (N = 4503599627370496) as HN by reflexivity.
      clearbody N Zt. subst N. lia.
    - change (2 ^ (53 + 53)) with (2 ^ 53 * 2 ^ 53) in HP.
      set (N := 2 ^ 53) in *.
      assert (N = 9007199254740992) as HN by reflexivity.
      clearbody N Zt. subst N. lia. }
  rewrite Hq, HS, HBW.
  replace (2 * k - 1) with (19 * (2 * t + 1)) by (unfold t; lia).
  unfold Zt. ring.
Qed.

(** For a quoted amount below [2^48] the order executor's buy amount is
    the integer nearest to 95 percent of it, a half going up. *)
Lemma buyAmountText_exact (E : Z) :
  0 <= E < 2 ^ 48 ->
  buyAmountText E
  = string_of_list_ascii (Decimal.toString ((19 * E + 10) / 20)).
Proof.
  intros HE. destruct (Z.eq_dec E 0) as [->|Hnz]; [vm_compute; reflexivity|].
  destruct (buyAmountText_steps E)
    as (mx & my & ex & ey & q' & n & v & _ & Hmx & Hex & Hxb & Hxe & Hn & HP
        & HY & Hnear & Hv1 & Hv2 & Htext).
  { split; [lia|]. assert (2 ^ 48 < 2 ^ 1000) by reflexivity. lia. }
  specialize (Hxe ltac:(assert (2 ^ 48 < 2 ^ 53) by reflexivity; lia)).
  pose proof (Z.div_mod (19 * E + 10) 20 ltac:(lia)) as Hdm.
  pose proof (Z.mod_pos_bound (19 * E + 10) 20 ltac:(lia)) as Hmb.
  set (k := (19 * E + 10) / 20) in *.
  assert (v = k) as ->.
  { destruct (Z.eq_dec ((19 * E + 10) mod 20) 0) as [Htie|Hnotie].
    - pose proof (tie_product E k (Zpos mx) ex q' n ltac:(lia) ltac:(lia)
                    Hmx ltac:(lia) Hxe Hn HP Hnear) as Hexact.
      rewrite <- HY in Hexact.
      set (Y := Zpos my * 2 ^ (ey + 200)) in *. lia.
    - destruct (product_error (Zpos mx) ex q' n _ ltac:(lia) Hn (proj1 HP)
                  HY Hnear) as (I & HIX & HYI).
      rewrite Hxe in HIX.
      set (Y := Zpos my * 2 ^ (ey + 200)) in *. lia. }
  rewrite Htext. apply integer_toString_small; [lia|].
  assert (2 ^ 48 * 2 < 2 ^ 52) by reflexivity. lia.
Qed.

End BuyAmountExact.

(** ** The order executor *)

Section OrderSteps.
Context {W : Type} (env : Env W).

Lemma convertAmount_inv (chain : string) (chainId : ChainId)
    (token : Address) (amount : string) (s : State W) v s' :
  convertAmount chain chainId token amount s = (inr v, s') ->
  s' = s
  /\ exists chainDecimals decimals,
       js_get_num decimalConverter chainId = Some chainDecimals
       /\ chainDecimals !! token = Some decimals
       /\ Units.parseUnits amount decimals = Some v.
Proof.
  unfold convertAmount, js_get, ret, throw.
  destruct (js_get_num decimalConverter chainId) as [tbl|]; [|discriminate].
  match goal with
  | |- context [@lookup ?K ?A ?M ?I token tbl] =>
      destruct (@lookup K A M I token tbl) as [d|] eqn:Ed
  end.
  - destruct (Units.parseUnits amount d) as [n|] eqn:Ep; [|discriminate].
    intros [= <- <-]. split; [reflexivity|]. exists tbl, d. auto.
  - case_bool_decide; discriminate.
Qed.

Lemma checkAllowance_inv (targetContract : option Address)
    (tokenContract : Address) (requiredAmount : Z) (s : State W) s' :
  checkAllowanceAndApproveIfNecessary env targetContract tokenContract
    requiredAmount s = (inr tt, s') ->
  exists owner approval,
    trace s' = trace s
               ++ [EvGetAddress; EvAllowance tokenContract owner targetContract]
               ++ approval
    /\ (approval = []
        \/ exists tx,
             approval = [EvApprove tokenContract targetContract MaxUint256;
                         EvWait tx]).
Proof.
  unfold checkAllowanceAndApproveIfNecessary. intros Hrun.
  apply bind_inr_inv in Hrun as (owner & sa & Hown & Hrun).
  apply call_inv in Hown as [_ Ta].
  apply bind_inr_inv in Hrun as (existing & sb & Hall & Hrun).
  apply call_inv in Hall as [_ Tb].
  exists owner. destruct (requiredAmount <=? existing).
  - injection Hrun as <-. exists []. split; [|left; reflexivity].
    rewrite Tb, Ta, <- app_assoc. reflexivity.
  - apply bind_inr_inv in Hrun as (tx & sc & Happ & Hrun).
    apply call_inv in Happ as [_ Tc]. apply call_inv in Hrun as [_ Td].
    eexists. split; [|right; exists tx; reflexivity].
    rewrite Td, Tc, Tb, Ta, <- !app_assoc. reflexivity.
Qed.

Lemma sendOrder_catch_throws {A : Type} (error : JsError) (s : State W) :
  exists e', @sendOrder_catch W A error s = (inl e', s).
Proof.
  unfold sendOrder_catch, throw. destruct (body error) as [b|].
  - case_bool_decide; eexists; reflexivity.
  - eexists; reflexivity.
Qed.

End OrderSteps.

(** The order executor returns the identifier the order book answers
    whenever each of its calls succeeds. *)
Lemma sendOrder_returns {W : Type} (env : Env W) (wallet : Wallet)
    (wallets : list Wallet) (chain : string) (chainId : ChainId)
    (fromAsset toAsset : Address) (amount : string)
    (chainDecimals : gmap string nat) (decimals : nat) (amountDecimals : Z)
    (s : State W) (w1 w2 w3 : W) (fromAddress : Address) (s5 : State W)
    (r : QuoteResponse) (w6 : W) (sig : string) (w7 : W)
    (orderId : string) (w8 : W) :
  let vaultAddr :=
    js_get_num (COW_PROTOCOL_VAULT_RELAYER_ADDRESS env) chainId in
  let quoteRequest :=
    {| req_sellToken := fromAsset; req_buyToken := toAsset;
       req_from := fromAddress; req_receiver := fromAddress;
       req_sellAmountBeforeFee := amountDecimals; req_kind := "sell" |} in
  let signed := adjustQuote (quote r) amountDecimals in
  let orderObj :=
    {| order := signed; signature := sig; signingScheme := "eip712";
       quoteId := id r; from := fromAddress |} in
  lookupChain chain = Some chainId ->
  switchChain env wallet chainId (world s) = (inr tt, w1) ->
  getEthersProvider env wallet w1 = (inr tt, w2) ->
  getAddress env w2 = (inr fromAddress, w3) ->
  convertAmount chain chainId fromAsset amount
    {| world := w3;
       trace := trace s ++ [EvSwitchChain wallet chainId;
                            EvGetEthersProvider wallet; EvGetAddress] |}
  = (inr amountDecimals,
     {| world := w3;
        trace := trace s ++ [EvSwitchChain wallet chainId;
                             EvGetEthersProvider wallet; EvGetAddress] |}) ->
  checkAllowanceAndApproveIfNecessary env vaultAddr fromAsset amountDecimals
    {| world := w3;
       trace := trace s ++ [EvSwitchChain wallet chainId;
                            EvGetEthersProvider wallet; EvGetAddress] |}
  = (inr tt, s5) ->
  getQuote env chainId quoteRequest (world s5) = (inr r, w6) ->
  signOrder env (withReceiver signed fromAddress) chainId w6 = (inr sig, w7) ->
  postOrder env chainId orderObj w7 = (inr orderId, w8) ->
  sendOrder env (wallet :: wallets) chain fromAsset toAsset amount s
  = (inr orderId,
     {| world := w8;
        trace := trace s5
                 ++ [EvGetQuote chainId quoteRequest;
                     EvSignOrder (withReceiver signed fromAddress) chainId;
                     EvSendOrder chainId orderObj] |}).
Proof.
  intros vaultAddr quoteRequest signed orderObj
    Hchain Hsw Hprov Haddr Hconv Hallow Hquote Hsign Hpost.
  unfold sendOrder. rewrite Hchain.
  erewrite bind_inr by (apply call_run; exact Hsw).
  erewrite bind_inr by (apply call_run; exact Hprov).
  erewrite bind_inr by (apply call_run; exact Haddr).
  cbn [world trace]. rewrite <- !app_assoc. cbn [app].
  erewrite bind_inr by exact Hconv.
  erewrite bind_inr by exact Hallow.
  apply try_catch_inr.
  erewrite bind_inr by (apply call_run; exact Hquote).
  erewrite bind_inr by (apply call_run; exact Hsign).
  erewrite call_run by exact Hpost.
  cbn [world trace]. rewrite <- !app_assoc. reflexivity.
Qed.

Lemma convertAmount_ok {W : Type} (chain : string) (chainId : ChainId)
    (token : string) (amount : string) (chainDecimals : gmap string nat)
    (decimals : nat) (v : Z) (st : State W) :
  js_get_num decimalConverter chainId = Some chainDecimals ->
  chainDecimals !! token = Some decimals ->
  Units.parseUnits amount decimals = Some v ->
  convertAmount chain chainId token amount st = (inr v, st).
Proof.
  intros Htbl Hd Hparse. unfold convertAmount, js_get.
  rewrite Htbl, Hd, Hparse. reflexivity.
Qed.

(** The allowance step in terms of the calls it makes. *)
Lemma checkAllowance_done {W : Type} (env : Env W)
    (targetContract : option Address) (tokenContract : Address)
    (requiredAmount : Z) (s s' : State W) :
  checkAllowanceAndApproveIfNecessary env targetContract tokenContract
    requiredAmount s = (inr tt, s')
  <-> exists owner w1 existing w2 approval,
        getAddress env (world s) = (inr owner, w1)
        /\ allowance env tokenContract owner targetContract w1
           = (inr existing, w2)
        /\ ((requiredAmount <= existing /\ approval = [] /\ world s' = w2)
            \/ (existing < requiredAmount
                /\ exists tx w3,
                     approve env tokenContract targetContract MaxUint256 w2
                     = (inr tx, w3)
                     /\ wait env tx w3 = (inr tt, world s')
                     /\ approval
                        = [EvApprove tokenContract targetContract MaxUint256;
                           EvWait tx]))
        /\ trace s'
           = trace s
             ++ [EvGetAddress; EvAllowance tokenContract owner targetContract]
             ++ approval.
Proof.
  unfold checkAllowanceAndApproveIfNecessary, bind, call, ret.
  cbn [world trace]. split.
  - destruct (getAddress env (world s)) as [[e|owner] w1] eqn:Hown;
      cbn [world trace]; [discriminate|].
    destruct (allowance env tokenContract owner targetContract w1)
      as [[e|existing] w2] eqn:Hall; cbn [world trace]; [discriminate|].
    destruct (Z.leb_spec requiredAmount existing) as [Hle|Hlt].
    + intros [= <-]. exists owner, w1, existing, w2, [].
      split; [reflexivity|]. split; [exact Hall|].
      split; [left; auto|]. cbn [trace]. rewrite <- app_assoc. reflexivity.
    + match goal with
      | |- context [approve env ?a ?b ?c ?d] =>
          destruct (approve env a b c d) as [[e|tx] w3] eqn:Happ
      end; cbn [world trace]; [discriminate|].
      destruct (wait env tx w3) as [[e|[]] w4] eqn:Hwait; [discriminate|].
      intros [= <-]. exists owner, w1, existing, w2. eexists.
      split; [reflexivity|]. split; [exact Hall|].
      split; [right; split; [exact Hlt|]; exists tx, w3; auto|].
      cbn [trace]. rewrite <- !app_assoc. reflexivity.
  - intros (owner & w1 & existing & w2 & approval & Hown & Hall & Hcase & Ht).
    rewrite Hown. cbn [world trace]. rewrite Hall. cbn [world trace].
    destruct Hcase as [(Hle & -> & Hw)|(Hlt & tx & w3 & Happ & Hwait & ->)].
    + destruct (Z.leb_spec requiredAmount existing); [|lia].
      destruct s' as [w' t']. cbn [world trace] in *. subst.
      rewrite <- app_assoc. reflexivity.
    + destruct (Z.leb_spec requiredAmount existing); [lia|].
      match goal with
      | |- context [approve env ?a ?b ?c ?d] =>
          replace (approve env a b c d) with (@inr JsError TxHash tx, w3)
      end.
      cbn [world trace]. rewrite Hwait.
      destruct s' as [w' t']. cbn [world trace] in *. subst.
      rewrite <- !app_assoc. reflexivity.
Qed.

(** Claim C4, amended.  [sendOrder] returns an order identifier exactly in
    the runs in which every call succeeds, and these calls are, in this
    order: chain switch, provider, signer address; the allowance for the
    relayer contract of the chain (address and allowance reads, then an
    approval and its wait when the allowance is smaller than the converted
    amount); only then the sell-side quote request for the converted
    amount; then the signature and the submission, whose answer is the
    identifier returned.  The order signed and submitted is the quote the
    order book answered with three fields rewritten: the fee is "0", the
    sell amount is the converted amount, and the buy amount is the text of
    [Math.round] of the quoted amount times [1 - 0.05] in double
    precision, which is the numeral of 95 percent of the quoted amount
    rounded to the nearest integer (a half going up) for a quoted amount
    below 2^48, and for every quoted amount below 2^1000 the text, in
    digits or exponent notation, of an integer within one plus the
    fraction 2^-50 of 95 percent of the quoted amount. *)
Theorem sendOrder_steps {W : Type} (env : Env W) (wallets : list Wallet)
    (chain : string) (fromAsset toAsset : Address) (amount : string)
    (s : State W) (orderId : string) (s' : State W) :
  sendOrder env wallets chain fromAsset toAsset amount s = (inr orderId, s')
  <-> exists wallet chainId chainDecimals decimals amountDecimals
             w1 w2 fromAddress w3 owner w4 existing w5 approval w6
             r w7 sig w8 w9,
        head wallets = Some wallet
        /\ lookupChain chain = Some chainId
        /\ js_get_num decimalConverter chainId = Some chainDecimals
        /\ chainDecimals !! fromAsset = Some decimals
        /\ Units.parseUnits amount decimals = Some amountDecimals
        /\ let vaultAddr :=
             js_get_num (COW_PROTOCOL_VAULT_RELAYER_ADDRESS env) chainId in
           let quoteRequest :=
             {| req_sellToken := fromAsset; req_buyToken := toAsset;
                req_from := fromAddress; req_receiver := fromAddress;
                req_sellAmountBeforeFee := amountDecimals;
                req_kind := "sell" |} in
           let quoted := buyAmount (quote r) in
           let signed : Quote string :=
             {| sellToken := sellToken (quote r);
                buyToken := buyToken (quote r);
                receiver := receiver (quote r);
                sellAmount :=
                  string_of_list_ascii (Decimal.toString amountDecimals);
                buyAmount := buyAmountText quoted;
                feeAmount := "0";
                validTo := validTo (quote r);
                appData := appData (quote r);
                kind := kind (quote r);
                partiallyFillable := partiallyFillable (quote r) |} in
           let toSign : Quote string :=
             {| sellToken := sellToken signed;
                buyToken := buyToken signed;
                receiver := Some fromAddress;
                sellAmount := sellAmount signed;
                buyAmount := buyAmount signed;
                feeAmount := feeAmount signed;
                validTo := validTo signed;
                appData := appData signed;
                kind := kind signed;
                partiallyFillable := partiallyFillable signed |} in
           let orderObj :=
             {| order := signed; signature := sig;
                signingScheme := "eip712"; quoteId := id r;
                from := fromAddress |} in
           switchChain env wallet chainId (world s) = (inr tt, w1)
           /\ getEthersProvider env wallet w1 = (inr tt, w2)
           /\ getAddress env w2 = (inr fromAddress, w3)
           /\ getAddress env w3 = (inr owner, w4)
           /\ allowance env fromAsset owner vaultAddr w4 = (inr existing, w5)
           /\ ((amountDecimals <= existing /\ approval = [] /\ w6 = w5)
               \/ (existing < amountDecimals
                   /\ exists tx w5',
                        approve env fromAsset vaultAddr MaxUint256 w5
                        = (inr tx, w5')
                        /\ wait env tx w5' = (inr tt, w6)
                        /\ approval
                           = [EvApprove fromAsset vaultAddr MaxUint256;
                              EvWait tx]))
           /\ getQuote env chainId quoteRequest w6 = (inr r, w7)
           /\ signOrder env toSign chainId w7 = (inr sig, w8)
           /\ postOrder env chainId orderObj w8 = (inr orderId, w9)
           /\ s' = {| world := w9;
                      trace :=
                        trace s
                        ++ [EvSwitchChain wallet chainId;
                            EvGetEthersProvider wallet; EvGetAddress]
                        ++ [EvGetAddress;
                            EvAllowance fromAsset owner vaultAddr]
                        ++ approval
                        ++ [EvGetQuote chainId quoteRequest;
                            EvSignOrder toSign chainId;
                            EvSendOrder chainId orderObj] |}
           /\ (0 <= quoted < 2 ^ 48 ->
               buyAmount signed
               = string_of_list_ascii
                   (Decimal.toString ((19 * quoted + 10) / 20)))
           /\ (0 < quoted < 2 ^ 1000 ->
               exists T,
                 buyAmount signed
                 = string_of_list_ascii (NumberToString.render T)
                 /\ 0 < T
                 /\ 2 ^ 50 * Z.abs (20 * T - 19 * quoted)
                    <= 19 * quoted + 20 * 2 ^ 50).
Proof.
  split.
  - unfold sendOrder. intros Hrun.
    destruct (lookupChain chain) as [chainId|]; [|discriminate].
    destruct wallets as [|wallet wallets]; [discriminate|].
    apply bind_inr_inv in Hrun as ([] & s1 & Hsw & Hrun).
    apply call_inv in Hsw as [Hsw T1].
    apply bind_inr_inv in Hrun as ([] & s2 & Hprov & Hrun).
    apply call_inv in Hprov as [Hprov T2].
    apply bind_inr_inv in Hrun as (fromAddress & s3 & Haddr & Hrun).
    apply call_inv in Haddr as [Haddr T3].
    apply bind_inr_inv in Hrun as (amountDecimals & s4 & Hconv & Hrun).
    apply convertAmount_inv in Hconv as (-> & tbl & d & Htbl & Hd & Hparse).
    apply bind_inr_inv in Hrun as ([] & s5 & Hallow & Hrun).
    apply checkAllowance_done in Hallow
      as (owner & w4 & existing & w5 & approval & Hown & Hall & Hcase & T5).
    unfold try_catch in Hrun.
    match type of Hrun with
    | match ?m s5 with _ => _ end = _ =>
        destruct (m s5) as [[e|oid] s6] eqn:Hbody
    end.
    { destruct (sendOrder_catch_throws (A := string) e s6) as [e' He'].
      rewrite He' in Hrun. discriminate Hrun. }
    injection Hrun as -> ->.
    apply bind_inr_inv in Hbody as (r & s7 & Hquote & Hbody).
    apply call_inv in Hquote as [Hquote T7].
    apply bind_inr_inv in Hbody as (sig & s8 & Hsign & Hbody).
    apply call_inv in Hsign as [Hsign T8].
    apply call_inv in Hbody as [Hpost T9].
    exists wallet, chainId, tbl, d, amountDecimals,
      (world s1), (world s2), fromAddress, (world s3), owner, w4, existing,
      w5, approval, (world s5), r, (world s7), sig, (world s8), (world s').
    cbv zeta. cbn [sellToken buyToken receiver sellAmount buyAmount feeAmount
                   validTo appData kind partiallyFillable].
    repeat (split; [first [reflexivity|assumption]|]).
    split; [|split].
    + destruct s' as [w' t']. cbn [world trace] in *. f_equal.
      rewrite T9, T8, T7, T5, T3, T2, T1, <- !app_assoc. reflexivity.
    + apply BuyAmountExact.buyAmountText_exact.
    + apply BuyAmount.buyAmountText_margin.
  - intros (wallet & chainId & tbl & d & amountDecimals & w1 & w2
            & fromAddress & w3 & owner & w4 & existing & w5 & approval & w6
            & r & w7 & sig & w8 & w9 & Hwallet & Hchain & Htbl & Hd & Hparse
            & H).
    cbv zeta in H.
    cbn [sellToken buyToken receiver sellAmount buyAmount feeAmount
         validTo appData kind partiallyFillable] in H.
    destruct H as (Hsw & Hprov & Haddr & Hown & Hall & Hcase & Hquote & Hsign
                   & Hpost & -> & _).
    destruct wallets as [|wallet0 wallets]; [discriminate Hwallet|].
    injection Hwallet as ->.
    set (s3 := {| world := w3;
                  trace := trace s ++ [EvSwitchChain wallet chainId;
                                       EvGetEthersProvider wallet;
                                       EvGetAddress] |}).
    set (s5 := {| world := w6;
                  trace := trace s3
                           ++ [EvGetAddress;
                               EvAllowance fromAsset owner
                                 (js_get_num
                                    (COW_PROTOCOL_VAULT_RELAYER_ADDRESS env)
                                    chainId)]
                           ++ approval |}).
    rewrite (sendOrder_returns env wallet wallets chain chainId fromAsset
               toAsset amount tbl d amountDecimals s w1 w2 w3 fromAddress s5
               r w7 sig w8 orderId w9 Hchain Hsw Hprov Haddr).
    + f_equal. unfold s5, s3. cbn [trace]. f_equal.
      rewrite <- !app_assoc. reflexivity.
    + eapply convertAmount_ok; eassumption.
    + apply checkAllowance_done.
      exists owner, w4, existing, w5, approval. cbn [world trace s5 s3].
      split; [exact Hown|]. split; [exact Hall|]. split; [exact Hcase|].
      reflexivity.
    + exact Hquote.
    + exact Hsign.
    + exact Hpost.
Qed.

Lemma sendOrder_steps_witness :
  let s := Sim.start Sim.world0 in
  let run :=
    sendOrder Sim.env [Sim.owner] "sepolia" Sim.USDC Sim.DAI "100" s in
  let vaultAddr := Some Sim.relayer in
  let quoteRequest :=
    {| req_sellToken := Sim.USDC; req_buyToken := Sim.DAI;
       req_from := Sim.owner; req_receiver := Sim.owner;
       req_sellAmountBeforeFee := 100000000; req_kind := "sell" |} in
  let signed : Quote string :=
    {| sellToken := Sim.USDC; buyToken := Sim.DAI;
       receiver := Some Sim.owner;
       sellAmount := "100000000"; buyAmount := "190000000";
       feeAmount := "0"; validTo := 1700000000; appData := "0x00";
       kind := "sell"; partiallyFillable := false |} in
  let orderObj :=
    {| order := signed; signature := "0x51"; signingScheme := "eip712";
       quoteId := Some 42; from := Sim.owner |} in
  run
  = (inr "order-1",
     {| world := Sim.set_allowed MaxUint256 Sim.world0;
        trace :=
          [EvSwitchChain Sim.owner (ChainNum 11155111);
           EvGetEthersProvider Sim.owner; EvGetAddress;
           EvGetAddress; EvAllowance Sim.USDC Sim.owner vaultAddr;
           EvApprove Sim.USDC vaultAddr MaxUint256; EvWait "0xa9";
           EvGetQuote (ChainNum 11155111) quoteRequest;
           EvSignOrder signed (ChainNum 11155111);
           EvSendOrder (ChainNum 11155111) orderObj] |}).
Proof.
  intros s run vaultAddr quoteRequest signed orderObj.
  apply (proj2 (sendOrder_steps Sim.env [Sim.owner] "sepolia" Sim.USDC
                  Sim.DAI "100" s "order-1" _)).
  exists Sim.owner, (ChainNum 11155111), sepoliaDecimals, 6%nat, 100000000,
    Sim.world0, Sim.world0, Sim.owner, Sim.world0, Sim.owner, Sim.world0, 0,
    Sim.world0,
    [EvApprove Sim.USDC vaultAddr MaxUint256; EvWait "0xa9"],
    (Sim.set_allowed MaxUint256 Sim.world0),
    (Sim.quoteFor quoteRequest), (Sim.set_allowed MaxUint256 Sim.world0),
    "0x51"%string, (Sim.set_allowed MaxUint256 Sim.world0),
    (Sim.set_allowed MaxUint256 Sim.world0).
  split; [reflexivity|]. split; [vm_compute; reflexivity|].
  split; [apply lookup_insert_eq|]. split; [vm_compute; reflexivity|].
  split; [vm_compute; reflexivity|].
  cbv zeta.
  split; [reflexivity|]. split; [reflexivity|]. split; [reflexivity|].
  split; [reflexivity|]. split; [reflexivity|].
  split.
  { right. split; [lia|]. exists "0xa9"%string, (Sim.set_allowed MaxUint256 Sim.world0).
    repeat split. }
  split; [reflexivity|]. split; [vm_compute; reflexivity|].
  split; [vm_compute; reflexivity|].
  split; [vm_compute; reflexivity|].
  split; [intros _; vm_compute; reflexivity|].
  intros _. exists 190000000. vm_compute. repeat split; discriminate.
Defined.

Lemma sendOrder_quote_after_allowance :
  let run :=
    sendOrder Sim.env [Sim.owner] "sepolia" Sim.USDC Sim.DAI "100"
      (Sim.start Sim.world0) in
  fst run = inr "order-1"
  /\ position isAllowanceRead (trace (snd run)) = Some 4%nat
  /\ position isQuoteRequest (trace (snd run)) = Some 7%nat.
Proof. vm_compute. repeat split. Qed.

(** ** Slippage and amount conversion *)

Lemma slippage_percent :
  100 - JsNumber.floor (JsNumber.mul slippage (JsNumber.of_Z 100)) = 95.
Proof. vm_compute. reflexivity. Qed.

(** The swap executor keeps 95 percent of the expected output, rounded
    down, for every expected output a router can report. *)
Lemma amountOutMin_of_floor (expected : Z) :
  0 <= expected -> amountOutMin_of expected = expected * 95 / 100.
Proof.
  intros H. unfold amountOutMin_of. rewrite slippage_percent.
  apply Z.quot_div_nonneg; lia.
Qed.

(** The texts the order executor writes for some quoted amounts: above
    [2^53] the digits are the fewest that read back as the same number,
    and from [10^21] on the text is in exponent notation. *)
Lemma buyAmountText_examples :
  buyAmountText 1 = "1"%string
  /\ buyAmountText 190 = "181"%string
  /\ buyAmountText 123456789012345678901 = "117283949561728400000"%string
  /\ buyAmountText 1000000000000000000 = "950000000000000000"%string
  /\ buyAmountText 2000000000000000000000 = "1.9e+21"%string.
Proof. vm_compute. repeat split. Qed.

(** Claim C3, evaluated at failing inputs.  For quoted amounts 1, 190 and
    123456789012345678901 the order executor's buy amount, computed with
    [Math.round] on doubles, differs from the floor of 95 percent, which
    is what the swap executor computes with integers. *)
Theorem sendOrder_slippage_is_not_floor :
  (buyAmount_of 1 = 1 /\ 1 * 95 / 100 = 0)
  /\ (buyAmount_of 190 = 181 /\ 190 * 95 / 100 = 180)
  /\ (buyAmount_of 123456789012345678901 = 117283949561728401408
      /\ 123456789012345678901 * 95 / 100 = 117283949561728394955)
  /\ amountOutMin_of 1 = 0
  /\ amountOutMin_of 190 = 180
  /\ amountOutMin_of 123456789012345678901 = 117283949561728394955.
Proof. vm_compute. repeat split. Qed.

(** Claim C9.  For every token of the decimal table, with its precision
    [d]: the conversion the entry points perform is [parseUnits] at [d],
    and it fails where [parseUnits] does.  When an amount converts to base
    units, the base units are the amount times [10^d], exactly; the text
    formatted back from them denotes the number the amount denotes, and
    converts to the same base units; it is the amount itself exactly when
    the amount is written canonically (a whole part without a leading
    zero, a dot, a fractional part without a trailing zero, no sign on
    zero).  Formatting any base units and converting the text gives them
    back.  "100" at 6 decimals is 100000000 base units, written back as
    "100.0"; 5 percent slippage on a quoted 200000000 leaves 190000000 in
    both executors. *)
Theorem amount_conversion_round_trip {W : Type} (chainName : string)
    (chain : Z) (chainDecimals : gmap string nat)
    (token : string) (decimals : nat) :
  decimalConverter !! chain = Some chainDecimals ->
  chainDecimals !! token = Some decimals ->
  (forall (amount : string) (s : State W),
      convertAmount chainName (ChainNum chain) token amount s
      = (match Units.parseUnits amount decimals with
         | Some baseUnits => inr baseUnits
         | None => inl (new_Error "invalid decimal value")
         end, s))
  /\ (forall (amount : string) (baseUnits : Z),
         Units.parseUnits amount decimals = Some baseUnits ->
         Numeral.same_number (Numeral.value (list_ascii_of_string amount))
           (baseUnits, decimals)
         /\ Numeral.same_number
              (Numeral.value
                 (list_ascii_of_string (Units.formatUnits baseUnits decimals)))
              (Numeral.value (list_ascii_of_string amount))
         /\ Units.parseUnits (Units.formatUnits baseUnits decimals) decimals
            = Some baseUnits
         /\ (Units.formatUnits baseUnits decimals = amount
             <-> Numeral.canonical (list_ascii_of_string amount) = true))
  /\ (forall baseUnits : Z,
         Units.parseUnits (Units.formatUnits baseUnits decimals) decimals
         = Some baseUnits)
  /\ Units.parseUnits "100" 6 = Some 100000000
  /\ Units.formatUnits 100000000 6 = "100.0"%string
  /\ amountOutMin_of 200000000 = 190000000
  /\ buyAmount_of 200000000 = 190000000
  /\ buyAmountText 200000000 = "190000000"%string.
Proof.
  intros Hchain Htoken.
  assert (1 <= decimals <= 256)%nat as Hd
    by (destruct (decimalConverter_values _ _ _ _ Hchain Htoken) as [-> | ->]; lia).
  assert (forall n, Units.parseUnits (Units.formatUnits n decimals) decimals
                    = Some n) as Hround.
  { intros n. unfold Units.parseUnits, Units.formatUnits.
    rewrite list_ascii_of_string_of_list_ascii.
    apply UnitsRoundTrip.parseFixed_formatFixed. lia. }
  split; [|split; [|split; [exact Hround|]]].
  - intros amount s. unfold convertAmount, js_get, js_get_num.
    rewrite Hchain, Htoken.
    destruct (Units.parseUnits amount decimals); reflexivity.
  - intros amount n Hparse.
    pose proof (NumeralFacts.parseFixed_value _ _ _ Hparse) as Hval.
    pose proof (NumeralFacts.parseFixed_value _ _ _ (Hround n)) as Hback.
    split; [exact Hval|]. split; [|split; [apply Hround|]].
    + eapply NumeralFacts.same_number_trans; [exact Hback|].
      apply NumeralFacts.same_number_sym, Hval.
    + unfold Units.formatUnits. split.
      * intros <-. rewrite list_ascii_of_string_of_list_ascii.
        apply CanonicalFormat.formatFixed_canonical. lia.
      * intros Hcan.
        rewrite (CanonicalRoundTrip.canonical_formatFixed
                   (list_ascii_of_string amount) decimals n
                   ltac:(lia) Hcan Hparse).
        apply string_of_list_ascii_of_string.
  - vm_compute. repeat split.
Qed.

Lemma amount_conversion_round_trip_witness :
  Numeral.same_number
    (Numeral.value (list_ascii_of_string (Units.formatUnits 100000000 6)))
    (Numeral.value (list_ascii_of_string "100"))
  /\ (Units.formatUnits 100000000 6 = "100"%string
      <-> Numeral.canonical (list_ascii_of_string "100") = true).
Proof.
  refine ((fun H => conj (proj1 (proj2 H)) (proj2 (proj2 (proj2 H))))
            (proj1 (proj2 (amount_conversion_round_trip (W := unit) "sepolia"
                             11155111 sepoliaDecimals Sim.USDC 6%nat _ _))
               "100"%string 100000000 _)).
  - apply lookup_insert_eq.
  - vm_compute. reflexivity.
  - vm_compute. reflexivity.
Defined.

(* ===================================================================== *)
(** * Further properties of the executors and of the dashboard *)
(* ===================================================================== *)

(** ** Pool creation *)

(** X1.  When the registry already has a pool for the two tokens,
    [createLiquidityPoolIfNeeded] returns its address after that single
    read: no creation transaction is sent. *)
Theorem createLiquidityPoolIfNeeded_existing {W : Type} (env : Env W)
    (factoryAddress tokenA tokenB : Address) (s : State W)
    (pairAddress : Address) (w1 : W) :
  getPair env factoryAddress tokenA tokenB (world s) = (inr pairAddress, w1) ->
  pairAddress <> AddressZero ->
  createLiquidityPoolIfNeeded env factoryAddress tokenA tokenB s
  = (inr pairAddress,
     {| world := w1;
        trace := trace s ++ [EvGetPair factoryAddress tokenA tokenB] |}).
Proof.
  intros Hget Hne. unfold createLiquidityPoolIfNeeded.
  apply try_catch_inr.
  erewrite bind_inr by (apply call_run; exact Hget).
  rewrite bool_decide_eq_false_2 by exact Hne. reflexivity.
Qed.

Lemma createLiquidityPoolIfNeeded_existing_witness :
  let w := Sim.set_pools [(Sim.USDC, Sim.DAI)] Sim.world0 in
  createLiquidityPoolIfNeeded Sim.env Sim.factory Sim.DAI Sim.USDC (Sim.start w)
  = (inr Sim.pairAddress,
     {| world := w; trace := [EvGetPair Sim.factory Sim.DAI Sim.USDC] |}).
Proof.
  intros w.
  refine (createLiquidityPoolIfNeeded_existing Sim.env Sim.factory Sim.DAI
            Sim.USDC (Sim.start w) Sim.pairAddress w _ _).
  - vm_compute. reflexivity.
  - discriminate.
Defined.

(** X2.  When the factory answers the zero address,
    [createLiquidityPoolIfNeeded] sends one creation, waits for its
    receipt and reads the factory again; what it returns is the answer of
    that second read.  A call that throws, the first read included, ends
    the run there with the fixed error "Failed to create liquidity pool",
    whatever was thrown.  In every run a creation is sent exactly when the
    first read answered the zero address. *)
Theorem createLiquidityPoolIfNeeded_outcomes {W : Type} (env : Env W)
    (factoryAddress tokenA tokenB : Address) (s : State W) :
  let read := EvGetPair factoryAddress tokenA tokenB in
  let create := EvCreatePair factoryAddress tokenA tokenB in
  let failed := new_Error "Failed to create liquidity pool" in
  let run := createLiquidityPoolIfNeeded env factoryAddress tokenA tokenB s in
  let after (w : W) (calls : list Event) :=
    {| world := w; trace := trace s ++ calls |} in
  (forall e w1,
      getPair env factoryAddress tokenA tokenB (world s) = (inl e, w1) ->
      run = (inl failed, after w1 [read]))
  /\ (forall w1,
         getPair env factoryAddress tokenA tokenB (world s)
         = (inr AddressZero, w1) ->
         (forall e w2,
             createPair env factoryAddress tokenA tokenB w1 = (inl e, w2) ->
             run = (inl failed, after w2 [read; create]))
         /\ (forall tx w2,
                createPair env factoryAddress tokenA tokenB w1
                = (inr tx, w2) ->
                (forall e w3,
                    wait env tx w2 = (inl e, w3) ->
                    run = (inl failed, after w3 [read; create; EvWait tx]))
                /\ (forall w3,
                       wait env tx w2 = (inr tt, w3) ->
                       (forall e w4,
                           getPair env factoryAddress tokenA tokenB w3
                           = (inl e, w4) ->
                           run = (inl failed,
                                  after w4 [read; create; EvWait tx; read]))
                       /\ (forall p w4,
                              getPair env factoryAddress tokenA tokenB w3
                              = (inr p, w4) ->
                              run = (inr p,
                                     after w4
                                       [read; create; EvWait tx; read])))))
  /\ (exists calls,
         trace (snd run) = trace s ++ calls
         /\ (create ∈ calls
             <-> exists w1,
                   getPair env factoryAddress tokenA tokenB (world s)
                   = (inr AddressZero, w1))).
Proof.
  intros read create failed run after.
  assert (forall calls outcome w',
             PoolAttempt env factoryAddress tokenA tokenB (world s)
               calls outcome w' ->
             run = (attemptResult outcome, after w' calls)) as Hrun
    by (intros calls outcome w' H; exact (attempt_run env _ _ _ _ _ _ _ H)).
  split; [|split].
  - intros e w1 H1. apply (Hrun _ None). eapply attempt_read_threw. exact H1.
  - intros w1 H1. split.
    + intros e w2 H2. apply (Hrun _ None).
      eapply attempt_creation_threw; eassumption.
    + intros tx w2 H2. split.
      * intros e w3 H3. apply (Hrun _ None).
        eapply attempt_receipt_threw; eassumption.
      * intros w3 H3. split.
        -- intros e w4 H4. apply (Hrun _ None).
           eapply attempt_second_read_threw; eassumption.
        -- intros p w4 H4. apply (Hrun _ (Some p)).
           eapply attempt_created; eassumption.
  - destruct (attempt_total env factoryAddress tokenA tokenB (world s))
      as (calls & outcome & w' & Hatt).
    exists calls. rewrite (Hrun _ _ _ Hatt). split; [reflexivity|].
    destruct (attempt_calls env _ _ _ _ _ _ _ Hatt)
      as (more & -> & _ & Hsent & Hzero).
    split; [exact Hzero|].
    intros Hz. destruct (Hsent Hz) as [more' ->]. right. left.
Qed.

Lemma createLiquidityPoolIfNeeded_outcomes_witness :
  let f := Sim.factory in
  createLiquidityPoolIfNeeded Sim.env f Sim.USDC Sim.DAI
    (Sim.start Sim.world0)
  = (inr Sim.pairAddress,
     {| world := Sim.set_pools [(Sim.USDC, Sim.DAI)] Sim.world0;
        trace := [EvGetPair f Sim.USDC Sim.DAI; EvCreatePair f Sim.USDC Sim.DAI;
                  EvWait "0xc7"; EvGetPair f Sim.USDC Sim.DAI] |}).
Proof.
  intros f.
  refine (proj2 (proj2 (proj2 (proj1 (proj2
            (createLiquidityPoolIfNeeded_outcomes Sim.env f Sim.USDC Sim.DAI
               (Sim.start Sim.world0)))
            Sim.world0 _)
            "0xc7"%string (Sim.set_pools [(Sim.USDC, Sim.DAI)] Sim.world0) _)
            (Sim.set_pools [(Sim.USDC, Sim.DAI)] Sim.world0) _)
            Sim.pairAddress
            (Sim.set_pools [(Sim.USDC, Sim.DAI)] Sim.world0) _);
    reflexivity.
Defined.

(** ** The swap executor *)

(** The error the catch clause of [uniswapV2Swap] throws: one of two
    messages, and never the error it caught. *)
Lemma uniswapV2Swap_catch_throws {W A : Type} (error : JsError)
    (s : State W) :
  exists e',
    @uniswapV2Swap_catch W A error s = (inl e', s)
    /\ body e' = None
    /\ (message e' = Some "Insufficient liquidity for this swap pair"
        \/ exists m, message e' = Some ("Swap failed: " +:+ m)).
Proof.
  unfold uniswapV2Swap_catch, throw.
  destruct (message error) as [m|].
  - destruct (includes "INSUFFICIENT_OUTPUT_AMOUNT" m);
      eexists; (split; [reflexivity|]); (split; [reflexivity|]); eauto.
  - eexists; (split; [reflexivity|]); (split; [reflexivity|]); eauto.
Qed.

(** The quote and the swap, call by call. *)
Lemma quoteAndSwap_cases {W : Type} (env : Env W) (routerAddress : Address)
    (chainDecimals : gmap string nat) (toAsset fromAddress : Address)
    (amountDecimals : Z) (path : list Address) (deadline : Z) (s : State W) :
  let quoted :=
    trace s ++ [EvGetAmountsOut routerAddress amountDecimals path] in
  quoteAndSwap env routerAddress chainDecimals toAsset fromAddress
    amountDecimals path deadline s
  = match getAmountsOut env routerAddress amountDecimals path (world s) with
    | (inl e, w1) => uniswapV2Swap_catch e {| world := w1; trace := quoted |}
    | (inr amounts, w1) =>
        match amounts !! (length path - 1)%nat with
        | None =>
            uniswapV2Swap_catch
              (new_Error "Cannot read properties of undefined (reading 'mul')")
              {| world := w1; trace := quoted |}
        | Some expected =>
            match js_get chainDecimals toAsset with
            | Inherited _ =>
                uniswapV2Swap_catch (new_Error "invalid decimal size")
                  {| world := w1; trace := quoted |}
            | _ =>
                let sent :=
                  quoted ++ [EvSwapExactTokensForTokens routerAddress
                               amountDecimals (amountOutMin_of expected) path
                               fromAddress deadline 500000] in
                match swapExactTokensForTokens env routerAddress amountDecimals
                        (amountOutMin_of expected) path fromAddress deadline
                        500000 w1 with
                | (inl e, w2) =>
                    uniswapV2Swap_catch e {| world := w2; trace := sent |}
                | (inr hash, w2) => (inr hash, {| world := w2; trace := sent |})
                end
            end
        end
    end.
Proof.
  unfold quoteAndSwap, try_catch, bind, call, throw. cbn [world trace].
  destruct (getAmountsOut env routerAddress amountDecimals path (world s))
    as [[e|amounts] w1]; cbn [world trace]; [reflexivity|].
  destruct (amounts !! (length path - 1)%nat) as [expected|]; [|reflexivity].
  destruct (js_get chainDecimals toAsset); cbn [world trace];
    try reflexivity;
    destruct (swapExactTokensForTokens env routerAddress amountDecimals
                (amountOutMin_of expected) path fromAddress deadline 500000 w1)
      as [[e|hash] w2]; reflexivity.
Qed.



(** The chains for which the router table has an entry. *)
Lemma router_chains (n : Z) (routerAddress : Address) :
  UNISWAP_V2_ROUTER !! n = Some routerAddress ->
  (n = 1 \/ n = 11155111)
  /\ is_Some (UNISWAP_V2_FACTORY !! n)
  /\ is_Some (decimalConverter !! n).
Proof.
  unfold UNISWAP_V2_ROUTER. intros H.
  apply lookup_insert_Some in H as [[<- _]|[_ H]].
  - split; [auto|]. split; eexists; reflexivity.
  - apply lookup_singleton_Some in H as [<- _].
    split; [auto|]. split; eexists; reflexivity.
Qed.

(** X4.  [uniswapV2Swap] runs on mainnet and Sepolia only: for every other
    chain name, registered like "base" or not, it fails before any call to
    the wallet, the signer or the network, with "Unsupported chain: ..."
    or "No Uniswap Router found for chain: ...". *)
Theorem uniswapV2Swap_other_chains {W : Type} (env : Env W)
    (wallet : Wallet) (wallets : list Wallet) (chain : string)
    (fromAsset toAsset : Address) (amount : string) (s : State W) :
  lookupChain chain <> Some (ChainNum 1) ->
  lookupChain chain <> Some (ChainNum 11155111) ->
  uniswapV2Swap env (wallet :: wallets) chain fromAsset toAsset amount s
  = (inl (new_Error ("Unsupported chain: " +:+ chain)), s)
  \/ uniswapV2Swap env (wallet :: wallets) chain fromAsset toAsset amount s
     = (inl (new_Error ("No Uniswap Router found for chain: " +:+ chain)), s).
Proof.
  intros Hmain Hsep. unfold uniswapV2Swap.
  destruct (lookupChain chain) as [[n|k]|]; [| |left; reflexivity].
  - destruct (js_get_num UNISWAP_V2_ROUTER (ChainNum n)) as [r|] eqn:Hr;
      [|right; reflexivity].
    destruct (router_chains n r Hr) as [[-> | ->] _]; congruence.
  - right. reflexivity.
Qed.

Lemma uniswapV2Swap_other_chains_witness :
  uniswapV2Swap Sim.env [Sim.owner] "base" Sim.USDC Sim.DAI "100"
    (Sim.start Sim.world0)
  = (inl (new_Error ("Unsupported chain: " +:+ "base")), Sim.start Sim.world0)
  \/ uniswapV2Swap Sim.env [Sim.owner] "base" Sim.USDC Sim.DAI "100"
       (Sim.start Sim.world0)
     = (inl (new_Error ("No Uniswap Router found for chain: " +:+ "base")),
        Sim.start Sim.world0).
Proof.
  apply (uniswapV2Swap_other_chains Sim.env Sim.owner [] "base" Sim.USDC
           Sim.DAI "100" (Sim.start Sim.world0));
    vm_compute; discriminate.
Defined.

(** A path that [selectPath] returns is the direct one or the one through
    the intermediary; the run starts with the three probes and goes on
    with reads of the factory, creations and waits only. *)
Lemma selectPath_inv {W : Type} (env : Env W)
    (factoryAddress fromAsset toAsset WETH_ADDRESS : Address)
    (s : State W) (path : list Address) (s' : State W) :
  selectPath env factoryAddress fromAsset toAsset WETH_ADDRESS s
    = (inr path, s') ->
  (path = [fromAsset; toAsset] \/ path = [fromAsset; WETH_ADDRESS; toAsset])
  /\ exists routing,
       trace s'
       = trace s ++ [EvGetPair factoryAddress fromAsset toAsset;
                     EvGetPair factoryAddress fromAsset WETH_ADDRESS;
                     EvGetPair factoryAddress WETH_ADDRESS toAsset]
                 ++ routing
       /\ Forall (fun ev => isPoolCall ev = true) routing.
Proof.
  unfold selectPath. intros Hrun.
  rewrite (bind_inr _ _ _ _ _ (checkLiquidityPoolExists_run env _ _ _ _)) in Hrun.
  rewrite (bind_inr _ _ _ _ _ (checkLiquidityPoolExists_run env _ _ _ _)) in Hrun.
  rewrite (bind_inr _ _ _ _ _ (checkLiquidityPoolExists_run env _ _ _ _)) in Hrun.
  cbn [world trace] in Hrun.
  match type of Hrun with
  | choosePath _ _ _ _ _ ?d ?a ?b ?st = _ =>
      set (direct := d) in *; set (hopA := a) in *; set (hopB := b) in *;
      set (s3 := st) in *
  end.
  assert (trace s3
          = trace s ++ [EvGetPair factoryAddress fromAsset toAsset;
                        EvGetPair factoryAddress fromAsset WETH_ADDRESS;
                        EvGetPair factoryAddress WETH_ADDRESS toAsset]) as Hs3.
  { unfold s3. cbn [trace]. rewrite <- !app_assoc. reflexivity. }
  clearbody direct hopA hopB s3. unfold choosePath in Hrun.
  destruct direct.
  { injection Hrun as <- <-. split; [auto|]. exists []. rewrite app_nil_r.
    split; [exact Hs3|constructor]. }
  destruct (hopA && hopB).
  { injection Hrun as <- <-. split; [auto|]. exists []. rewrite app_nil_r.
    split; [exact Hs3|constructor]. }
  rewrite bootstrapPath_cases in Hrun.
  destruct (attempt_total env factoryAddress fromAsset toAsset (world s3))
    as (calls & outcome & w4 & Hatt).
  rewrite (attempt_run env _ _ _ _ _ _ _ Hatt) in Hrun.
  destruct (attempt_calls env _ _ _ _ _ _ _ Hatt) as (more & _ & HF1 & _).
  destruct outcome as [p|]; cbn [attemptResult] in Hrun.
  - injection Hrun as <- <-. split; [auto|]. exists calls.
    cbn [trace]. rewrite Hs3, <- !app_assoc. split; [reflexivity|exact HF1].
  - match type of Hrun with
    | context [createIfMissing env ?f ?a ?b hopA ?st] =>
        destruct (createIfMissing env f a b hopA st) as [[e2|[]] t2] eqn:Ea;
        [discriminate|];
        destruct (createIfMissing_calls env _ _ _ _ _ _ _ Ea)
          as (calls2 & Ht2 & HF2)
    end.
    destruct (createIfMissing env factoryAddress WETH_ADDRESS toAsset hopB t2)
      as [[e3|[]] t3] eqn:Eh; [discriminate|].
    destruct (createIfMissing_calls env _ _ _ _ _ _ _ Eh)
      as (calls3 & Ht3 & HF3).
    injection Hrun as <- <-. split; [auto|].
    exists (calls ++ calls2 ++ calls3). cbn [trace] in Ht2.
    split; [rewrite Ht3, Ht2, Hs3, <- !app_assoc; reflexivity|].
    repeat (apply Forall_app; split); assumption.
Qed.

(** X5.  A successful [uniswapV2Swap] is on mainnet or Sepolia and makes
    its calls in this order: chain switch, provider, signer address; the
    allowance of the chain's router over the converted amount (an approval
    and its wait when the allowance is smaller); the three pool probes on
    the chain's factory and what routing needs (reads of the factory,
    creations and waits); the clock; the quote; and the swap, which is the
    only swap of the run.  The swap is sent to the router that was
    approved, for the converted amount, along the direct path or the path
    through the chain's wrapped native token as path selection returned
    it, with 95 percent (rounded down) of the last amount the router
    quoted as minimum, paying out to the address the signer answered, with
    a deadline 20 minutes after the clock reading in seconds and the gas
    limit 500000; the value returned is what that swap answered. *)
Theorem uniswapV2Swap_steps {W : Type} (env : Env W) (wallets : list Wallet)
    (chain : string) (fromAsset toAsset : Address) (amount : string)
    (s : State W) (hash : TxHash) (s' : State W) :
  uniswapV2Swap env wallets chain fromAsset toAsset amount s = (inr hash, s') ->
  exists wallet n routerAddress factoryAddress chainDecimals decimals
         amountDecimals w1 w2 fromAddress w3 owner w4 existing w5 approval
         s5 path s6 routing amounts expected w8,
    head wallets = Some wallet
    /\ lookupChain chain = Some (ChainNum n)
    /\ (n = 1 \/ n = 11155111)
    /\ UNISWAP_V2_ROUTER !! n = Some routerAddress
    /\ UNISWAP_V2_FACTORY !! n = Some factoryAddress
    /\ decimalConverter !! n = Some chainDecimals
    /\ chainDecimals !! fromAsset = Some decimals
    /\ Units.parseUnits amount decimals = Some amountDecimals
    /\ let WETH_ADDRESS : Address :=
         if bool_decide (n = 11155111)
         then "0x7b79995e5f793A07Bc00c21412e50Ecae098E7f9"
         else "0xC02aaA39b223FE8D0A0e5C4F27eAD9083C756Cc2" in
       let now := Date_now env (world s6) in
       let deadline := now / 1000 + 60 * 20 in
       let swap :=
         EvSwapExactTokensForTokens routerAddress amountDecimals
           (amountOutMin_of expected) path fromAddress deadline 500000 in
       let calls :=
         [EvSwitchChain wallet (ChainNum n); EvGetEthersProvider wallet;
          EvGetAddress]
         ++ [EvGetAddress; EvAllowance fromAsset owner (Some routerAddress)]
         ++ approval
         ++ [EvGetPair factoryAddress fromAsset toAsset;
             EvGetPair factoryAddress fromAsset WETH_ADDRESS;
             EvGetPair factoryAddress WETH_ADDRESS toAsset]
         ++ routing
         ++ [EvNow; EvGetAmountsOut routerAddress amountDecimals path; swap] in
       switchChain env wallet (ChainNum n) (world s) = (inr tt, w1)
       /\ getEthersProvider env wallet w1 = (inr tt, w2)
       /\ getAddress env w2 = (inr fromAddress, w3)
       /\ getAddress env w3 = (inr owner, w4)
       /\ allowance env fromAsset owner (Some routerAddress) w4
          = (inr existing, w5)
       /\ ((amountDecimals <= existing /\ approval = [] /\ world s5 = w5)
           \/ (existing < amountDecimals
               /\ exists tx w5',
                    approve env fromAsset (Some routerAddress) MaxUint256 w5
                    = (inr tx, w5')
                    /\ wait env tx w5' = (inr tt, world s5)
                    /\ approval
                       = [EvApprove fromAsset (Some routerAddress) MaxUint256;
                          EvWait tx]))
       /\ selectPath env factoryAddress fromAsset toAsset WETH_ADDRESS s5
          = (inr path, s6)
       /\ (path = [fromAsset; toAsset]
           \/ path = [fromAsset; WETH_ADDRESS; toAsset])
       /\ Forall (fun ev => isPoolCall ev = true) routing
       /\ getAmountsOut env routerAddress amountDecimals path (world s6)
          = (inr amounts, w8)
       /\ amounts !! (length path - 1)%nat = Some expected
       /\ (0 <= expected -> amountOutMin_of expected = expected * 95 / 100)
       /\ swapExactTokensForTokens env routerAddress amountDecimals
            (amountOutMin_of expected) path fromAddress deadline 500000 w8
          = (inr hash, world s')
       /\ trace s' = trace s ++ calls
       /\ List.filter isSwap calls = [swap].
Proof.
  unfold uniswapV2Swap. intros Hrun.
  destruct wallets as [|wallet wallets]; [discriminate|].
  destruct (lookupChain chain) as [[n|k]|]; [| |discriminate].
  2:{ discriminate. }
  cbn [js_get_num] in Hrun.
  destruct (UNISWAP_V2_ROUTER !! n) as [routerAddress|] eqn:Hrouter;
    [|discriminate].
  destruct (router_chains n routerAddress Hrouter) as (Hn & _ & _).
  destruct (UNISWAP_V2_FACTORY !! n) as [factoryAddress|] eqn:Hfactory;
    [|discriminate].
  apply bind_inr_inv in Hrun as ([] & s1 & Hsw & Hrun).
  apply call_inv in Hsw as [Hsw T1].
  apply bind_inr_inv in Hrun as ([] & s2 & Hprov & Hrun).
  apply call_inv in Hprov as [Hprov T2].
  apply bind_inr_inv in Hrun as (fromAddress & s3 & Haddr & Hrun).
  apply call_inv in Haddr as [Haddr T3].
  apply bind_inr_inv in Hrun as (amountDecimals & s4 & Hconv & Hrun).
  apply convertAmount_inv in Hconv as (-> & tbl & d & Htbl & Hd & Hparse).
  cbn [js_get_num] in Htbl.
  apply bind_inr_inv in Hrun as ([] & s5 & Hallow & Hrun).
  apply checkAllowance_done in Hallow
    as (owner & w4 & existing & w5 & approval & Hown & Hall & Hcase & T5).
  apply bind_inr_inv in Hrun as (path & s6 & Hpath & Hrun).
  pose proof Hpath as Hsel.
  apply selectPath_inv in Hpath as (Hshape & routing & T6 & Hrouting).
  apply bind_inr_inv in Hrun as (now & s7 & Hnow & Hrun).
  apply call_inv in Hnow as [Hnow T7].
  injection Hnow as <- Hw7.
  rewrite quoteAndSwap_cases in Hrun. cbv zeta in Hrun.
  assert (forall e st, @uniswapV2Swap_catch W TxHash e st <> (inr hash, s'))
    as Hcatch.
  { intros e st Hc.
    destruct (uniswapV2Swap_catch_throws (W := W) (A := TxHash) e st)
      as (e' & He' & _). rewrite He' in Hc. discriminate Hc. }
  rewrite <- Hw7 in Hrun.
  destruct (getAmountsOut env routerAddress amountDecimals path (world s6))
    as [[e|amounts] w8] eqn:Hquote; [exfalso; exact (Hcatch _ _ Hrun)|].
  destruct (amounts !! (length path - 1)%nat) as [expected|] eqn:Hlast;
    [|exfalso; exact (Hcatch _ _ Hrun)].
  set (deadline := Date_now env (world s6) / 1000 + 60 * 20) in *.
  assert (swapExactTokensForTokens env routerAddress amountDecimals
            (amountOutMin_of expected) path fromAddress deadline 500000 w8
          = (inr hash, world s')
          /\ trace s'
             = (trace s7 ++ [EvGetAmountsOut routerAddress amountDecimals path])
               ++ [EvSwapExactTokensForTokens routerAddress amountDecimals
                     (amountOutMin_of expected) path fromAddress deadline
                     500000]) as [Hswap T9].
  { match type of Hrun with
    | context [js_get ?tbl0 toAsset] => destruct (js_get tbl0 toAsset)
    end;
      try (exfalso; exact (Hcatch _ _ Hrun));
      destruct (swapExactTokensForTokens env routerAddress amountDecimals
                  (amountOutMin_of expected) path fromAddress deadline
                  500000 w8) as [[e|h] w9];
      try (exfalso; exact (Hcatch _ _ Hrun));
      injection Hrun as <- <-; split; reflexivity. }
  exists wallet, n, routerAddress, factoryAddress, tbl, d, amountDecimals,
    (world s1), (world s2), fromAddress, (world s3), owner, w4, existing, w5,
    approval, s5, path, s6, routing, amounts, expected, w8.
  cbv zeta. fold deadline.
  repeat (split;
          [first [reflexivity|assumption
                 |destruct Hn as [-> | ->]; first [exact Hsel|exact Hshape]]|]).
  split; [intros Hexp; unfold amountOutMin_of;
          replace (100 - JsNumber.floor
                           (JsNumber.mul slippage (JsNumber.of_Z 100)))
            with 95 by (vm_compute; reflexivity);
          apply Z.quot_div_nonneg; lia|].
  split; [exact Hswap|].
  assert (forall l, Forall (fun ev => isPoolCall ev = true) l ->
                    List.filter isSwap l = []) as Hnoswap.
  { intros l Hl. induction Hl as [|ev l Hev _ IH]; [reflexivity|].
    cbn [List.filter]. rewrite IH. destruct ev; try discriminate Hev;
      reflexivity. }
  split.
  - rewrite T9, T7, T6, T5, T3, T2, T1.
    destruct Hn as [-> | ->]; rewrite <- !app_assoc; reflexivity.
  - rewrite !List.filter_app, (Hnoswap _ Hrouting).
    destruct Hcase as [(_ & -> & _)|(_ & tx & w5' & _ & _ & ->)];
      reflexivity.
Qed.

Lemma uniswapV2Swap_steps_witness :
  let s := Sim.start Sim.world0 in
  let run :=
    uniswapV2Swap Sim.env [Sim.owner] "sepolia" Sim.USDC Sim.DAI "100" s in
  exists swap,
    isSwap swap = true
    /\ List.filter isSwap (trace (snd run)) = [swap].
Proof.
  intros s run.
  destruct (uniswapV2Swap_steps Sim.env [Sim.owner] "sepolia" Sim.USDC
              Sim.DAI "100" s "0x5a" (snd run))
    as (wallet & n & routerAddress & factoryAddress & tbl & d
        & amountDecimals & w1 & w2 & fromAddress & w3 & owner & w4
        & existing & w5 & approval & s5 & path & s6 & routing & amounts
        & expected & w8 & _ & _ & _ & _ & _ & _ & _ & _ & H).
  - vm_compute. reflexivity.
  - cbv zeta in H.
    destruct H as (_ & _ & _ & _ & _ & _ & _ & _ & _ & _ & _ & _ & _
                   & Htrace & Hfilter).
    eexists. split; [|rewrite Htrace; exact Hfilter]. reflexivity.
Defined.

(** ** The transfer executor *)



(** X7.  A recipient that is no address literal and that the name service
    does not know stops the transfer: [sendTransaction] throws
    "Could not resolve ENS name" after the lookup and sends nothing, and
    the page's transfer handler reads that error as a failed address
    resolution. *)
Theorem sendTransaction_unresolved_name {W : Type} (env : Env W)
    (wallet : Wallet) (wallets : list Wallet) (receiver amount chain : string)
    (erc20ContractAddress : string) (chainId : ChainId)
    (chainDecimals : gmap string nat) (decimals : nat)
    (amount_decimals : Z) (s : State W) (w1 w2 w3 : W) :
  lookupChain chain = Some chainId ->
  switchChain env wallet chainId (world s) = (inr tt, w1) ->
  getEthersProvider env wallet w1 = (inr tt, w2) ->
  js_get_num decimalConverter chainId = Some chainDecimals ->
  chainDecimals !! erc20ContractAddress = Some decimals ->
  Units.parseUnits amount decimals = Some amount_decimals ->
  isAddress env receiver = false ->
  resolveName env receiver w2 = (inr None, w3) ->
  sendTransaction env (wallet :: wallets) receiver amount chain
    erc20ContractAddress s
  = (inl (new_Error "Could not resolve ENS name"),
     {| world := w3;
        trace := trace s ++ [EvSwitchChain wallet chainId;
                             EvGetEthersProvider wallet;
                             EvResolveName receiver] |})
  /\ Dashboard.classifyTransferError (new_Error "Could not resolve ENS name")
     = Dashboard.AddressResolutionFailed.
Proof.
  intros Hchain Hsw Hprov Htbl Hd Hparse Hlit Hres.
  split; [|vm_compute; reflexivity].
  unfold sendTransaction. rewrite Hchain.
  erewrite bind_inr by (apply call_run; exact Hsw).
  erewrite bind_inr by (apply call_run; exact Hprov).
  erewrite bind_inr by (eapply convertAmount_ok; eassumption).
  rewrite Hlit. cbn [world trace].
  erewrite bind_inl.
  2:{ erewrite bind_inr by (apply call_run; exact Hres). reflexivity. }
  cbn [world trace]. rewrite <- !app_assoc. reflexivity.
Qed.

Lemma sendTransaction_unresolved_name_witness :
  sendTransaction Sim.env [Sim.owner] "vitalik.eth" "1" "sepolia" Sim.USDC
    (Sim.start Sim.world0)
  = (inl (new_Error "Could not resolve ENS name"),
     {| world := Sim.world0;
        trace := trace (Sim.start Sim.world0)
                 ++ [EvSwitchChain Sim.owner (ChainNum 11155111);
                     EvGetEthersProvider Sim.owner;
                     EvResolveName "vitalik.eth"] |})
  /\ Dashboard.classifyTransferError (new_Error "Could not resolve ENS name")
     = Dashboard.AddressResolutionFailed.
Proof.
  refine (sendTransaction_unresolved_name Sim.env Sim.owner [] "vitalik.eth"
            "1" "sepolia" Sim.USDC (ChainNum 11155111) sepoliaDecimals
            6%nat 1000000
            (Sim.start Sim.world0) Sim.world0 Sim.world0 Sim.world0
            _ eq_refl eq_refl _ _ _ _ eq_refl).
  - vm_compute. reflexivity.
  - apply lookup_insert_eq.
  - vm_compute. reflexivity.
  - vm_compute. reflexivity.
  - vm_compute. reflexivity.
Defined.

(** X8.  The decimal table is consulted only after the wallet has been
    switched: on a registered chain without a decimal table (such as
    "base"), or for a token absent from the chain's table, [sendOrder] and,
    for a token that is an address literal, [sendTransaction] fail with
    "No decimals for chain: ..." or "No decimals for token: ..." after the
    chain switch and the provider (and for [sendOrder] the signer's
    address) were obtained, and before any name lookup, allowance, quote
    or transfer. *)
Theorem decimals_checked_after_switch {W : Type} (env : Env W)
    (wallet : Wallet) (wallets : list Wallet) (chain : string)
    (chainId : ChainId) (token : Address) (amount : string) (msg : string)
    (s : State W) (w1 w2 : W) :
  lookupChain chain = Some chainId ->
  (js_get_num decimalConverter chainId = None
   /\ msg = "No decimals for chain: " +:+ chain)
  \/ (exists chainDecimals,
         js_get_num decimalConverter chainId = Some chainDecimals
         /\ js_get chainDecimals token = Undefined
         /\ msg = "No decimals for token: " +:+ token) ->
  switchChain env wallet chainId (world s) = (inr tt, w1) ->
  getEthersProvider env wallet w1 = (inr tt, w2) ->
  (isAddress env token = true ->
   forall receiver,
      sendTransaction env (wallet :: wallets) receiver amount chain token s
      = (inl (new_Error msg),
         {| world := w2;
            trace := trace s ++ [EvSwitchChain wallet chainId;
                                 EvGetEthersProvider wallet] |}))
  /\ (forall toAsset fromAddress w3,
         getAddress env w2 = (inr fromAddress, w3) ->
         sendOrder env (wallet :: wallets) chain token toAsset amount s
         = (inl (new_Error msg),
            {| world := w3;
               trace := trace s ++ [EvSwitchChain wallet chainId;
                                    EvGetEthersProvider wallet;
                                    EvGetAddress] |})).
Proof.
  intros Hchain Hmissing Hsw Hprov.
  assert (forall st : State W,
             convertAmount chain chainId token amount st
             = (inl (new_Error msg), st)) as Hconv.
  { intros st. unfold convertAmount.
    destruct Hmissing as [[-> ->]|(tbl & -> & -> & ->)]; reflexivity. }
  split.
  - intros _ receiver. unfold sendTransaction. rewrite Hchain.
    erewrite bind_inr by (apply call_run; exact Hsw).
    erewrite bind_inr by (apply call_run; exact Hprov).
    erewrite bind_inl by apply Hconv.
    cbn [world trace]. rewrite <- !app_assoc. reflexivity.
  - intros toAsset fromAddress w3 Haddr. unfold sendOrder. rewrite Hchain.
    erewrite bind_inr by (apply call_run; exact Hsw).
    erewrite bind_inr by (apply call_run; exact Hprov).
    erewrite bind_inr by (apply call_run; exact Haddr).
    erewrite bind_inl by apply Hconv.
    cbn [world trace]. rewrite <- !app_assoc. reflexivity.
Qed.

Lemma decimals_checked_after_switch_witness :
  sendTransaction Sim.env [Sim.owner] "vitalik.eth" "1" "base" Sim.USDC
    (Sim.start Sim.world0)
  = (inl (new_Error ("No decimals for chain: " +:+ "base")),
     {| world := Sim.world0;
        trace := trace (Sim.start Sim.world0)
                 ++ [EvSwitchChain Sim.owner (ChainNum 8453);
                     EvGetEthersProvider Sim.owner] |}).
Proof.
  refine (proj1 (decimals_checked_after_switch Sim.env Sim.owner [] "base"
                   (ChainNum 8453) Sim.USDC "1"
                   ("No decimals for chain: " +:+ "base")
                   (Sim.start Sim.world0) Sim.world0 Sim.world0
                   _ (or_introl (conj _ eq_refl)) eq_refl eq_refl)
            eq_refl "vitalik.eth");
    vm_compute; reflexivity.
Defined.

(** ** Errors of the order executor and of the tracker *)

Lemma substring_append_prefix (p s : string) :
  substring 0 (String.length p) (p +:+ s) = p.
Proof. induction p as [|a p IH]; [destruct s; reflexivity|]. simpl. f_equal. exact IH. Qed.

Lemma includes_prefix (p s : string) :
  p <> "" -> includes p (p +:+ s) = true.
Proof.
  intros Hp. unfold includes.
  assert (String.prefix p (p +:+ s) = true) as Hpre
    by (apply prefix_correct, substring_append_prefix).
  destruct (p +:+ s) as [|b rest] eqn:E.
  - destruct p; [congruence|discriminate E].
  - cbn [String.index]. rewrite Hpre. reflexivity.
Qed.

(** X9.  When the order book refuses the quote, [sendOrder] stops there:
    nothing is signed and nothing is submitted.  A refusal whose body says
    "NoLiquidity" comes out as an error "NoLiquidity: " followed by the
    order book's description (or "No route found between these tokens"
    when it gives none), which the page's swap handler shows as its
    no-liquidity message; any other error comes out unchanged. *)
Theorem sendOrder_quote_failure {W : Type} (env : Env W) (wallet : Wallet)
    (wallets : list Wallet) (chain : string) (chainId : ChainId)
    (fromAsset toAsset : string) (amount : string)
    (chainDecimals : gmap string nat) (decimals : nat) (amountDecimals : Z)
    (s : State W) (w1 w2 w3 : W) (fromAddress : Address) (s5 : State W)
    (e : JsError) (w6 : W) :
  let vaultAddr :=
    js_get_num (COW_PROTOCOL_VAULT_RELAYER_ADDRESS env) chainId in
  let quoteRequest :=
    {| req_sellToken := fromAsset; req_buyToken := toAsset;
       req_from := fromAddress; req_receiver := fromAddress;
       req_sellAmountBeforeFee := amountDecimals; req_kind := "sell" |} in
  let s6 :=
    {| world := w6;
       trace := trace s5 ++ [EvGetQuote chainId quoteRequest] |} in
  lookupChain chain = Some chainId ->
  switchChain env wallet chainId (world s) = (inr tt, w1) ->
  getEthersProvider env wallet w1 = (inr tt, w2) ->
  getAddress env w2 = (inr fromAddress, w3) ->
  js_get_num decimalConverter chainId = Some chainDecimals ->
  chainDecimals !! fromAsset = Some decimals ->
  Units.parseUnits amount decimals = Some amountDecimals ->
  checkAllowanceAndApproveIfNecessary env vaultAddr fromAsset amountDecimals
    {| world := w3;
       trace := trace s ++ [EvSwitchChain wallet chainId;
                            EvGetEthersProvider wallet; EvGetAddress] |}
  = (inr tt, s5) ->
  getQuote env chainId quoteRequest (world s5) = (inl e, w6) ->
  let run :=
    sendOrder env (wallet :: wallets) chain fromAsset toAsset amount s in
  (exists e', run = (inl e', s6))
  /\ (forall b,
         body e = Some b -> errorType b = "NoLiquidity" ->
         let reason :=
           if bool_decide (description b = "")
           then "No route found between these tokens" else description b in
         run = (inl (new_Error ("NoLiquidity: " +:+ reason)), s6)
         /\ Dashboard.swapErrorMessage (new_Error ("NoLiquidity: " +:+ reason))
            = "Sorry, there is no liquidity available for this swap pair. Please try a different token pair.")
  /\ ((body e = None
       \/ exists b, body e = Some b /\ errorType b <> "NoLiquidity") ->
      run = (inl e, s6)).
Proof.
  intros vaultAddr quoteRequest s6
    Hchain Hsw Hprov Haddr Htbl Hd Hparse Hallow Hquote run.
  assert (run = sendOrder_catch e s6) as Hrun.
  { unfold run, sendOrder. rewrite Hchain.
    erewrite bind_inr by (apply call_run; exact Hsw).
    erewrite bind_inr by (apply call_run; exact Hprov).
    erewrite bind_inr by (apply call_run; exact Haddr).
    cbn [world trace]. rewrite <- !app_assoc. cbn [app].
    erewrite bind_inr by (eapply convertAmount_ok; eassumption).
    erewrite bind_inr by exact Hallow.
    apply try_catch_inl.
    erewrite bind_inl by (apply call_run; exact Hquote). reflexivity. }
  rewrite Hrun. split; [|split].
  - apply sendOrder_catch_throws.
  - intros b Hb Hty reason. split.
    + unfold sendOrder_catch. rewrite Hb.
      rewrite bool_decide_eq_true_2 by exact Hty. reflexivity.
    + unfold Dashboard.swapErrorMessage. cbn [message new_Error].
      change ("NoLiquidity: " +:+ reason)
        with ("NoLiquidity" +:+ (": " +:+ reason)).
      rewrite includes_prefix by discriminate. reflexivity.
  - intros [Hb|(b & Hb & Hty)]; unfold sendOrder_catch; rewrite Hb;
      [reflexivity|].
    rewrite bool_decide_eq_false_2 by exact Hty. reflexivity.
Qed.

Lemma sendOrder_quote_failure_witness :
  let env := refusingQuotes noLiquidityError in
  let vaultAddr := Some Sim.relayer in
  let quoteRequest :=
    {| req_sellToken := Sim.USDC; req_buyToken := Sim.DAI;
       req_from := Sim.owner; req_receiver := Sim.owner;
       req_sellAmountBeforeFee := 100000000; req_kind := "sell" |} in
  sendOrder env [Sim.owner] "sepolia" Sim.USDC Sim.DAI "100"
    (Sim.start Sim.world0)
  = (inl (new_Error "NoLiquidity: no route found"),
     {| world := Sim.set_allowed MaxUint256 Sim.world0;
        trace := [EvSwitchChain Sim.owner (ChainNum 11155111);
                  EvGetEthersProvider Sim.owner; EvGetAddress;
                  EvGetAddress;
                  EvAllowance Sim.USDC Sim.owner vaultAddr;
                  EvApprove Sim.USDC vaultAddr MaxUint256; EvWait "0xa9";
                  EvGetQuote (ChainNum 11155111) quoteRequest] |}).
Proof.
  intros env vaultAddr quoteRequest.
  assert (lookupChain "sepolia" = Some (ChainNum 11155111)) as Hchain
    by (vm_compute; reflexivity).
  assert (js_get_num decimalConverter (ChainNum 11155111)
          = Some sepoliaDecimals) as Htbl by apply lookup_insert_eq.
  assert (sepoliaDecimals !! Sim.USDC = Some 6%nat) as Hd
    by (vm_compute; reflexivity).
  assert (Units.parseUnits "100" 6 = Some 100000000) as Hparse
    by (vm_compute; reflexivity).
  destruct (sendOrder_quote_failure env Sim.owner [] "sepolia"
              (ChainNum 11155111) Sim.USDC Sim.DAI "100" sepoliaDecimals
              6%nat 100000000 (Sim.start Sim.world0)
              Sim.world0 Sim.world0 Sim.world0 Sim.owner
              {| world := Sim.set_allowed MaxUint256 Sim.world0;
                 trace := [EvSwitchChain Sim.owner (ChainNum 11155111);
                           EvGetEthersProvider Sim.owner; EvGetAddress;
                           EvGetAddress;
                           EvAllowance Sim.USDC Sim.owner vaultAddr;
                           EvApprove Sim.USDC vaultAddr MaxUint256;
                           EvWait "0xa9"] |}
              noLiquidityError (Sim.set_allowed MaxUint256 Sim.world0)
              Hchain eq_refl eq_refl eq_refl Htbl Hd Hparse
              ltac:(vm_compute; reflexivity) eq_refl)
    as (_ & Hno & _).
  destruct (Hno _ eq_refl eq_refl) as [Hrun _]. exact Hrun.
Defined.

(** X10.  A poll that throws ends the tracking with that error: if the
    next [n] polls answer [OPEN] and the poll after them throws,
    [waitForOrderStatus] throws the same error after exactly [n + 1]
    rounds of timer and poll; it does not poll again. *)
Theorem waitForOrderStatus_poll_failure {W : Type} (env : Env W)
    (chain : string) (chainId : ChainId) (orderId : string) (n : nat)
    (s : State W) (e : JsError) (w' : W) (fuel : nat) :
  lookupChain chain = Some chainId ->
  failing_poll env chainId orderId n (world s) e w' ->
  (n < fuel)%nat ->
  waitForOrderStatus env fuel orderId chain s
  = (inl e,
     {| world := w';
        trace := trace s ++ poll_events chainId orderId (S n) |}).
Proof.
  intros Hchain Hpolls Hfuel. unfold waitForOrderStatus. rewrite Hchain.
  revert s fuel Hpolls Hfuel.
  induction n as [|n IH]; intros s fuel Hpolls Hfuel;
    (destruct fuel as [|fuel]; [lia|]).
  - cbn [failing_poll] in Hpolls. cbn [waitForOrderStatus_loop].
    rewrite bool_decide_eq_true_2 by reflexivity.
    rewrite (bind_inr _ _ _ _ _ (sleep_run env 3000 s)).
    erewrite bind_inl by (apply call_run; exact Hpolls).
    cbn [world trace]. rewrite <- app_assoc. reflexivity.
  - destruct Hpolls as (w1 & Hget & Hrest).
    rewrite (loop_step env _ _ _ _ _ _ Hget).
    rewrite (IH (Build_State w1 _) fuel Hrest ltac:(lia)).
    cbn [world trace]. rewrite (poll_events_S _ _ (S n)), <- app_assoc.
    reflexivity.
Qed.

Lemma waitForOrderStatus_poll_failure_witness :
  waitForOrderStatus Sim.env 5 "order-1" "sepolia"
    (Sim.start (Sim.set_statuses [OPEN] Sim.world0))
  = (inl (new_Error "order not found"),
     {| world := Sim.set_clock 1700000006000 Sim.world0;
        trace := trace (Sim.start (Sim.set_statuses [OPEN] Sim.world0))
                 ++ poll_events (ChainNum 11155111) "order-1" 2 |}).
Proof.
  refine (waitForOrderStatus_poll_failure Sim.env "sepolia"
            (ChainNum 11155111) "order-1" 1
            (Sim.start (Sim.set_statuses [OPEN] Sim.world0))
            (new_Error "order not found")
            (Sim.set_clock 1700000006000 Sim.world0) 5 _ _ _).
  - vm_compute. reflexivity.
  - simpl. eexists. split; reflexivity.
  - lia.
Defined.

Ltac no_approval H :=
  repeat (apply elem_of_cons in H as [H|H]; [discriminate H|]);
  apply elem_of_nil in H; contradiction.

(** X11.  [checkAllowanceAndApproveIfNecessary] approves only on evidence:
    in every run, whatever fails, an approval appears in the trace only
    after the signer's address and an allowance smaller than the required
    amount were read, and it is then the single approval, for
    [MaxUint256]. *)
Theorem approval_only_when_short {W : Type} (env : Env W)
    (targetContract : option Address) (tokenContract : Address)
    (requiredAmount : Z) (s : State W) (r : Result unit) (s' : State W) :
  checkAllowanceAndApproveIfNecessary env targetContract tokenContract
    requiredAmount s = (r, s') ->
  exists calls,
    trace s' = trace s ++ calls
    /\ forall token spender value,
         EvApprove token spender value ∈ calls ->
         token = tokenContract /\ spender = targetContract
         /\ value = MaxUint256
         /\ length (List.filter isSubmission calls) = 1%nat
         /\ exists owner w1 existingAllowance w2,
              getAddress env (world s) = (inr owner, w1)
              /\ allowance env tokenContract owner targetContract w1
                 = (inr existingAllowance, w2)
              /\ existingAllowance < requiredAmount.
Proof.
  unfold checkAllowanceAndApproveIfNecessary, bind, call, ret.
  cbn [world trace].
  destruct (getAddress env (world s)) as [[e|owner] w1] eqn:Hown;
    cbn [world trace].
  { intros [= <- <-]. eexists. split; [reflexivity|].
    intros t sp v Hin. no_approval Hin. }
  destruct (allowance env tokenContract owner targetContract w1)
    as [[e|existing] w2] eqn:Hall; cbn [world trace].
  { intros [= <- <-]. eexists. cbn [trace]. rewrite <- app_assoc.
    split; [reflexivity|]. intros t sp v Hin. no_approval Hin. }
  destruct (Z.leb_spec requiredAmount existing) as [Hle|Hlt].
  { intros [= <- <-]. eexists. cbn [trace]. rewrite <- app_assoc.
    split; [reflexivity|]. intros t sp v Hin. no_approval Hin. }
  assert (forall calls,
             (calls = [EvGetAddress;
                       EvAllowance tokenContract owner targetContract;
                       EvApprove tokenContract targetContract MaxUint256]
              \/ exists tx,
                   calls = [EvGetAddress;
                            EvAllowance tokenContract owner targetContract;
                            EvApprove tokenContract targetContract MaxUint256;
                            EvWait tx]) ->
             forall token spender value,
               EvApprove token spender value ∈ calls ->
               token = tokenContract /\ spender = targetContract
               /\ value = MaxUint256
               /\ length (List.filter isSubmission calls) = 1%nat
               /\ exists owner0 w0 existingAllowance w2',
                    ((inr owner, w1) : Result Address * W) = (inr owner0, w0)
                    /\ allowance env tokenContract owner0 targetContract w0
                       = (inr existingAllowance, w2')
                    /\ existingAllowance < requiredAmount) as Hshape.
  { intros calls Hcalls t sp v Hin.
    assert (EvApprove t sp v
            = EvApprove tokenContract targetContract MaxUint256) as Heq.
    { destruct Hcalls as [-> | (tx & ->)];
        repeat (apply elem_of_cons in Hin as [Hin|Hin];
                [first [discriminate Hin|exact Hin]|]);
        apply elem_of_nil in Hin; contradiction. }
    inversion Heq; subst t sp v.
    repeat (split; [reflexivity|]). split.
    - destruct Hcalls as [-> | (tx & ->)]; reflexivity.
    - exists owner, w1, existing, w2. auto. }
  match goal with
  | |- context [approve env ?a ?b ?c ?d] =>
      destruct (approve env a b c d) as [[e|tx] w3]
  end; cbn [world trace].
  { intros [= <- <-]. eexists. cbn [trace]. rewrite <- !app_assoc.
    split; [reflexivity|]. apply Hshape. left. reflexivity. }
  destruct (wait env tx w3) as [r0 w4]. intros [= <- <-].
  eexists. cbn [trace]. rewrite <- !app_assoc.
  split; [reflexivity|]. apply Hshape. right. exists tx. reflexivity.
Qed.

Lemma approval_only_when_short_witness :
  let s := Sim.start Sim.world0 in
  let s' :=
    snd (checkAllowanceAndApproveIfNecessary Sim.env (Some Sim.router)
           Sim.USDC 100000000 s) in
  exists calls,
    trace s' = trace s ++ calls
    /\ forall token spender value,
         EvApprove token spender value ∈ calls ->
         token = Sim.USDC /\ spender = Some Sim.router
         /\ value = MaxUint256
         /\ length (List.filter isSubmission calls) = 1%nat
         /\ exists owner w1 existingAllowance w2,
              getAddress Sim.env (world s) = (inr owner, w1)
              /\ allowance Sim.env Sim.USDC owner (Some Sim.router) w1
                 = (inr existingAllowance, w2)
              /\ existingAllowance < 100000000.
Proof.
  intros s s'.
  apply (approval_only_when_short Sim.env (Some Sim.router) Sim.USDC
           100000000 s (inr tt) s').
  vm_compute. reflexivity.
Defined.

(** ** The dashboard's history *)

Section History.
Import Dashboard.

Lemma applyOps_cons (op : HistoryOp) (ops : list HistoryOp)
    (h : list TransactionHistoryItem) :
  applyOps (op :: ops) h = applyOps ops (applyOp op h).
Proof. reflexivity. Qed.

Lemma applyOp_length (op : HistoryOp) (h : list TransactionHistoryItem) :
  (length h <= 10)%nat ->
  length (applyOp op h)
  = Nat.min 10 (length h + (if isAdd op then 1 else 0))%nat.
Proof.
  intros Hh. destruct op as [now drawn now' item|i updates];
    cbn [applyOp isAdd].
  - unfold addTransactionToHistory. rewrite length_take. cbn [length]. lia.
  - unfold updateTransactionInHistory. rewrite length_map. lia.
Qed.

Lemma applyOps_length (ops : list HistoryOp)
    (h : list TransactionHistoryItem) :
  (length h <= 10)%nat ->
  length (applyOps ops h)
  = Nat.min 10 (length h + length (List.filter isAdd ops))%nat.
Proof.
  revert h. induction ops as [|op ops IH]; intros h Hh.
  - unfold applyOps. cbn [fold_left List.filter length]. lia.
  - rewrite applyOps_cons, IH by (rewrite applyOp_length by exact Hh; lia).
    rewrite applyOp_length by exact Hh. cbn [List.filter].
    destruct (isAdd op); cbn [length]; lia.
Qed.

Lemma applyOp_lookup (op : HistoryOp) (h : list TransactionHistoryItem)
    (j : nat) :
  (j + (if isAdd op then 1 else 0) < 10)%nat ->
  applyOp op h !! (j + (if isAdd op then 1 else 0))%nat
  = afterUpdates [op] <$> h !! j.
Proof.
  intros Hj. destruct op as [now drawn now' item|i updates];
    cbn [applyOp isAdd] in *.
  - unfold addTransactionToHistory.
    rewrite lookup_take_lt by lia. rewrite Nat.add_1_r, lookup_cons.
    destruct (h !! j); reflexivity.
  - unfold updateTransactionInHistory. rewrite Nat.add_0_r, list_lookup_fmap.
    reflexivity.
Qed.

Lemma afterUpdates_cons (op : HistoryOp) (ops : list HistoryOp)
    (item : TransactionHistoryItem) :
  afterUpdates (op :: ops) item = afterUpdates ops (afterUpdates [op] item).
Proof. destruct op; reflexivity. Qed.

End History.

(** X12.  The history never holds more than ten items: from a history of
    at most ten items (it starts empty), after any sequence of additions
    and updates its length is the number of items it had plus the number
    of additions, capped at ten. *)
Theorem history_holds_ten (ops : list Dashboard.HistoryOp)
    (h : list Dashboard.TransactionHistoryItem) :
  (length h <= 10)%nat ->
  length (Dashboard.applyOps ops h)
  = Nat.min 10 (length h + length (List.filter Dashboard.isAdd ops))%nat
  /\ (length (Dashboard.applyOps ops h) <= 10)%nat.
Proof.
  intros Hh. rewrite applyOps_length by exact Hh. split; [reflexivity|lia].
Qed.

(** X13.  Additions push items back and updates never move them: the item
    at position [j] is, after the changes [ops], at position [j] plus the
    number of additions, changed by the updates among [ops] that matched
    its identifier; it is gone exactly when that position is ten or more,
    that is once ten newer items stand before it. *)
Theorem history_item_position (ops : list Dashboard.HistoryOp)
    (h : list Dashboard.TransactionHistoryItem) (j : nat) :
  (length h <= 10)%nat ->
  let k := (j + length (List.filter Dashboard.isAdd ops))%nat in
  Dashboard.applyOps ops h !! k
  = if bool_decide (k < 10)%nat
    then Dashboard.afterUpdates ops <$> h !! j
    else None.
Proof.
  intros Hh k. subst k. revert h j Hh.
  induction ops as [|op ops IH]; intros h j Hh.
  - cbn [List.filter length Dashboard.applyOps fold_left].
    rewrite Nat.add_0_r. case_bool_decide as Hk.
    + destruct (h !! j); reflexivity.
    + apply lookup_ge_None_2. lia.
  - rewrite applyOps_cons.
    assert (length (Dashboard.applyOp op h) <= 10)%nat as Hh'
      by (rewrite applyOp_length by exact Hh; lia).
    cbn [List.filter].
    replace (j + length (if Dashboard.isAdd op
                         then op :: List.filter Dashboard.isAdd ops
                         else List.filter Dashboard.isAdd ops))%nat
      with ((j + (if Dashboard.isAdd op then 1 else 0))
            + length (List.filter Dashboard.isAdd ops))%nat
      by (destruct (Dashboard.isAdd op); cbn [length]; lia).
    rewrite (IH _ _ Hh').
    case_bool_decide as Hk; [|reflexivity].
    rewrite applyOp_lookup by lia.
    destruct (h !! j) as [item|]; [|reflexivity].
    cbn [fmap option_fmap option_map]. rewrite (afterUpdates_cons op ops).
    reflexivity.
Qed.

Lemma history_holds_ten_witness :
  let item :=
    {| Dashboard.new_type := Dashboard.swap_type;
       Dashboard.new_status := Dashboard.pending;
       Dashboard.new_data :=
         {| Dashboard.transactionHash := None;
            Dashboard.chain := Some "sepolia";
            Dashboard.fromAsset := Some Sim.USDC;
            Dashboard.toAsset := Some Sim.DAI;
            Dashboard.amount := Some "100";
            Dashboard.recipientAddress := None;
            Dashboard.orderId := None;
            Dashboard.moonpayUrl := None |};
       Dashboard.new_message := "Preparing to swap 100 tokens on sepolia..." |} in
  let ops :=
    replicate 11 (Dashboard.Add 1700000000000 "k3j9x2a" 1700000000000 item) in
  length (Dashboard.applyOps ops []) = 10%nat.
Proof.
  intros item ops.
  refine (eq_trans (proj1 (history_holds_ten ops [] _)) _).
  - simpl. lia.
  - vm_compute. reflexivity.
Defined.

Lemma history_item_position_witness :
  let data0 :=
    {| Dashboard.transactionHash := None;
       Dashboard.chain := Some "sepolia";
       Dashboard.fromAsset := None; Dashboard.toAsset := None;
       Dashboard.amount := Some "5";
       Dashboard.recipientAddress := Some Sim.owner;
       Dashboard.orderId := None; Dashboard.moonpayUrl := None |} in
  let old :=
    {| Dashboard.id := "tx-1700000000000-k3j9x2a";
       Dashboard.timestamp := 1700000000000;
       Dashboard.type := Dashboard.transfer_type;
       Dashboard.status := Dashboard.pending;
       Dashboard.data := data0;
       Dashboard.message := "Preparing to transfer 5 tokens" |} in
  let item :=
    {| Dashboard.new_type := Dashboard.swap_type;
       Dashboard.new_status := Dashboard.failed;
       Dashboard.new_data := data0;
       Dashboard.new_message := "Swap of 5 tokens failed: Unknown error" |} in
  let done :=
    {| Dashboard.upd_id := None; Dashboard.upd_timestamp := None;
       Dashboard.upd_type := None;
       Dashboard.upd_status := Some Dashboard.completed;
       Dashboard.upd_data := None;
       Dashboard.upd_message := Some "Successfully transferred 5 tokens" |} in
  let ops :=
    [Dashboard.Add 1700000001000 "a1b2c3d" 1700000001000 item;
     Dashboard.Update "tx-1700000000000-k3j9x2a" done;
     Dashboard.Add 1700000002000 "e4f5g6h" 1700000002000 item] in
  Dashboard.applyOps ops [old] !! 2%nat
  = Some {| Dashboard.id := "tx-1700000000000-k3j9x2a";
            Dashboard.timestamp := 1700000000000;
            Dashboard.type := Dashboard.transfer_type;
            Dashboard.status := Dashboard.completed;
            Dashboard.data := data0;
            Dashboard.message := "Successfully transferred 5 tokens" |}.
Proof.
  intros data0 old item done ops.
  refine (eq_trans (history_item_position ops [old] 0 _) _).
  - simpl. lia.
  - reflexivity.
Defined.

(** ** Updates of the history *)

Section HistoryUpdates.
Import Dashboard.

Lemma merge_merge (item : TransactionHistoryItem) (updates : Updates) :
  merge (merge item updates) updates = merge item updates.
Proof.
  unfold merge. cbn [id timestamp type status data message].
  destruct updates as [[?|] [?|] [?|] [?|] [?|] [?|]]; reflexivity.
Qed.

Lemma update_cons (i : string) (updates : Updates)
    (item : TransactionHistoryItem) (h : list TransactionHistoryItem) :
  updateTransactionInHistory i updates (item :: h)
  = (if bool_decide (id item = i) then merge item updates else item)
    :: updateTransactionInHistory i updates h.
Proof. reflexivity. Qed.

Lemma update_unknown (i : string) (updates : Updates)
    (h : list TransactionHistoryItem) :
  (forall item, item ∈ h -> id item <> i) ->
  updateTransactionInHistory i updates h = h.
Proof.
  induction h as [|item h IH]; intros Hno; [reflexivity|].
  rewrite update_cons, IH
    by (intros item' Hin; apply Hno; right; exact Hin).
  rewrite bool_decide_eq_false_2 by (apply Hno; left). reflexivity.
Qed.

Ltac append_steps H :=
  repeat first
    [ progress change (String.append EmptyString ?s) with s in H
    | progress change (String.append (String ?c ?s) ?t)
        with (String c (String.append s t)) in H ].

(** The digits of the clock reading end at the first "-" that follows
    them, so an identifier determines the reading and the characters
    drawn. *)
Lemma digits_then_dash (l1 l2 : list ascii) (d1 d2 : string) :
  forallb Decimal.is_digit l1 = true ->
  forallb Decimal.is_digit l2 = true ->
  string_of_list_ascii l1 +:+ "-" +:+ d1
  = string_of_list_ascii l2 +:+ "-" +:+ d2 ->
  l1 = l2 /\ d1 = d2.
Proof.
  revert l2. induction l1 as [|c1 l1 IH]; intros [|c2 l2] H1 H2 Heq;
    cbn [string_of_list_ascii forallb] in *; append_steps Heq.
  - injection Heq as ->. split; reflexivity.
  - injection Heq as <- _. discriminate H2.
  - injection Heq as -> _. discriminate H1.
  - apply andb_true_iff in H1 as [_ H1]. apply andb_true_iff in H2 as [_ H2].
    injection Heq as -> Heq.
    destruct (IH l2 H1 H2 Heq) as [-> ->]. split; reflexivity.
Qed.

Lemma historyId_inj (now1 now2 : Z) (drawn1 drawn2 : string) :
  0 <= now1 -> 0 <= now2 ->
  historyId now1 drawn1 = historyId now2 drawn2 ->
  now1 = now2 /\ drawn1 = drawn2.
Proof.
  intros H1 H2 Heq. unfold historyId in Heq.
  append_steps Heq. injection Heq as Heq.
  rewrite !DecimalFacts.toString_nonneg in Heq by assumption.
  apply digits_then_dash in Heq as [Hd ->];
    [|apply DecimalFacts.nat_toString_digits..].
  split; [|reflexivity].
  rewrite <- (DecimalFacts.nat_toString_val now1 H1),
          <- (DecimalFacts.nat_toString_val now2 H2), Hd.
  reflexivity.
Qed.

End HistoryUpdates.

(** X14.  [updateTransactionInHistory] changes items in place and only
    those whose identifier matches: the length and the position of every
    item are kept, an item with another identifier is left as it is, every
    item with the identifier is merged with the update, an identifier no
    item has leaves the history unchanged, and updating twice is the same
    as updating once. *)
Theorem update_touches_matching_items_only (i : string)
    (updates : Dashboard.Updates)
    (h : list Dashboard.TransactionHistoryItem) :
  let h' := Dashboard.updateTransactionInHistory i updates h in
  length h' = length h
  /\ (forall k item,
         h !! k = Some item ->
         h' !! k = Some (if bool_decide (Dashboard.id item = i)
                         then Dashboard.merge item updates else item))
  /\ ((forall item, item ∈ h -> Dashboard.id item <> i) -> h' = h)
  /\ Dashboard.updateTransactionInHistory i updates h' = h'.
Proof.
  intros h'. subst h'. split; [|split; [|split]].
  - unfold Dashboard.updateTransactionInHistory. apply length_map.
  - intros k item Hk. unfold Dashboard.updateTransactionInHistory.
    rewrite list_lookup_fmap, Hk. reflexivity.
  - apply update_unknown.
  - induction h as [|item h IH]; [reflexivity|].
    rewrite !update_cons, IH. f_equal.
    destruct (bool_decide (Dashboard.id item = i)) eqn:Hid.
    + destruct (bool_decide
                  (Dashboard.id (Dashboard.merge item updates) = i));
        [apply merge_merge|reflexivity].
    + rewrite Hid. reflexivity.
Qed.

Lemma update_touches_matching_items_only_witness :
  let data0 :=
    {| Dashboard.transactionHash := None;
       Dashboard.chain := Some "sepolia";
       Dashboard.fromAsset := None; Dashboard.toAsset := None;
       Dashboard.amount := Some "5";
       Dashboard.recipientAddress := Some Sim.owner;
       Dashboard.orderId := None; Dashboard.moonpayUrl := None |} in
  let old :=
    {| Dashboard.id := "tx-1700000000000-k3j9x2a";
       Dashboard.timestamp := 1700000000000;
       Dashboard.type := Dashboard.transfer_type;
       Dashboard.status := Dashboard.pending;
       Dashboard.data := data0;
       Dashboard.message := "Preparing to transfer 5 tokens" |} in
  let done :=
    {| Dashboard.upd_id := None; Dashboard.upd_timestamp := None;
       Dashboard.upd_type := None;
       Dashboard.upd_status := Some Dashboard.completed;
       Dashboard.upd_data := None;
       Dashboard.upd_message := Some "Successfully transferred 5 tokens" |} in
  Dashboard.updateTransactionInHistory "tx-1700000000000-a1b2c3d" done [old]
  = [old].
Proof.
  intros data0 old done.
  apply (proj1 (proj2 (proj2 (update_touches_matching_items_only
                                "tx-1700000000000-a1b2c3d" done [old])))).
  intros item Hin. apply list_elem_of_singleton in Hin as ->. discriminate.
Defined.

(** X15.  The transfer and swap handlers build the identifier they later
    update from their own reading of the clock and their own random
    characters, while [addTransactionToHistory] builds the identifier of
    the item it adds from its own: an update addressed to the handler's
    identifier reaches the item just added exactly when both readings and
    both draws coincide (no earlier item having that identifier);
    otherwise it leaves the history as the addition made it. *)
Theorem update_reaches_added_item (now : Z) (drawn : string) (now' : Z)
    (item : Dashboard.NewItem)
    (prev : list Dashboard.TransactionHistoryItem)
    (now0 : Z) (drawn0 : string) (updates : Dashboard.Updates) :
  0 <= now -> 0 <= now0 ->
  (forall it, it ∈ prev ->
              Dashboard.id it <> Dashboard.historyId now0 drawn0) ->
  let h := Dashboard.addTransactionToHistory now drawn now' item prev in
  Dashboard.updateTransactionInHistory
    (Dashboard.historyId now0 drawn0) updates h
  = if bool_decide (now0 = now /\ drawn0 = drawn)
    then match h with
         | added :: rest => Dashboard.merge added updates :: rest
         | [] => []
         end
    else h.
Proof.
  intros Hnow Hnow0 Hprev h. subst h.
  unfold Dashboard.addTransactionToHistory.
  change (take 10 (?x :: prev)) with (x :: take 9 prev).
  rewrite update_cons, update_unknown
    by (intros it Hin; apply Hprev; exact (subseteq_take 9 prev it Hin)).
  cbn [Dashboard.id].
  destruct (decide (now0 = now /\ drawn0 = drawn)) as [[-> ->]|Hsame].
  - rewrite !bool_decide_eq_true_2 by (try split; reflexivity). reflexivity.
  - rewrite (bool_decide_eq_false_2 (_ /\ _)) by exact Hsame.
    rewrite bool_decide_eq_false_2; [reflexivity|].
    intros Heq. apply Hsame.
    destruct (historyId_inj now now0 drawn drawn0 Hnow Hnow0 Heq)
      as [-> ->].
    split; reflexivity.
Qed.

Lemma update_reaches_added_item_witness :
  let data0 :=
    {| Dashboard.transactionHash := None;
       Dashboard.chain := Some "sepolia";
       Dashboard.fromAsset := None; Dashboard.toAsset := None;
       Dashboard.amount := Some "5";
       Dashboard.recipientAddress := Some Sim.owner;
       Dashboard.orderId := None; Dashboard.moonpayUrl := None |} in
  let item :=
    {| Dashboard.new_type := Dashboard.transfer_type;
       Dashboard.new_status := Dashboard.pending;
       Dashboard.new_data := data0;
       Dashboard.new_message := "Preparing to transfer 5 tokens" |} in
  let done :=
    {| Dashboard.upd_id := None; Dashboard.upd_timestamp := None;
       Dashboard.upd_type := None;
       Dashboard.upd_status := Some Dashboard.completed;
       Dashboard.upd_data := None;
       Dashboard.upd_message := Some "Successfully transferred 5 tokens" |} in
  let h :=
    Dashboard.addTransactionToHistory 1700000000000 "a1b2c3d" 1700000000000
      item [] in
  Dashboard.updateTransactionInHistory
    (Dashboard.historyId 1700000000000 "k3j9x2a") done h
  = h.
Proof.
  intros data0 item done h.
  refine (eq_trans
            (update_reaches_added_item 1700000000000 "a1b2c3d" 1700000000000
               item [] 1700000000000 "k3j9x2a" done _ _ _) _).
  - lia.
  - lia.
  - intros it Hin. apply elem_of_nil in Hin. contradiction.
  - vm_compute. reflexivity.
Defined.

(** ** The abbreviation of a hash *)







